(** * LED matrix driver: DMA descriptor rings and bit-plane encoding

    A shallow embedding of [src/i2s_parallel.c] (descriptor counting, ring
    filling, setup of the rings, buffer flip) and of [src/app_main.c]
    (pixel access, bit-plane encoder, bit-plane interleave scheduler, test
    patterns and main loop), with the properties of the design document
    stated over it, and further properties of the code. *)

From Stdlib Require Import ZArith Lia List Bool.
From Equations Require Import Equations.
From stdpp Require Import base option list numbers gmap.
From Stdlib.Strings Require Import Byte.

Local Open Scope Z_scope.

(** ** Machine integers

    The target is a 32-bit machine: [int] is 32 bits wide, [size_t] and
    [unsigned] are 32-bit unsigned, [uint16_t] has 16 bits.  Unsigned
    arithmetic and conversions between the types wrap; they are written out
    with the functions below.  Signed overflow is undefined in C: signed
    expressions are embedded as plain [Z] expressions and the theorems carry
    the ranges in which they stay representable. *)

Definition wrap_uint32 (z : Z) : Z := z mod 2 ^ 32.
Definition wrap_int32 (z : Z) : Z := (z + 2 ^ 31) mod 2 ^ 32 - 2 ^ 31.
Definition wrap_uint16 (z : Z) : Z := z mod 2 ^ 16.
Definition INT_MAX : Z := 2 ^ 31 - 1.

(** ** Outcomes of a call

    A call either returns, or it touches memory outside an allocated object
    (undefined behaviour in C, kept apart here as [Fault]). *)

Inductive outcome (A : Type) : Type :=
| Done (a : A)
| Fault.
Arguments Done {A} a.
Arguments Fault {A}.

#[export] Instance outcome_ret : MRet outcome := fun A a => Done a.
#[export] Instance outcome_bind : MBind outcome := fun A B k m =>
  match m with
  | Done a => k a
  | Fault => Fault
  end.

(** A [for] loop whose body may fault: the body runs once for each element
    of [l], in order, on the state the round before left; a fault ends the
    loop. *)
Fixpoint for_each {A S : Type} (l : list A) (body : S -> A -> outcome S) (s : S)
    : outcome S :=
  match l with
  | [] => Done s
  | i :: l => s' ← body s i; for_each l body s'
  end.

Module I2SParallel.

(** *** Data *)

(** A descriptor array lives in its own allocation; a pointer to a descriptor
    is the allocation together with an element index. [&dmadesc[n + 1]] may
    point one past the last element. *)
Definition block := nat.

Record desc_ptr := DescPtr { p_block : block; p_index : Z }.

#[export] Instance desc_ptr_eq_dec : EqDecision desc_ptr.
Proof. solve_decision. Defined.

(** Modelled from the spec: the Transfer Descriptor, [lldesc_t], whose
    declaration (the SDK's [rom/lldesc.h]) is not among the sources.  The
    fields are the ones [fill_dma_desc] assigns: [buf] the pointer to the
    data chunk, [size] and [length] the chunk length (12-bit fields, enough
    for the maximum transfer unit), [eof] the end-of-frame flag, [owner] the
    owner/ready marker, and [qe.stqe_next] the next-descriptor reference. *)
Record lldesc_t := {
  ll_size : Z;
  ll_length : Z;
  ll_offset : Z;
  ll_sosf : Z;
  ll_eof : Z;
  ll_owner : Z;
  ll_buf : Z;
  stqe_next : desc_ptr
}.

Definition bitfield (w : Z) (v : Z) : Z := Z.land v (Z.ones w).

Definition set_stqe_next (q : desc_ptr) (d : lldesc_t) : lldesc_t :=
  {| ll_size := ll_size d; ll_length := ll_length d; ll_offset := ll_offset d;
     ll_sosf := ll_sosf d; ll_eof := ll_eof d; ll_owner := ll_owner d;
     ll_buf := ll_buf d; stqe_next := q |}.

(** Modelled from the spec: the Buffer Segment, "memory pointer + size",
    [i2s_parallel_buffer_desc_t] of [i2s_parallel.h], which is not among the
    sources.  [memory] is an address (0 is [NULL]); [size] is a byte count,
    taken as a [size_t], a 32-bit unsigned value. *)
Record i2s_parallel_buffer_desc_t := {
  memory : Z;
  size : Z
}.

Definition DMA_MAX : Z := 4096 - 4.

(** Element accesses of a descriptor array, with C's bounds made explicit. *)
Definition in_bounds {A} (a : list A) (n : Z) : bool :=
  (0 <=? n) && (n <? Z.of_nat (length a)).

Definition load {A} (a : list A) (n : Z) : outcome A :=
  if in_bounds a n then
    match a !! Z.to_nat n with Some x => Done x | None => Fault end
  else Fault.

Definition store {A} (a : list A) (n : Z) (x : A) : outcome (list A) :=
  if in_bounds a n then Done (<[Z.to_nat n := x]> a) else Fault.

Definition update {A} (a : list A) (n : Z) (f : A -> A) : outcome (list A) :=
  x ← load a n; store a n (f x).

(** *** calc_needed_dma_descs_for *)

(** The loop reads [desc[i]] until it meets an entry whose [memory] is
    [NULL]; [desc] is the array as it lies in memory, entries after the end
    marker included.  Running off the array is a [Fault].  The addition and
    the division are unsigned ([size] is a [size_t]); [ret += ...] converts
    the unsigned sum back to [int]. *)
Fixpoint calc_loop (desc : list i2s_parallel_buffer_desc_t) (ret : Z) : outcome Z :=
  match desc with
  | [] => Fault
  | d :: rest =>
      if memory d =? 0 then Done ret
      else calc_loop rest
             (wrap_int32 (wrap_uint32 (wrap_uint32 ret
                + wrap_uint32 (wrap_uint32 (size d) + DMA_MAX - 1) / DMA_MAX)))
  end.

Definition calc_needed_dma_descs_for (desc : list i2s_parallel_buffer_desc_t) : outcome Z :=
  calc_loop desc 0.

(** *** fill_dma_desc *)

(** The [while (len)] loop of one segment.  [dmadesc] is the allocation the
    descriptor array [arr] lives in, [n] the next free index.  The loop ends
    for every [len]: a positive [len] shrinks by [DMA_MAX] per round until at
    most [DMA_MAX] is left, a negative one is taken whole in one round;
    [rounds_bound] bounds the rounds that remain. *)
Definition rounds_bound (len : Z) : nat :=
  if len =? 0 then 0%nat else S (Z.to_nat (Z.abs len / DMA_MAX)).

Equations? fill_while (dmadesc : block) (len data n : Z) (arr : list lldesc_t)
  : outcome (Z * list lldesc_t) by wf (rounds_bound len) lt :=
  fill_while dmadesc len data n arr with Z.eq_dec len 0 => {
    | left _ := Done (n, arr);
    | right _ :=
        let dmalen := if DMA_MAX <? len then DMA_MAX else len in
        arr' ← store arr n
                 {| ll_size := bitfield 12 dmalen;
                    ll_length := bitfield 12 dmalen;
                    ll_buf := data;
                    ll_eof := 0;
                    ll_sosf := 0;
                    ll_owner := 1;
                    stqe_next := DescPtr dmadesc (n + 1);
                    ll_offset := 0 |};
        fill_while dmadesc (len - dmalen) (wrap_uint32 (data + dmalen)) (n + 1) arr' }.
Proof.
  subst dmalen. unfold rounds_bound.
  rewrite (proj2 (Z.eqb_neq len 0)) by assumption.
  destruct (Z.ltb_spec DMA_MAX len) as [Hbig | Hsmall].
  - assert (len - DMA_MAX <> 0) as Hne by lia.
    rewrite (proj2 (Z.eqb_neq _ 0) Hne).
    rewrite !Z.abs_eq by (unfold DMA_MAX in *; lia).
    replace (len / DMA_MAX) with ((len - DMA_MAX) / DMA_MAX + 1).
    + assert (0 <= (len - DMA_MAX) / DMA_MAX)
        by (apply Z.div_pos; unfold DMA_MAX in *; lia).
      lia.
    + replace len with ((len - DMA_MAX) + 1 * DMA_MAX) at 2 by lia.
      rewrite Z.div_add by (unfold DMA_MAX; lia). reflexivity.
  - rewrite Z.sub_diag. simpl. lia.
Qed.

(** The [for] loop over the segments, up to the end marker. *)
Fixpoint fill_for (dmadesc : block) (bufdesc : list i2s_parallel_buffer_desc_t)
    (n : Z) (arr : list lldesc_t) : outcome (Z * list lldesc_t) :=
  match bufdesc with
  | [] => Fault
  | d :: rest =>
      if memory d =? 0 then Done (n, arr)
      else
        '(n', arr') ← fill_while dmadesc (wrap_int32 (size d)) (memory d) n arr;
        fill_for dmadesc rest n' arr'
  end.

(** [fill_dma_desc]: the two loops, then "Loop last back to first". *)
Definition fill_dma_desc (dmadesc : block) (arr : list lldesc_t)
    (bufdesc : list i2s_parallel_buffer_desc_t) : outcome (list lldesc_t) :=
  '(n, arr') ← fill_for dmadesc bufdesc 0 arr;
  update arr' (n - 1) (set_stqe_next (DescPtr dmadesc 0)).

(** *** Driver state *)

(** [i2s_parallel_state_t]: the two descriptor arrays and their lengths. *)
Record i2s_parallel_state_t := {
  dmadesc_a : block;
  dmadesc_b : block;
  desccount_a : Z;
  desccount_b : Z
}.

(** The two peripherals, [&I2S0] and [&I2S1]. *)
Inductive i2s_dev_t := I2S0 | I2S1.

Definition i2snum (dev : i2s_dev_t) : nat :=
  match dev with I2S0 => 0%nat | I2S1 => 1%nat end.

(** The global [i2s_state[2]] (an absent entry is a [NULL] pointer) and the
    descriptor arrays on the heap. *)
Record driver := {
  i2s_state : gmap nat i2s_parallel_state_t;
  heap : gmap block (list lldesc_t)
}.

(** [p[n].qe.stqe_next = q] through a pointer [p] into the heap. *)
Definition store_next (h : gmap block (list lldesc_t)) (p : block) (n : Z)
    (q : desc_ptr) : outcome (gmap block (list lldesc_t)) :=
  match h !! p with
  | Some arr =>
      arr' ← update arr n (set_stqe_next q);
      mret (<[p := arr']> h)
  | None => Fault
  end.

(** *** i2s_parallel_flip_to_buffer *)
Definition i2s_parallel_flip_to_buffer (m : driver) (dev : i2s_dev_t) (bufid : Z)
    : outcome driver :=
  let no := i2snum dev in
  match i2s_state m !! no with
  | None => Done m
  | Some st =>
      (* not using double buffering mode *)
      if desccount_b st <=? 0 then Done m
      else
        let active_dma_chain :=
          if bufid =? 0 then DescPtr (dmadesc_a st) 0
          else DescPtr (dmadesc_b st) 0 in
        h1 ← store_next (heap m) (dmadesc_a st) (desccount_a st - 1) active_dma_chain;
        h2 ← store_next h1 (dmadesc_b st) (desccount_b st - 1) active_dma_chain;
        mret {| i2s_state := i2s_state m; heap := h2 |}
  end.

(** *** i2s_parallel_setup, the descriptor part

    Signal routing and the peripheral's registers are left out. *)

(** Modelled from the spec: [sizeof(lldesc_t)], the size of the Transfer
    Descriptor, whose declaration (the SDK's [rom/lldesc.h]) is not among
    the sources: three 32-bit words, the word of bit fields, the data
    pointer and the next-descriptor reference. *)
Definition sizeof_lldesc_t : Z := 12.

(** Whether the allocator grants a request is not decided by this code: it
    is an input, one answer for each of the three requests of a setup (the
    state record, descriptor array A, descriptor array B). *)
Record allocator := {
  grant_state : bool;
  grant_a : bool;
  grant_b : bool
}.

(** [heap_caps_malloc(size, MALLOC_CAP_DMA)] for a descriptor array: [size]
    is a byte count, a [size_t].  A granted request gives a new array with
    room for [size / sizeof(lldesc_t)] descriptors, holding whatever was in
    memory ([junk]).  A refused one gives [NULL], here a pointer to an array
    without elements: every access through it is out of bounds.  The caller
    does not test the result. *)
Definition heap_caps_malloc (h : gmap block (list lldesc_t)) (size : Z)
    (granted : bool) (junk : lldesc_t)
    : block * list lldesc_t * gmap block (list lldesc_t) :=
  let b := fresh (dom h) in
  let arr :=
    replicate (if granted then Z.to_nat (size / sizeof_lldesc_t) else 0%nat) junk in
  (b, arr, <[b := arr]> h).

Record i2s_parallel_config_t := {
  bufa : list i2s_parallel_buffer_desc_t;
  bufb : option (list i2s_parallel_buffer_desc_t)
}.

(** The state record comes from [malloc], whose result is not tested
    either: [st->desccount_a = ...] stores through it.  The byte counts
    [st->desccount_a * sizeof(lldesc_t)] are computed in [size_t] and
    wrap.  In single-buffer mode [dmadesc_b] is never assigned
    ([junk_b]). *)
Definition i2s_parallel_setup (m : driver) (dev : i2s_dev_t)
    (cfg : i2s_parallel_config_t) (al : allocator) (junk : lldesc_t) (junk_b : block)
    : outcome driver :=
  count_a ← calc_needed_dma_descs_for (bufa cfg);
  if negb (grant_state al) then Fault else
  let '(a, arr_a, h1) :=
    heap_caps_malloc (heap m) (wrap_uint32 (count_a * sizeof_lldesc_t)) (grant_a al) junk in
  ring_a ← fill_dma_desc a arr_a (bufa cfg);
  let h2 := <[a := ring_a]> h1 in
  match bufb cfg with
  | Some bufb =>
      count_b ← calc_needed_dma_descs_for bufb;
      let '(b, arr_b, h3) :=
        heap_caps_malloc h2 (wrap_uint32 (count_b * sizeof_lldesc_t)) (grant_b al) junk in
      ring_b ← fill_dma_desc b arr_b bufb;
      mret {| i2s_state :=
                <[i2snum dev := {| dmadesc_a := a; dmadesc_b := b;
                                   desccount_a := count_a;
                                   desccount_b := count_b |}]> (i2s_state m);
              heap := <[b := ring_b]> h3 |}
  | None =>
      mret {| i2s_state :=
                <[i2snum dev := {| dmadesc_a := a; dmadesc_b := junk_b;
                                   desccount_a := count_a;
                                   desccount_b := 0 |}]> (i2s_state m);
              heap := h2 |}
  end.

End I2SParallel.

Module AppMain.

Import I2SParallel.

Definition DISPLAY_WIDTH : Z := 128.
Definition DISPLAY_HEIGHT : Z := 32.

(** 64*32 RGB leds, 2 pixels per 16-bit value... *)
Definition BITPLANE_SZ : Z := DISPLAY_WIDTH * DISPLAY_HEIGHT / 2.

(** Meaning of the bits in a 16 bit DMA word. *)
Definition BIT_R1 : Z := Z.shiftl 1 0.
Definition BIT_G1 : Z := Z.shiftl 1 1.
Definition BIT_B1 : Z := Z.shiftl 1 2.
Definition BIT_R2 : Z := Z.shiftl 1 3.
Definition BIT_G2 : Z := Z.shiftl 1 4.
Definition BIT_B2 : Z := Z.shiftl 1 5.
Definition BIT_A : Z := Z.shiftl 1 8.
Definition BIT_B : Z := Z.shiftl 1 9.
Definition BIT_C : Z := Z.shiftl 1 10.
Definition BIT_D : Z := Z.shiftl 1 11.
Definition BIT_LAT : Z := Z.shiftl 1 12.
Definition BIT_OE : Z := Z.shiftl 1 13.

Definition byte_val (b : byte) : Z := Z.of_N (Byte.to_N b).

(** [framebuf] is an array of [DISPLAY_WIDTH * DISPLAY_HEIGHT * 3] bytes;
    [buf[i]] is read with a default, the indices used stay inside the array
    for [x < DISPLAY_WIDTH] and [y < DISPLAY_HEIGHT]. *)
Definition byte_at (buf : list byte) (i : Z) : Z :=
  byte_val (nth (Z.to_nat i) buf Byte.x00).

(** [getPixel]: the 8R8G8B pixel at [x], [y] in the lower 24 bits. *)
Definition getPixel (buf : list byte) (x y : Z) : Z :=
  let p := (x + y * DISPLAY_WIDTH) * 3 in
  Z.lor (Z.lor (Z.shiftl (byte_at buf p) 16) (Z.shiftl (byte_at buf (p + 1)) 8))
        (byte_at buf (p + 2)).

(** [v |= bit] under a C condition ([c] is nonzero). *)
Definition or_if (c : bool) (v bit : Z) : Z := if c then Z.lor v bit else v.

Definition nonzero (z : Z) : bool := negb (z =? 0).

Section Bitplanes.

(** The bit depth per subpixel, [7] in the source. *)
Variable BITPLANE_CNT : Z.

(** *** update_frame *)

(** "Precalculate line bits of the *previous* line": [y] is an
    [unsigned int], so [y - 1] wraps at [y = 0]. *)
Definition line_bits (y : Z) : Z :=
  let lbits := 0 in
  let lbits := or_if (nonzero (Z.land (wrap_uint32 (y - 1)) 1)) lbits BIT_A in
  let lbits := or_if (nonzero (Z.land (wrap_uint32 (y - 1)) 2)) lbits BIT_B in
  let lbits := or_if (nonzero (Z.land (wrap_uint32 (y - 1)) 4)) lbits BIT_C in
  let lbits := or_if (nonzero (Z.land (wrap_uint32 (y - 1)) 8)) lbits BIT_D in
  lbits.

(** The body of the innermost loop: the 16-bit word stored by [*p++=v]. *)
Definition pixel_word (framebuf : list byte) (brightness pl y x : Z) : Z :=
  let mask := Z.shiftl 1 (8 - BITPLANE_CNT + pl) in
  let v := line_bits y in
  let v := or_if (brightness <=? x) v BIT_OE in
  let v := or_if (x =? DISPLAY_WIDTH - 1) v BIT_LAT in
  let c1 := getPixel framebuf x y in
  let c2 := getPixel framebuf x (wrap_uint32 (y + 16)) in
  let v := or_if (nonzero (Z.land c1 (Z.shiftl mask 16))) v BIT_R1 in
  let v := or_if (nonzero (Z.land c1 (Z.shiftl mask 8))) v BIT_G1 in
  let v := or_if (nonzero (Z.land c1 (Z.shiftl mask 0))) v BIT_B1 in
  let v := or_if (nonzero (Z.land c2 (Z.shiftl mask 16))) v BIT_R2 in
  let v := or_if (nonzero (Z.land c2 (Z.shiftl mask 8))) v BIT_G2 in
  let v := or_if (nonzero (Z.land c2 (Z.shiftl mask 0))) v BIT_B2 in
  wrap_uint16 v.

(** The words of one bit-plane in the order the two inner loops store them
    through [p], from the start of the plane's buffer. *)
Definition plane_words (framebuf : list byte) (brightness pl : Z) : list Z :=
  y ← seqZ 0 16;
  x ← seqZ 0 DISPLAY_WIDTH;
  [pixel_word framebuf brightness pl y x].

(** The contents of the bit-plane buffers, [bitplane[slot][plane]]. What the
    three nested loops leave in memory: every plane of the back buffer
    holds the words just computed. *)
Definition write_planes (mem : gmap (Z * Z) (list Z)) (slot : Z)
    (framebuf : list byte) (brightness : Z) : gmap (Z * Z) (list Z) :=
  foldl (fun mem pl => <[(slot, pl) := plane_words framebuf brightness pl]> mem)
        mem (seqZ 0 BITPLANE_CNT).

(** The application's state: which buffer is the back buffer, the bit-plane
    buffers, and the driver. *)
Record app := {
  backbuf_id : Z;
  bitplane_mem : gmap (Z * Z) (list Z);
  drv : driver
}.

Definition update_frame (a : app) (framebuf : list byte) (brightness : Z)
    : outcome app :=
  let mem := write_planes (bitplane_mem a) (backbuf_id a) framebuf brightness in
  (* Show our work! *)
  d ← i2s_parallel_flip_to_buffer (drv a) I2S1 (backbuf_id a);
  mret {| backbuf_id := Z.lxor (backbuf_id a) 1; bitplane_mem := mem; drv := d |}.

(** *** app_main: binary time division setup *)

(** [times[j]] for [j] inside the array. *)
Definition time_of (times : list Z) (j : Z) : Z := times !!! Z.to_nat j.

(** "Find plane that needs insertion the most". *)
Definition choose (times : list Z) : Z :=
  foldl (fun ch j => if time_of times j <=? time_of times ch then j else ch)
        0 (seqZ 0 BITPLANE_CNT).

(** "Magic to make sure we choose this bitplane an appropriate time later
    next time". *)
Definition bump (times : list Z) (ch : Z) : list Z :=
  <[Z.to_nat ch := time_of times ch + Z.shiftl 1 (BITPLANE_CNT - ch)]> times.

(** [k] rounds of the outer loop from the counters [times]: the planes
    chosen, in order, and the counters afterwards. *)
Fixpoint plan (k : nat) (times : list Z) : list Z * list Z :=
  match k with
  | O => ([], times)
  | S k =>
      let ch := choose times in
      let '(order, times') := plan k (bump times ch) in
      (ch :: order, times')
  end.

Definition slots : nat := Z.to_nat (Z.shiftl 1 BITPLANE_CNT - 1).

Definition times0 : list Z := replicate (Z.to_nat BITPLANE_CNT) 0.

(** The "Bitplane order" that [app_main] prints. *)
Definition bitplane_order : list Z := fst (plan slots times0).

(** [bufdesc[j]]: one segment per slot, pointing at the chosen plane's
    buffer (at address [bitplane j ch]), then the end marker, whose [size]
    is never assigned ([junk]). *)
Definition bufdesc (bitplane : Z -> Z -> Z) (junk : Z) (j : Z)
    : list i2s_parallel_buffer_desc_t :=
  map (fun ch => {| memory := bitplane j ch; size := BITPLANE_SZ * 2 |}) bitplane_order
  ++ [{| memory := 0; size := junk |}].

(** [app_main] up to the end of the I2S setup: both descriptor lists go to
    the driver of [I2S1].  [bitplane j i] is the address of the buffer
    [bitplane[j][i]] (the allocation is asserted to succeed); nothing is set
    up before.  [al] holds the allocator's answers to the requests of the
    setup. *)
Definition app_main (bitplane : Z -> Z -> Z) (junk_size : Z) (al : allocator)
    (junk : lldesc_t) (junk_b : block) : outcome driver :=
  let cfg := {| bufa := bufdesc bitplane junk_size 0;
                bufb := Some (bufdesc bitplane junk_size 1) |} in
  i2s_parallel_setup {| i2s_state := ∅; heap := ∅ |} I2S1 cfg al junk junk_b.

End Bitplanes.

(** *** setPixel *)

(** Conversion to [uint8_t]: the low 8 bits. *)
Definition to_uint8 (z : Z) : byte :=
  default Byte.x00 (Byte.of_N (Z.to_N (z mod 256))).

(** [setPixel]: [x], [y] and [col] are [unsigned], so the index wraps; the
    three stores go through [p] into [framebuf] and fault outside it. *)
Definition setPixel (framebuf : list byte) (x y col : Z) : outcome (list byte) :=
  let p := wrap_uint32 ((x + y * DISPLAY_WIDTH) * 3) in
  framebuf ← store framebuf p (to_uint8 (Z.shiftr col 16));
  framebuf ← store framebuf (p + 1) (to_uint8 (Z.shiftr col 8));
  store framebuf (p + 2) (to_uint8 col).

Section TestPatterns.

Variable BITPLANE_CNT : Z.

(** *** tp_diagonal

    The test patterns paint [framebuf] and show it; [a] is the state
    [update_frame] works on. The delays are not modelled. *)
Definition tp_diagonal (a : app) (framebuf : list byte) (brightness : Z)
    : outcome (app * list byte) :=
  framebuf ←
    for_each (seqZ 0 DISPLAY_HEIGHT) (fun framebuf y =>
      for_each (seqZ 0 DISPLAY_WIDTH) (fun framebuf x =>
        setPixel framebuf x y
          (if wrap_uint32 (x - y) mod DISPLAY_HEIGHT =? 0
           then 0xFFFFFFFF else 0xFF000000))
        framebuf)
      framebuf;
  a ← update_frame BITPLANE_CNT a framebuf brightness;
  mret (a, framebuf).

(** *** tp_stripes

    [(var + offset) % width] divides by [width]; a division by zero is
    undefined, as an access out of bounds is, and is a [Fault] here. *)
Definition tp_stripes (a : app) (framebuf : list byte) (brightness : Z)
    (width offset : Z) (isY : bool) : outcome (app * list byte) :=
  framebuf ←
    for_each (seqZ 0 DISPLAY_HEIGHT) (fun framebuf y =>
      for_each (seqZ 0 DISPLAY_WIDTH) (fun framebuf x =>
        let var := if isY then x else y in
        if width =? 0 then Fault else
        let col := if wrap_uint32 (var + offset) mod width =? 0
                   then 0xFFFFFFFF else 0xFF000000 in
        setPixel framebuf x y col)
        framebuf)
      framebuf;
  a ← update_frame BITPLANE_CNT a framebuf brightness;
  mret (a, framebuf).

(** *** tp_stripes_sequence *)
Definition tp_stripes_sequence (a : app) (framebuf : list byte) (brightness : Z)
    (isY : bool) : outcome (app * list byte) :=
  s ← for_each (seqZ 0 8) (fun s i =>
         tp_stripes (fst s) (snd s) brightness 8 i isY) (a, framebuf);
  for_each (seqZ 0 4) (fun s i =>
    tp_stripes (fst s) (snd s) brightness 2 (i mod 2) isY) s.

(** *** tp_nyan

    [anim] is the table of animation frames of [anim.h], read here as the
    array of bytes the source indexes; a read outside it is a [Fault].
    [nyan_frame] is the body of the outer loop up to the frame update: the
    frame buffer is cleared and frame [i % 12] of the table is copied into
    it, moved [i] columns to the right. *)
Definition nyan_frame (anim : list byte) (i : Z) (framebuf : list byte)
    : outcome (list byte) :=
  let framebuf := replicate (length framebuf) Byte.x00 in
  let pix := wrap_uint32 (i mod 12 * 64 * 32 * 3) in
  for_each (seqZ 0 32) (fun framebuf y =>
    for_each (seqZ 0 64) (fun framebuf x =>
      let p := pix + wrap_uint32 ((x + y * 64) * 3) in
      p0 ← load anim p;
      p1 ← load anim (p + 1);
      p2 ← load anim (p + 2);
      let color :=
        Z.lor (Z.lor (Z.shiftl (byte_val p0) 16) (Z.shiftl (byte_val p1) 8))
              (byte_val p2) in
      setPixel framebuf (wrap_uint32 (x + i) mod DISPLAY_WIDTH) y color)
      framebuf)
    framebuf.

Definition tp_nyan (anim : list byte) (a : app) (framebuf : list byte)
    (brightness n_frames : Z) : outcome (app * list byte) :=
  for_each (seqZ 0 n_frames) (fun s i =>
    framebuf ← nyan_frame anim i (snd s);
    a ← update_frame BITPLANE_CNT (fst s) framebuf brightness;
    mret (a, framebuf))
    (a, framebuf).

(** *** app_main: the main loop

    [main_round] is the body of [while(1)], [main_loop] the first [rounds]
    rounds of the loop. *)
Definition main_round (anim : list byte) (brightness : Z) (s : app * list byte)
    : outcome (app * list byte) :=
  s ← tp_diagonal (fst s) (snd s) brightness;
  s ← tp_stripes_sequence (fst s) (snd s) brightness false;
  s ← tp_stripes_sequence (fst s) (snd s) brightness true;
  tp_nyan anim (fst s) (snd s) brightness 300.

Fixpoint main_loop (rounds : nat) (anim : list byte) (brightness : Z)
    (s : app * list byte) : outcome (app * list byte) :=
  match rounds with
  | O => Done s
  | S rounds =>
      s ← main_round anim brightness s;
      main_loop rounds anim brightness s
  end.

(** [app_main] as a whole, up to the end of round [rounds] of its loop.
    At the start [backbuf_id] is 0 and [framebuf], a global, is all zero;
    [mem] is what the newly allocated bit-plane buffers hold. *)
Definition app_main_run (bitplane : Z -> Z -> Z) (junk_size : Z) (al : allocator)
    (junk : lldesc_t) (junk_b : block) (mem : gmap (Z * Z) (list Z)) (anim : list byte)
    (brightness : Z) (rounds : nat) : outcome (app * list byte) :=
  d ← app_main BITPLANE_CNT bitplane junk_size al junk junk_b;
  main_loop rounds anim brightness
    ({| backbuf_id := 0; bitplane_mem := mem; drv := d |},
     replicate (Z.to_nat (DISPLAY_WIDTH * DISPLAY_HEIGHT * 3)) Byte.x00).

End TestPatterns.

End AppMain.

(** * Specification vocabulary *)

Import I2SParallel.
Import AppMain.

(** ** The descriptors the builder writes *)

(** Descriptors one segment of [len] bytes needs. *)
Definition descs_for (len : Z) : Z := (len + DMA_MAX - 1) / DMA_MAX.

(** What a freshly written descriptor at index [i] of allocation [b] looks
    like: linked to its successor in array order, a chunk of at most
    [DMA_MAX] bytes, owned by the hardware, no end-of-frame mark. *)
Record fresh_desc (b : block) (i : nat) (d : lldesc_t) : Prop := {
  fresh_next : stqe_next d = DescPtr b (Z.of_nat i + 1);
  fresh_length : 0 < ll_length d <= DMA_MAX;
  fresh_size : ll_size d = ll_length d;
  fresh_owner : ll_owner d = 1;
  fresh_eof : ll_eof d = 0;
  fresh_sosf : ll_sosf d = 0;
  fresh_offset : ll_offset d = 0
}.

Definition fresh_run (b : block) (n : nat) (ds : list lldesc_t) : Prop :=
  forall j d, ds !! j = Some d -> fresh_desc b (n + j) d.

Definition total_length (ds : list lldesc_t) : Z :=
  foldr (fun d acc => ll_length d + acc) 0 ds.

(** [arr] with the elements from index [n] on replaced by [ds]. *)
Definition splice (arr : list lldesc_t) (n : nat) (ds : list lldesc_t) : list lldesc_t :=
  take n arr ++ ds ++ drop (n + length ds) arr.

(** A segment as the driver can take it: a non-null address and a size that
    [int len = bufdesc[i].size] holds without change. *)
Definition segment_ok (d : i2s_parallel_buffer_desc_t) : Prop :=
  memory d <> 0 /\ 0 <= size d <= INT_MAX.

(** Sum over the segments of the per-segment descriptor count, and of the
    sizes. *)
Definition needed (segs : list i2s_parallel_buffer_desc_t) : Z :=
  foldr (fun d acc => descs_for (size d) + acc) 0 segs.

Definition total_size (segs : list i2s_parallel_buffer_desc_t) : Z :=
  foldr (fun d acc => size d + acc) 0 segs.

(** The end marker the application writes: [memory = NULL]. *)
Definition end_marker : i2s_parallel_buffer_desc_t := {| memory := 0; size := 0 |}.

(** A segment of [sz] bytes at address [addr]. *)
Definition segment (addr sz : Z) : i2s_parallel_buffer_desc_t :=
  {| memory := addr; size := sz |}.

(** ** Rings *)

(** The pointers to the [n] descriptors of the array in allocation [b]. *)
Definition ring_ptrs (b : block) (n : nat) : list desc_ptr :=
  (fun j => DescPtr b (Z.of_nat j)) <$> seq 0 n.

(** The next-reference stored in the descriptor [p] points to, for [p] a
    pointer to an element of the array [ring] in allocation [b]. *)
Definition next_of (b : block) (ring : list lldesc_t) (p : desc_ptr) : option desc_ptr :=
  if decide (p_block p = b) then
    if in_bounds ring (p_index p) then stqe_next <$> ring !! Z.to_nat (p_index p)
    else None
  else None.

(** Where [k] steps along the next-references lead from [p], and the [k]
    descriptors met on the way, [p] first. *)
Fixpoint follow (b : block) (ring : list lldesc_t) (k : nat) (p : desc_ptr)
    : option desc_ptr :=
  match k with
  | O => Some p
  | S k => q ← next_of b ring p; follow b ring k q
  end.

Fixpoint visit (b : block) (ring : list lldesc_t) (k : nat) (p : desc_ptr)
    : option (list desc_ptr) :=
  match k with
  | O => Some []
  | S k => q ← next_of b ring p; (p ::.) <$> visit b ring k q
  end.

(** Each descriptor but the last is linked to the one at the following
    index, the last one to the first. *)
Definition linked_in_order (b : block) (ring : list lldesc_t) : Prop :=
  forall i d, ring !! i = Some d -> (S i < length ring)%nat ->
    stqe_next d = DescPtr b (Z.of_nat (S i)).

Definition last_to_first (b : block) (ring : list lldesc_t) : Prop :=
  exists d, ring !! (length ring - 1)%nat = Some d /\ stqe_next d = DescPtr b 0.

(** From every descriptor, following the next-references passes through
    every descriptor of the ring once and is back at the start after
    [length ring] steps, not earlier. *)
Definition closed_cycle (b : block) (ring : list lldesc_t) : Prop :=
  forall i, (i < length ring)%nat ->
    let start := DescPtr b (Z.of_nat i) in
    follow b ring (length ring) start = Some start /\
    (forall k, (0 < k < length ring)%nat -> follow b ring k start <> Some start) /\
    exists vs, visit b ring (length ring) start = Some vs /\
               vs ≡ₚ ring_ptrs b (length ring).

(** ** Driver states *)

(** The driver of [dev] is set up for double buffering: its state is
    allocated, both descriptor arrays are on the heap with the lengths the
    state records, and both lengths are positive. *)
Definition double_buffered (m : driver) (dev : i2s_dev_t) (st : i2s_parallel_state_t) : Prop :=
  i2s_state m !! i2snum dev = Some st /\
  0 < desccount_a st /\ 0 < desccount_b st /\
  (exists ra, heap m !! dmadesc_a st = Some ra /\ Z.of_nat (length ra) = desccount_a st) /\
  (exists rb, heap m !! dmadesc_b st = Some rb /\ Z.of_nat (length rb) = desccount_b st).

(** The next-reference of the last of the [count] descriptors of the array
    at [p]. *)
Definition tail_next (m : driver) (p : block) (count : Z) : option desc_ptr :=
  arr ← heap m !! p; stqe_next <$> arr !! Z.to_nat (count - 1).

(** The head (index 0) of the ring that slot id [s] selects: ring A for 0,
    ring B for any other value. *)
Definition selected_head (st : i2s_parallel_state_t) (s : Z) : desc_ptr :=
  DescPtr (if s =? 0 then dmadesc_a st else dmadesc_b st) 0.

(** A ring of the driver: the array at [p] has [count] descriptors and is a
    closed cycle. *)
Definition ring_built (m : driver) (p : block) (count : Z) : Prop :=
  exists ring,
    heap m !! p = Some ring /\ Z.of_nat (length ring) = count /\
    linked_in_order p ring /\ last_to_first p ring /\ closed_cycle p ring.

(** A small double-buffered state: ring A of two descriptors in allocation
    0, ring B of one descriptor in allocation 1, each closed on itself. *)
Definition sample_desc (next : desc_ptr) : lldesc_t :=
  {| ll_size := 4; ll_length := 4; ll_offset := 0; ll_sosf := 0; ll_eof := 0;
     ll_owner := 1; ll_buf := 4096; stqe_next := next |}.

Definition sample_state : i2s_parallel_state_t :=
  {| dmadesc_a := 0%nat; dmadesc_b := 1%nat; desccount_a := 2; desccount_b := 1 |}.

Definition sample_driver : driver :=
  {| i2s_state := {[ 1%nat := sample_state ]};
     heap := {[ 0%nat := [sample_desc (DescPtr 0%nat 1); sample_desc (DescPtr 0%nat 0)];
                1%nat := [sample_desc (DescPtr 1%nat 0)] ]} |}.

(** ** Output words *)

(** An all-black frame buffer of the full size. *)
Definition black_frame : list byte :=
  replicate (Z.to_nat (DISPLAY_WIDTH * DISPLAY_HEIGHT * 3)) Byte.x00.

(** The row address an output word carries on the lines A (lowest bit) to
    D. *)
Definition row_address (w : Z) : Z := Z.land (Z.shiftr w 8) 15.

(** The word at plane [pl], row [y], column [x] of the slot written. *)
Definition word_at (mem : gmap (Z * Z) (list Z)) (slot pl y x : Z) : option Z :=
  buf ← mem !! (slot, pl); buf !! Z.to_nat (y * DISPLAY_WIDTH + x).

(** ** Plane shares *)

(** Sums over the plane indices [0 .. n-1]. *)
Fixpoint sum_to (n : nat) (f : Z -> Z) : Z :=
  match n with
  | O => 0
  | S n => sum_to n f + f (Z.of_nat n)
  end.

(** How often plane [p] occurs in an ordering. *)
Definition occurrences (p : Z) (order : list Z) : Z :=
  Z.of_nat (count_occ Z.eq_dec order p).

(** The counters are the number of placements so far, scaled: plane [j]
    placed [c j] times has counter [c j * 2 ^ (B - j)], and never more than
    [2 ^ j] placements. *)
Definition counted (B : Z) (times : list Z) (c : Z -> Z) : Prop :=
  length times = Z.to_nat B /\
  forall j, 0 <= j < B ->
    time_of times j = c j * 2 ^ (B - j) /\ 0 <= c j <= 2 ^ j.

(** A frame that differs from the black one in the low bit of its first
    byte only. *)
Definition nearly_black_frame : list byte := <[0%nat := Byte.x01]> black_frame.

(** ** Brightness over one lap *)

(** The source byte behind data bit [k] of an output word: bits 0, 1, 2 are
    red, green, blue of the pixel at [x], [y], bits 3, 4, 5 those of the
    pixel half a panel further down. *)
Definition channel_at (framebuf : list byte) (x y k : Z) : Z :=
  byte_at framebuf ((x + (y + DISPLAY_HEIGHT / 2 * (k / 3)) * DISPLAY_WIDTH) * 3 + k mod 3).

(** In how many slots of an ordering bit [k] of the word shown is set,
    [word ch] being the word of plane [ch]. *)
Definition lit_slots (order : list Z) (word : Z -> Z) (k : Z) : Z :=
  foldr (fun ch acc => Z.b2z (Z.testbit (word ch) k) + acc) 0 order.

(** ** Walking the rings on the heap *)

(** The next-reference stored in the descriptor [p] points to, read from
    the heap; and where [k] steps along the next-references lead, across
    rings. *)
Definition heap_next (h : gmap block (list lldesc_t)) (p : desc_ptr) : option desc_ptr :=
  arr ← h !! p_block p;
  if in_bounds arr (p_index p) then stqe_next <$> arr !! Z.to_nat (p_index p) else None.

Fixpoint heap_follow (h : gmap block (list lldesc_t)) (k : nat) (p : desc_ptr)
    : option desc_ptr :=
  match k with
  | O => Some p
  | S k => q ← heap_next h p; heap_follow h k q
  end.

(** Both rings of a double-buffered driver are in arrays of their own and
    linked in array order up to their tails. *)
Definition chained (m : driver) (dev : i2s_dev_t) (st : i2s_parallel_state_t) : Prop :=
  double_buffered m dev st /\
  dmadesc_a st <> dmadesc_b st /\
  (exists ra, heap m !! dmadesc_a st = Some ra /\ linked_in_order (dmadesc_a st) ra) /\
  (exists rb, heap m !! dmadesc_b st = Some rb /\ linked_in_order (dmadesc_b st) rb).

(** ** The layout of a ring *)

(** The chunks a segment of [sz] bytes at [addr] is cut into: chunk [k]
    starts [k * DMA_MAX] bytes into the segment and takes what is left of
    it, at most [DMA_MAX] bytes. *)
Definition chunks_of (addr sz : Z) : list (Z * Z) :=
  (fun k => (addr + k * DMA_MAX, Z.min DMA_MAX (sz - k * DMA_MAX))) <$> seqZ 0 (descs_for sz).

(** The chunks of a list of segments, segment after segment. *)
Definition layout (segs : list i2s_parallel_buffer_desc_t) : list (Z * Z) :=
  segs ≫= fun d => chunks_of (memory d) (size d).

(** Start address and length of the chunk a descriptor stands for. *)
Definition chunk (d : lldesc_t) : Z * Z := (ll_buf d, ll_length d).

(** A segment that lies in the 32-bit address space. *)
Definition in_address_space (d : i2s_parallel_buffer_desc_t) : Prop :=
  0 <= memory d /\ memory d + size d <= 2 ^ 32.

(** ** Painting the frame buffer *)

(** The size of [framebuf], in bytes. *)
Definition framebuf_bytes : Z := DISPLAY_WIDTH * DISPLAY_HEIGHT * 3.

(** A pixel of the frame. *)
Definition in_frame (x y : Z) : Prop :=
  0 <= x < DISPLAY_WIDTH /\ 0 <= y < DISPLAY_HEIGHT.

(** A list of pixel writes [(x, y, col)], and the colour the last write to
    [(x, y)] gave it, if any. *)
Fixpoint painted (writes : list (Z * Z * Z)) (x y : Z) : option Z :=
  match writes with
  | [] => None
  | (x', y', col) :: writes =>
      match painted writes x y with
      | Some c => Some c
      | None => if (x' =? x) && (y' =? y) then Some col else None
      end
  end.

(** Pixel [(x, y)] of frame [k] of an animation table of 64 x 32 pixel
    frames. *)
Definition anim_pixel (anim : list byte) (k x y : Z) : Z :=
  let p := k * 64 * 32 * 3 + (x + y * 64) * 3 in
  Z.lor (Z.lor (Z.shiftl (byte_at anim p) 16) (Z.shiftl (byte_at anim (p + 1)) 8))
        (byte_at anim (p + 2)).

(** An animation table of twelve all-white frames. *)
Definition sample_anim : list byte :=
  replicate (Z.to_nat (12 * (64 * 32 * 3))) Byte.xff.

(** ** The allocator *)

(** The allocator grants every request of a setup. *)
Definition grants_all (al : allocator) : Prop :=
  grant_state al = true /\ grant_a al = true /\ grant_b al = true.

(** The byte count of an array of [count] descriptors fits [size_t]. *)
Definition fits_size_t (count : Z) : Prop := count * sizeof_lldesc_t < 2 ^ 32.

Definition sample_allocator : allocator :=
  {| grant_state := true; grant_a := true; grant_b := true |}.

(** ** The bit-plane buffers *)

(** The bit-plane buffers are there as [app_main] allocates them: for both
    slots and every plane a buffer of [BITPLANE_SZ] words
    ([BITPLANE_SZ * 2] bytes). *)
Definition planes_allocated (B : Z) (mem : gmap (Z * Z) (list Z)) : Prop :=
  forall j i, 0 <= j < 2 -> 0 <= i < B ->
    exists buf, mem !! (j, i) = Some buf /\ Z.of_nat (length buf) = BITPLANE_SZ.

(** Bit-plane buffers for [B] planes, holding zeros. *)
Definition sample_planes (B : Z) : gmap (Z * Z) (list Z) :=
  list_to_map (j ← [0; 1]; i ← seqZ 0 B; [((j, i), replicate (Z.to_nat BITPLANE_SZ) 0)]).

(** ** A coloured frame *)

(** A frame whose upper half is of one colour (red 128, green 64, blue
    200) and whose lower half of another (red 1, green 255, blue 32). *)
Definition sample_frame : list byte :=
  mjoin (replicate (Z.to_nat (DISPLAY_WIDTH * (DISPLAY_HEIGHT / 2)))
           [Byte.x80; Byte.x40; Byte.xc8])
  ++ mjoin (replicate (Z.to_nat (DISPLAY_WIDTH * (DISPLAY_HEIGHT / 2)))
              [Byte.x01; Byte.xff; Byte.x20]).

(** * Properties *)

(** ** Integer helpers *)

Lemma wrap_uint32_small z : 0 <= z < 2 ^ 32 -> wrap_uint32 z = z.
Proof. intros H. unfold wrap_uint32. apply Z.mod_small. exact H. Qed.

Lemma wrap_int32_small z : - 2 ^ 31 <= z <= INT_MAX -> wrap_int32 z = z.
Proof.
  unfold wrap_int32, INT_MAX. intros H.
  rewrite Z.mod_small; lia.
Qed.

Lemma bitfield_small w v : 0 <= w -> 0 <= v < 2 ^ w -> bitfield w v = v.
Proof.
  intros Hw Hv. unfold bitfield.
  rewrite Z.land_ones by exact Hw. apply Z.mod_small. exact Hv.
Qed.

(** ** The descriptor chain builder *)

Lemma descs_for_0 : descs_for 0 = 0.
Proof. reflexivity. Qed.

Lemma descs_for_small len : 0 < len <= DMA_MAX -> descs_for len = 1.
Proof.
  intros H. unfold descs_for.
  replace (len + DMA_MAX - 1) with ((len - 1) + 1 * DMA_MAX) by lia.
  rewrite Z.div_add by (unfold DMA_MAX; lia).
  rewrite Z.div_small by lia. reflexivity.
Qed.

Lemma descs_for_big len : DMA_MAX < len -> descs_for len = descs_for (len - DMA_MAX) + 1.
Proof.
  intros H. unfold descs_for.
  replace (len + DMA_MAX - 1) with ((len - DMA_MAX + DMA_MAX - 1) + 1 * DMA_MAX) by lia.
  rewrite Z.div_add by (unfold DMA_MAX; lia). reflexivity.
Qed.

Lemma descs_for_nonneg len : 0 <= len -> 0 <= descs_for len.
Proof.
  intros H. unfold descs_for. apply Z.div_pos; unfold DMA_MAX; lia.
Qed.

Lemma descs_for_pos len : 0 < len -> 0 < descs_for len.
Proof.
  intros H. unfold descs_for.
  apply Z.div_str_pos. unfold DMA_MAX. lia.
Qed.

(** [descs_for len] is [len / DMA_MAX] rounded up. *)
Lemma descs_for_is_ceiling len :
  0 <= len ->
  DMA_MAX * (descs_for len - 1) < len <= DMA_MAX * descs_for len.
Proof.
  intros H. unfold descs_for.
  pose proof (Z.div_mod (len + DMA_MAX - 1) DMA_MAX ltac:(unfold DMA_MAX; lia)) as Hdm.
  pose proof (Z.mod_pos_bound (len + DMA_MAX - 1) DMA_MAX ltac:(unfold DMA_MAX; lia)) as Hr.
  lia.
Qed.

Lemma descs_for_le len : 0 <= len -> descs_for len <= len.
Proof.
  intros H. unfold descs_for.
  destruct (Z.eq_dec len 0) as [-> | Hne]; [reflexivity |].
  apply Z.div_le_upper_bound; unfold DMA_MAX; lia.
Qed.

Lemma fresh_run_nil b n : fresh_run b n [].
Proof. intros j d H. rewrite lookup_nil in H. discriminate. Qed.

Lemma fresh_run_cons b n d ds :
  fresh_desc b n d -> fresh_run b (S n) ds -> fresh_run b n (d :: ds).
Proof.
  intros Hd Hds [| j] x Hx; simpl in Hx.
  - injection Hx as <-. rewrite Nat.add_0_r. exact Hd.
  - replace (n + S j)%nat with (S n + j)%nat by lia. apply Hds. exact Hx.
Qed.

Lemma fresh_run_app b n ds1 ds2 :
  fresh_run b n ds1 -> fresh_run b (n + length ds1) ds2 -> fresh_run b n (ds1 ++ ds2).
Proof.
  intros H1 H2 j d Hj.
  apply lookup_app_Some in Hj as [Hj | [Hle Hj]].
  - apply H1. exact Hj.
  - replace (n + j)%nat with (n + length ds1 + (j - length ds1))%nat by lia.
    apply H2. exact Hj.
Qed.

Lemma total_length_app ds1 ds2 :
  total_length (ds1 ++ ds2) = total_length ds1 + total_length ds2.
Proof.
  unfold total_length. induction ds1 as [| d ds1 IH]; simpl; [reflexivity |].
  rewrite IH. lia.
Qed.

Lemma splice_nil arr n : splice arr n [] = arr.
Proof.
  unfold splice. simpl. rewrite Nat.add_0_r. apply take_drop.
Qed.

Lemma splice_cons arr n d ds :
  (n < length arr)%nat ->
  splice (<[n := d]> arr) (S n) ds = splice arr n (d :: ds).
Proof.
  intros Hn. unfold splice.
  rewrite (take_S_r _ n d) by (apply list_lookup_insert_eq; exact Hn).
  rewrite take_insert_ge by lia.
  rewrite drop_insert_lt by lia.
  rewrite <- app_assoc. simpl.
  replace (n + S (length ds))%nat with (S n + length ds)%nat by lia.
  reflexivity.
Qed.

Lemma splice_app arr n ds1 ds2 :
  (n + length ds1 <= length arr)%nat ->
  splice (splice arr n ds1) (n + length ds1) ds2 = splice arr n (ds1 ++ ds2).
Proof.
  intros Hn. unfold splice.
  assert (length (take n arr ++ ds1) = (n + length ds1)%nat) as Hlen
    by (rewrite length_app, length_take_le; lia).
  rewrite (app_assoc (take n arr) ds1).
  rewrite (take_app_length' (take n arr ++ ds1)) by (symmetry; exact Hlen).
  rewrite (drop_app_add' (take n arr ++ ds1)) by (symmetry; exact Hlen).
  rewrite drop_drop, length_app.
  rewrite <- !app_assoc, Nat.add_assoc. reflexivity.
Qed.

Lemma splice_length arr n ds :
  (n + length ds <= length arr)%nat -> length (splice arr n ds) = length arr.
Proof.
  intros H. unfold splice.
  rewrite !length_app, length_take_le, length_drop by lia. lia.
Qed.

Lemma splice_all arr ds : length arr = length ds -> splice arr 0 ds = ds.
Proof.
  intros H. unfold splice. simpl.
  rewrite drop_ge by lia. apply app_nil_r.
Qed.

(** One round of the [while] loop, as an equation. *)
Lemma fill_while_unfold b len data n arr :
  fill_while b len data n arr =
  if len =? 0 then Done (n, arr)
  else
    let dmalen := if DMA_MAX <? len then DMA_MAX else len in
    arr' ← store arr n
             {| ll_size := bitfield 12 dmalen;
                ll_length := bitfield 12 dmalen;
                ll_buf := data;
                ll_eof := 0;
                ll_sosf := 0;
                ll_owner := 1;
                stqe_next := DescPtr b (n + 1);
                ll_offset := 0 |};
    fill_while b (len - dmalen) (wrap_uint32 (data + dmalen)) (n + 1) arr'.
Proof.
  simp fill_while.
  destruct (Z.eq_dec len 0) as [-> | Hne]; simpl.
  - reflexivity.
  - rewrite (proj2 (Z.eqb_neq len 0) Hne). reflexivity.
Qed.

Lemma store_in_bounds {A} (a : list A) (n : nat) (x : A) :
  (n < length a)%nat -> store a (Z.of_nat n) x = Done (<[n := x]> a).
Proof.
  intros H. unfold store, in_bounds.
  rewrite (proj2 (Z.leb_le 0 _)) by lia.
  rewrite (proj2 (Z.ltb_lt _ _)) by lia.
  simpl. rewrite Nat2Z.id. reflexivity.
Qed.

(** The [while] loop on a segment of [len] bytes, [0 <= len]: it writes
    [descs_for len] fresh descriptors from index [n] on, whose lengths add up
    to [len], whatever the array held before. *)
Lemma fill_while_spec b len :
  0 <= len ->
  forall data n, exists news,
    length news = Z.to_nat (descs_for len) /\
    fresh_run b n news /\
    total_length news = len /\
    forall arr, (n + length news <= length arr)%nat ->
      fill_while b len data (Z.of_nat n) arr
      = Done (Z.of_nat (n + length news), splice arr n news).
Proof.
  intros Hlen. pattern len. apply Zlt_0_ind; [| exact Hlen].
  clear len Hlen. intros len IH Hlen data n.
  destruct (Z.eq_dec len 0) as [-> | Hne].
  - exists []. split; [reflexivity |]. split; [apply fresh_run_nil |].
    split; [reflexivity |].
    intros arr _. rewrite fill_while_unfold. simpl.
    rewrite Nat.add_0_r, splice_nil. reflexivity.
  - set (dmalen := if DMA_MAX <? len then DMA_MAX else len).
    assert (0 < dmalen <= DMA_MAX /\ 0 <= len - dmalen < len /\
            descs_for len = descs_for (len - dmalen) + 1) as (Hd & Hrest & Hcnt).
    { subst dmalen. destruct (Z.ltb_spec DMA_MAX len) as [Hbig | Hsmall].
      - split; [unfold DMA_MAX; lia |]. split; [unfold DMA_MAX in *; lia |].
        apply descs_for_big. exact Hbig.
      - split; [lia |]. split; [lia |].
        rewrite Z.sub_diag, descs_for_0. apply descs_for_small. lia. }
    destruct (IH (len - dmalen) Hrest (wrap_uint32 (data + dmalen)) (S n))
      as (news & Hlen' & Hfresh & Htotal & Hrun).
    set (d := {| ll_size := bitfield 12 dmalen;
                 ll_length := bitfield 12 dmalen;
                 ll_buf := data;
                 ll_eof := 0;
                 ll_sosf := 0;
                 ll_owner := 1;
                 stqe_next := DescPtr b (Z.of_nat n + 1);
                 ll_offset := 0 |}).
    assert (bitfield 12 dmalen = dmalen) as Hbits
      by (apply bitfield_small; unfold DMA_MAX in *; lia).
    exists (d :: news). split; [| split; [| split]].
    + simpl. rewrite Hlen', Hcnt.
      pose proof (descs_for_nonneg (len - dmalen) (proj1 Hrest)). lia.
    + apply fresh_run_cons; [| exact Hfresh].
      subst d. constructor; simpl; rewrite ?Hbits; try reflexivity. exact Hd.
    + unfold total_length in *. simpl. rewrite Htotal, Hbits. lia.
    + intros arr Harr. simpl in Harr.
      rewrite fill_while_unfold.
      rewrite (proj2 (Z.eqb_neq len 0) Hne).
      cbv zeta. fold dmalen. fold d.
      rewrite store_in_bounds by lia.
      change (Done (<[n:=d]> arr) ≫= ?k) with (k (<[n:=d]> arr)).
      cbv beta.
      replace (Z.of_nat n + 1) with (Z.of_nat (S n)) by lia.
      rewrite Hrun by (rewrite length_insert; lia).
      rewrite splice_cons by lia.
      do 2 f_equal. simpl. lia.
Qed.

Lemma needed_nonneg segs : Forall segment_ok segs -> 0 <= needed segs.
Proof.
  induction 1 as [| d segs [_ Hd] _ IH]; simpl; [lia |].
  pose proof (descs_for_nonneg (size d) (proj1 Hd)). lia.
Qed.

Lemma needed_pos segs :
  Forall segment_ok segs -> Exists (fun d => size d <> 0) segs -> 0 < needed segs.
Proof.
  intros Hok Hex. induction Hok as [| d segs [Hm Hd] Hok IH]; simpl.
  - inversion Hex.
  - pose proof (needed_nonneg segs Hok).
    pose proof (descs_for_nonneg (size d) (proj1 Hd)).
    inversion Hex as [? ? Hnz | ? ? Hrest]; subst.
    + pose proof (descs_for_pos (size d)). lia.
    + specialize (IH Hrest). lia.
Qed.

(** The counting pass stops at the end marker and returns the sum of the
    per-segment counts. *)
Lemma calc_loop_spec segs : forall ret s post,
  Forall segment_ok segs -> memory s = 0 ->
  0 <= ret -> ret + needed segs <= INT_MAX ->
  calc_loop (segs ++ s :: post) ret = Done (ret + needed segs).
Proof.
  induction segs as [| d segs IH]; intros ret s post Hok Hs Hret Hmax; simpl.
  - rewrite Hs. simpl. f_equal. lia.
  - inversion Hok as [| ? ? [Hm Hd] Hok']; subst.
    rewrite (proj2 (Z.eqb_neq _ 0) Hm).
    pose proof (needed_nonneg segs Hok') as Hn.
    pose proof (descs_for_nonneg (size d) (proj1 Hd)) as Hk.
    simpl in Hmax. unfold INT_MAX in *.
    rewrite (wrap_uint32_small (size d)) by lia.
    rewrite (wrap_uint32_small (size d + DMA_MAX - 1)) by (unfold DMA_MAX; lia).
    rewrite (wrap_uint32_small ret) by lia.
    fold (descs_for (size d)).
    rewrite (wrap_uint32_small (ret + descs_for (size d))) by lia.
    rewrite wrap_int32_small by (unfold INT_MAX; lia).
    rewrite IH by (try assumption; lia).
    f_equal. lia.
Qed.

(** The two fill loops: the descriptors written depend on the segments only,
    not on what follows the end marker nor on the array's old contents. *)
Lemma fill_for_spec b segs :
  Forall segment_ok segs ->
  forall n, exists news,
    length news = Z.to_nat (needed segs) /\
    fresh_run b n news /\
    total_length news = total_size segs /\
    forall s post arr, memory s = 0 -> (n + length news <= length arr)%nat ->
      fill_for b (segs ++ s :: post) (Z.of_nat n) arr
      = Done (Z.of_nat (n + length news), splice arr n news).
Proof.
  induction 1 as [| d segs [Hm Hd] Hok IH]; intros n.
  - exists []. split; [reflexivity |]. split; [apply fresh_run_nil |].
    split; [reflexivity |].
    intros s post arr Hs _. simpl. rewrite Hs. simpl.
    rewrite Nat.add_0_r, splice_nil. reflexivity.
  - destruct (fill_while_spec b (size d) (proj1 Hd) (memory d) n)
      as (news1 & Hlen1 & Hfresh1 & Htot1 & Hrun1).
    destruct (IH (n + length news1)%nat) as (news2 & Hlen2 & Hfresh2 & Htot2 & Hrun2).
    pose proof (needed_nonneg segs Hok) as Hn.
    pose proof (descs_for_nonneg (size d) (proj1 Hd)) as Hk.
    exists (news1 ++ news2). split; [| split; [| split]].
    + rewrite length_app, Hlen1, Hlen2. simpl. lia.
    + apply fresh_run_app; assumption.
    + rewrite total_length_app, Htot1, Htot2. reflexivity.
    + intros s post arr Hs Harr. rewrite length_app in Harr.
      simpl. rewrite (proj2 (Z.eqb_neq _ 0) Hm).
      rewrite wrap_int32_small by (unfold INT_MAX in *; lia).
      rewrite Hrun1 by lia.
      change (Done ?x ≫= ?k) with (k x). cbv beta iota.
      rewrite (Hrun2 s post) by (try assumption; rewrite splice_length; lia).
      rewrite splice_app by lia.
      rewrite length_app, Nat.add_assoc. reflexivity.
Qed.

(** An access that returns was inside the array. *)
Lemma store_done_within {A} (a a' : list A) (n : Z) (x : A) :
  store a n x = Done a' -> 0 <= n < Z.of_nat (length a).
Proof.
  unfold store, in_bounds. intros H.
  destruct (Z.leb_spec 0 n); destruct (Z.ltb_spec n (Z.of_nat (length a)));
    simpl in H; try discriminate. lia.
Qed.

Lemma load_done_within {A} (a : list A) (n : Z) (x : A) :
  load a n = Done x -> 0 <= n < Z.of_nat (length a).
Proof.
  unfold load, in_bounds. intros H.
  destruct (Z.leb_spec 0 n); destruct (Z.ltb_spec n (Z.of_nat (length a)));
    simpl in H; try discriminate. lia.
Qed.

Lemma store_past_end {A} (a : list A) (n : nat) (x : A) :
  (length a <= n)%nat -> store a (Z.of_nat n) x = Fault.
Proof.
  intros H. unfold store, in_bounds.
  rewrite (proj2 (Z.ltb_ge _ _)) by lia. rewrite andb_false_r. reflexivity.
Qed.

(** On an array too short for the descriptors of a segment the [while]
    loop runs off its end. *)
Lemma fill_while_short b len :
  0 <= len ->
  forall data n arr,
    (n <= length arr)%nat -> Z.of_nat (length arr) < Z.of_nat n + descs_for len ->
    fill_while b len data (Z.of_nat n) arr = Fault.
Proof.
  intros Hlen. pattern len. apply Zlt_0_ind; [| exact Hlen].
  clear len Hlen. intros len IH Hlen data n arr Hn Hshort.
  destruct (Z.eq_dec len 0) as [-> | Hne]; [rewrite descs_for_0 in Hshort; lia |].
  rewrite fill_while_unfold, (proj2 (Z.eqb_neq len 0) Hne). cbv zeta.
  set (dmalen := if DMA_MAX <? len then DMA_MAX else len).
  assert (0 <= len - dmalen < len /\
          descs_for len = descs_for (len - dmalen) + 1) as (Hrest & Hcnt).
  { subst dmalen. destruct (Z.ltb_spec DMA_MAX len) as [Hbig | Hsmall].
    - split; [unfold DMA_MAX in *; lia | apply descs_for_big; exact Hbig].
    - split; [lia |]. rewrite Z.sub_diag, descs_for_0. apply descs_for_small. lia. }
  destruct (decide (n < length arr)%nat) as [Hin | Hout].
  - rewrite store_in_bounds by exact Hin.
    change (Done ?x ≫= ?k) with (k x). cbv beta.
    replace (Z.of_nat n + 1) with (Z.of_nat (S n)) by lia.
    apply (IH (len - dmalen) Hrest); rewrite length_insert; lia.
  - rewrite store_past_end by lia. reflexivity.
Qed.

Lemma fill_for_short b segs :
  Forall segment_ok segs ->
  forall n s post arr,
    (n <= length arr)%nat -> Z.of_nat (length arr) < Z.of_nat n + needed segs ->
    fill_for b (segs ++ s :: post) (Z.of_nat n) arr = Fault.
Proof.
  induction 1 as [| d segs [Hm Hd] Hok IH]; intros n s post arr Hn Hshort.
  - simpl in Hshort. lia.
  - simpl. rewrite (proj2 (Z.eqb_neq _ 0) Hm).
    rewrite wrap_int32_small by (unfold INT_MAX in *; lia).
    cbn [needed foldr] in Hshort. fold (needed segs) in Hshort.
    destruct (Z_lt_le_dec (Z.of_nat (length arr)) (Z.of_nat n + descs_for (size d)))
      as [Hfirst | Hfits].
    + rewrite fill_while_short by (try assumption; lia). reflexivity.
    + destruct (fill_while_spec b (size d) (proj1 Hd) (memory d) n)
        as (news & Hlen & _ & _ & Hrun).
      pose proof (descs_for_nonneg (size d) (proj1 Hd)) as Hk.
      rewrite Hrun by lia.
      change (Done ?x ≫= ?k) with (k x). cbv beta iota.
      apply IH; rewrite splice_length by lia; lia.
Qed.

(** An array shorter than the count is too short for the fill pass. *)
Lemma fill_dma_desc_short b segs s post arr :
  Forall segment_ok segs ->
  Z.of_nat (length arr) < needed segs ->
  fill_dma_desc b arr (segs ++ s :: post) = Fault.
Proof.
  intros Hok Hshort. unfold fill_dma_desc.
  change 0 with (Z.of_nat 0).
  rewrite fill_for_short by (try assumption; simpl; lia). reflexivity.
Qed.

Lemma update_in_bounds {A} (a : list A) (n : nat) (x : A) (f : A -> A) :
  a !! n = Some x -> update a (Z.of_nat n) f = Done (<[n := f x]> a).
Proof.
  intros Hx. pose proof (lookup_lt_Some _ _ _ Hx) as Hn.
  unfold update, load, in_bounds.
  rewrite (proj2 (Z.leb_le 0 _)) by lia.
  rewrite (proj2 (Z.ltb_lt _ _)) by lia.
  simpl. rewrite Nat2Z.id, Hx.
  change (Done x ≫= ?k) with (k x). cbv beta.
  apply store_in_bounds. exact Hn.
Qed.

Lemma update_out_of_bounds {A} (a : list A) (n : Z) (f : A -> A) :
  n < 0 -> update a n f = Fault.
Proof.
  intros Hn. unfold update, load, in_bounds.
  rewrite (proj2 (Z.leb_gt 0 n)) by lia. reflexivity.
Qed.

(** The descriptors of a ring are pairwise distinct: in a list that is a
    permutation of [ring_ptrs], each of them stands exactly once. *)
Lemma ring_ptrs_NoDup b n : NoDup (ring_ptrs b n).
Proof.
  unfold ring_ptrs. apply NoDup_fmap_2; [| apply NoDup_seq].
  intros i j Heq. injection Heq as Heq. lia.
Qed.

Section Ring.

Variable b : block.
Variable ring : list lldesc_t.
Hypothesis Hlinked : linked_in_order b ring.
Hypothesis Hlast : last_to_first b ring.

Let N := length ring.

Lemma ring_nonempty : (0 < N)%nat.
Proof.
  destruct Hlast as (d & Hd & _). apply lookup_lt_Some in Hd. subst N. lia.
Qed.

Lemma next_of_index i :
  (i < N)%nat ->
  next_of b ring (DescPtr b (Z.of_nat i)) = Some (DescPtr b (Z.of_nat ((i + 1) mod N))).
Proof.
  intros Hi. unfold next_of. simpl.
  rewrite decide_True by reflexivity.
  unfold in_bounds.
  rewrite (proj2 (Z.leb_le 0 _)) by lia.
  rewrite (proj2 (Z.ltb_lt _ _)) by (subst N; lia).
  simpl. rewrite Nat2Z.id.
  destruct (lookup_lt_is_Some_2 ring i Hi) as [d Hd].
  rewrite Hd. simpl. f_equal.
  destruct (decide (S i < N)%nat) as [Hlt | Hge].
  - rewrite (Hlinked i d Hd Hlt).
    rewrite Nat.mod_small by lia. do 2 f_equal. lia.
  - assert (i = (N - 1)%nat) as -> by lia.
    destruct Hlast as (d' & Hd' & Hnext). fold N in Hd'.
    rewrite Hd in Hd'. injection Hd' as <-.
    rewrite Hnext.
    replace (N - 1 + 1)%nat with N by lia.
    rewrite Nat.Div0.mod_same. reflexivity.
Qed.

Lemma follow_index k : forall i,
  (i < N)%nat ->
  follow b ring k (DescPtr b (Z.of_nat i)) = Some (DescPtr b (Z.of_nat ((i + k) mod N))).
Proof.
  pose proof ring_nonempty as HN.
  induction k as [| k IH]; intros i Hi; simpl.
  - rewrite Nat.add_0_r, Nat.mod_small by exact Hi. reflexivity.
  - rewrite next_of_index by exact Hi. simpl.
    rewrite IH by (apply Nat.mod_upper_bound; lia).
    rewrite Nat.Div0.add_mod_idemp_l.
    replace (i + 1 + k)%nat with (i + S k)%nat by lia. reflexivity.
Qed.

Lemma visit_index k : forall i,
  (i < N)%nat ->
  visit b ring k (DescPtr b (Z.of_nat i))
  = Some ((fun j => DescPtr b (Z.of_nat ((i + j) mod N))) <$> seq 0 k).
Proof.
  pose proof ring_nonempty as HN.
  induction k as [| k IH]; intros i Hi; [reflexivity |].
  cbn [visit]. rewrite next_of_index by exact Hi. simpl.
  rewrite IH by (apply Nat.mod_upper_bound; lia).
  simpl. f_equal. f_equal.
  - rewrite Nat.add_0_r, Nat.mod_small by exact Hi. reflexivity.
  - rewrite <- fmap_S_seq, <- list_fmap_compose.
    apply list_fmap_ext. intros _ j _. simpl.
    rewrite Nat.Div0.add_mod_idemp_l.
    replace (i + 1 + j)%nat with (i + S j)%nat by lia. reflexivity.
Qed.

Lemma shifted_indices_perm i :
  (i < N)%nat -> (fun j => (i + j) mod N)%nat <$> seq 0 N ≡ₚ seq 0 N.
Proof.
  intros Hi.
  assert ((fun j => (i + j) mod N)%nat <$> seq 0 N = rotate i (seq 0 N)) as ->.
  { apply list_eq. intros j.
    rewrite list_lookup_fmap.
    destruct (decide (j < N)%nat) as [Hj | Hj].
    - rewrite lookup_rotate_r by (rewrite length_seq; exact Hj).
      rewrite length_seq.
      rewrite !lookup_seq_lt; [| | exact Hj].
      + simpl. f_equal. unfold rotate_nat_add.
        rewrite <- Nat2Z.inj_add, <- Nat2Z.inj_mod, Nat2Z.id. reflexivity.
      + unfold rotate_nat_add.
        rewrite <- Nat2Z.inj_add, <- Nat2Z.inj_mod, Nat2Z.id.
        apply Nat.mod_upper_bound. lia.
    - rewrite !lookup_ge_None_2; [reflexivity | |].
      + rewrite length_rotate, length_seq. lia.
      + rewrite length_seq. lia. }
  unfold rotate.
  rewrite Permutation_app_comm. rewrite take_drop. reflexivity.
Qed.

(** A ring linked in array order whose last descriptor points back to the
    first is a closed cycle. *)
Lemma linked_ring_closed : closed_cycle b ring.
Proof.
  pose proof ring_nonempty as HN.
  intros i Hi start. fold N in Hi |- *. subst start.
  split; [| split].
  - rewrite follow_index by exact Hi.
    rewrite <- Nat.Div0.add_mod_idemp_r, Nat.Div0.mod_same, Nat.add_0_r.
    rewrite Nat.mod_small by exact Hi. reflexivity.
  - intros k Hk. rewrite follow_index by exact Hi.
    intros Heq. injection Heq as Heq. apply Nat2Z.inj in Heq.
    destruct (decide (i + k < N)%nat) as [Hlt | Hge].
    + rewrite Nat.mod_small in Heq by exact Hlt. lia.
    + assert ((i + k) mod N = i + k - N)%nat as Hmod.
      { replace (i + k)%nat with ((i + k - N) + 1 * N)%nat at 1 by lia.
        rewrite Nat.Div0.mod_add. apply Nat.mod_small. lia. }
      lia.
  - eexists. split; [apply visit_index; exact Hi |].
    unfold ring_ptrs.
    rewrite <- (shifted_indices_perm i Hi) at 2.
    rewrite <- list_fmap_compose. reflexivity.
Qed.

End Ring.

(** *** The builder as a whole *)

(** With at least one descriptor to write, [fill_dma_desc] returns the
    descriptors of the two loops with the last one linked back to index 0. *)
Lemma fill_dma_desc_spec b segs :
  Forall segment_ok segs -> 0 < needed segs ->
  exists news dl,
    length news = Z.to_nat (needed segs) /\
    fresh_run b 0 news /\
    total_length news = total_size segs /\
    news !! (length news - 1)%nat = Some dl /\
    forall s post arr, memory s = 0 -> length arr = Z.to_nat (needed segs) ->
      fill_for b (segs ++ s :: post) 0 arr = Done (needed segs, news) /\
      fill_dma_desc b arr (segs ++ s :: post)
      = Done (<[(length news - 1)%nat := set_stqe_next (DescPtr b 0) dl]> news).
Proof.
  intros Hok Hpos.
  destruct (fill_for_spec b segs Hok 0%nat) as (news & Hlen & Hfresh & Htot & Hrun).
  assert (0 < length news)%nat as Hne by lia.
  destruct (lookup_lt_is_Some_2 news (length news - 1)%nat) as [dl Hdl]; [lia |].
  exists news, dl. repeat (split; [assumption |]).
  intros s post arr Hs Harr.
  assert (fill_for b (segs ++ s :: post) 0 arr = Done (needed segs, news)) as Hfor.
  { change 0 with (Z.of_nat 0). rewrite (Hrun s post arr Hs) by (simpl; lia).
    rewrite splice_all by lia. simpl. rewrite Hlen, Z2Nat.id by lia. reflexivity. }
  split; [exact Hfor |].
  unfold fill_dma_desc. rewrite Hfor.
  change (Done ?x ≫= ?k) with (k x). cbv beta iota.
  replace (needed segs - 1) with (Z.of_nat (length news - 1)) by lia.
  apply update_in_bounds. exact Hdl.
Qed.

Lemma closed_ring_of_fresh_run b news dl :
  fresh_run b 0 news -> news !! (length news - 1)%nat = Some dl ->
  let ring := <[(length news - 1)%nat := set_stqe_next (DescPtr b 0) dl]> news in
  linked_in_order b ring /\ last_to_first b ring.
Proof.
  intros Hfresh Hdl ring. pose proof (lookup_lt_Some _ _ _ Hdl) as Hlt.
  split.
  - intros i d Hd Hi. subst ring. rewrite length_insert in Hi.
    rewrite list_lookup_insert_ne in Hd by lia.
    rewrite (fresh_next _ _ _ (Hfresh i d Hd)). f_equal. lia.
  - exists (set_stqe_next (DescPtr b 0) dl). subst ring.
    rewrite length_insert. split; [| reflexivity].
    apply list_lookup_insert_eq. exact Hlt.
Qed.

Lemma set_stqe_next_length q d : ll_length (set_stqe_next q d) = ll_length d.
Proof. reflexivity. Qed.

(** The closing write changes no chunk length. *)
Lemma closing_write_lengths (news : list lldesc_t) i q dl :
  news !! i = Some dl ->
  ll_length <$> <[i := set_stqe_next q dl]> news = ll_length <$> news.
Proof.
  intros Hdl. rewrite list_fmap_insert, set_stqe_next_length.
  apply list_insert_id. rewrite list_lookup_fmap, Hdl. reflexivity.
Qed.

Lemma closed_ring_built b segs s post :
  Forall segment_ok segs -> needed segs <= INT_MAX -> memory s = 0 ->
  Exists (fun d => size d <> 0) segs ->
  exists ring,
    calc_needed_dma_descs_for (segs ++ s :: post) = Done (needed segs) /\
    (forall arr, length arr = Z.to_nat (needed segs) ->
       fill_dma_desc b arr (segs ++ s :: post) = Done ring) /\
    length ring = Z.to_nat (needed segs) /\
    linked_in_order b ring /\
    last_to_first b ring /\
    closed_cycle b ring.
Proof.
  intros Hok Hmax Hs Hex.
  pose proof (needed_pos segs Hok Hex) as Hpos.
  destruct (fill_dma_desc_spec b segs Hok Hpos)
    as (news & dl & Hlen & Hfresh & _ & Hdl & Hrun).
  destruct (closed_ring_of_fresh_run b news dl Hfresh Hdl) as [Hlinked Hlast].
  exists (<[(length news - 1)%nat := set_stqe_next (DescPtr b 0) dl]> news).
  split; [| split; [| split; [| split; [| split]]]].
  - unfold calc_needed_dma_descs_for.
    rewrite calc_loop_spec by (try assumption; lia). reflexivity.
  - intros arr Harr. apply (Hrun s post arr Hs Harr).
  - rewrite length_insert. exact Hlen.
  - exact Hlinked.
  - exact Hlast.
  - apply linked_ring_closed; assumption.
Qed.

(** Why the sizes are kept within [int]: read as a [size_t], a size of
    [2^32 - 1] bytes wraps in the counting pass, which then counts no
    descriptor at all, while [int len] is -1 and the fill loop writes one:
    on the array allocated for the count the first store is outside. *)
Lemma size_beyond_int_is_miscounted :
  calc_needed_dma_descs_for [segment 4096 (2 ^ 32 - 1); end_marker] = Done 0 /\
  fill_dma_desc 0%nat [] [segment 4096 (2 ^ 32 - 1); end_marker] = Fault.
Proof.
  split; vm_compute; reflexivity.
Qed.

(** ** Claims about the descriptor chain builder *)

(** A list outside the driver's domain: an entry with an address and
    length zero, which is no buffer segment.  The fill pass writes no
    descriptor for it and then stores the closing link at index -1, outside
    any descriptor array. *)
Lemma zero_length_entry_closing_store :
  calc_needed_dma_descs_for [segment 4096 0; end_marker] = Done 0 /\
  forall b arr, fill_dma_desc b arr [segment 4096 0; end_marker] = Fault.
Proof.
  split; [reflexivity |].
  intros b arr. unfold fill_dma_desc. simpl.
  rewrite fill_while_unfold. simpl.
  apply update_out_of_bounds. lia.
Qed.

(** C2: for every sentinel-terminated, non-empty list of buffer segments
    the fill pass on the array allocated for the counted number [N] of
    descriptors returns a ring of [N] descriptors that is a closed cycle:
    each descriptor's next-reference points to the descriptor at the
    following index, the last one's points back to the first, and following
    the next-references from any descriptor visits every descriptor of the
    ring exactly once and is back at the start after [N] steps, not before.
    No buffer segment has zero length, so a non-empty list of them has a
    segment of non-zero length; that one segment is all the theorem asks
    for.  Sizes and descriptor count are within [int], the type the code
    keeps them in. *)
Theorem C2_fill_builds_closed_ring b segs s post :
  Forall segment_ok segs -> needed segs <= INT_MAX -> memory s = 0 ->
  Exists (fun d => size d <> 0) segs ->
  exists N ring,
    calc_needed_dma_descs_for (segs ++ s :: post) = Done N /\
    (forall arr, length arr = Z.to_nat N ->
       fill_dma_desc b arr (segs ++ s :: post) = Done ring) /\
    length ring = Z.to_nat N /\
    linked_in_order b ring /\
    last_to_first b ring /\
    closed_cycle b ring.
Proof.
  intros Hok Hmax Hs Hex.
  destruct (closed_ring_built b segs s post Hok Hmax Hs Hex) as (ring & Hring).
  exists (needed segs), ring. exact Hring.
Qed.

Lemma C2_fill_builds_closed_ring_witness :
  exists N ring,
    calc_needed_dma_descs_for ([segment 4096 4096; segment 8192 100] ++ end_marker :: []) = Done N /\
    (forall arr, length arr = Z.to_nat N ->
       fill_dma_desc 0%nat arr ([segment 4096 4096; segment 8192 100] ++ end_marker :: [])
       = Done ring) /\
    length ring = Z.to_nat N /\
    linked_in_order 0%nat ring /\
    last_to_first 0%nat ring /\
    closed_cycle 0%nat ring.
Proof.
  apply (C2_fill_builds_closed_ring 0%nat [segment 4096 4096; segment 8192 100] end_marker []).
  - repeat constructor; simpl; unfold INT_MAX; lia.
  - vm_compute. discriminate.
  - reflexivity.
  - apply Exists_cons_hd. simpl. lia.
Defined.

(** C3, as stated, fails: for two segments of 4096 bytes (the size of the
    application's segments) the builder counts 4 descriptors, two per
    segment, where the total of 8192 bytes divided by [DMA_MAX] and rounded
    up gives 3. *)
Lemma C3_count_is_not_ceiling_of_total :
  let segs := [segment 4096 4096; segment 8192 4096] in
  calc_needed_dma_descs_for (segs ++ [end_marker]) = Done 4 /\
  descs_for (total_size segs) = 3 /\
  calc_needed_dma_descs_for (segs ++ [end_marker]) <> Done (descs_for (total_size segs)).
Proof.
  simpl. split; [reflexivity |]. split; [reflexivity |].
  vm_compute. discriminate.
Qed.

(** C3 (amended): for every sentinel-terminated list of segments, with sizes
    and descriptor count in [int] range, the builder produces exactly the sum
    over the segments of [ceil (size / DMA_MAX)] descriptors: that is the
    result of the counting pass and the number of descriptors the fill loops
    write.  Every chunk length is positive and at most [DMA_MAX], the chunk
    lengths add up to the total size, and nothing after the end marker has
    any influence, whatever follows it.  When at least one descriptor is
    needed, the closing write of [fill_dma_desc] leaves the lengths as they
    are. *)
Theorem C3_builder_chunks b segs :
  Forall segment_ok segs -> needed segs <= INT_MAX ->
  exists news,
    length news = Z.to_nat (needed segs) /\
    Forall (fun d => 0 < ll_length d <= DMA_MAX) news /\
    total_length news = total_size segs /\
    forall s post, memory s = 0 ->
      calc_needed_dma_descs_for (segs ++ s :: post) = Done (needed segs) /\
      (forall arr, length arr = Z.to_nat (needed segs) ->
         fill_for b (segs ++ s :: post) 0 arr = Done (needed segs, news)) /\
      (0 < needed segs ->
       exists ring,
         ll_length <$> ring = ll_length <$> news /\
         forall arr, length arr = Z.to_nat (needed segs) ->
           fill_dma_desc b arr (segs ++ s :: post) = Done ring).
Proof.
  intros Hok Hmax.
  pose proof (needed_nonneg segs Hok) as Hnn.
  destruct (fill_for_spec b segs Hok 0%nat) as (news & Hlen & Hfresh & Htot & Hrun).
  exists news. split; [exact Hlen |]. split; [| split; [exact Htot |]].
  - apply Forall_lookup. intros j d Hd. apply (fresh_length _ _ _ (Hfresh j d Hd)).
  - intros s post Hs. split; [| split].
    + unfold calc_needed_dma_descs_for.
      rewrite calc_loop_spec by (try assumption; lia). reflexivity.
    + intros arr Harr. change 0 with (Z.of_nat 0).
      rewrite (Hrun s post arr Hs) by (simpl; lia).
      rewrite splice_all by lia. simpl. rewrite Hlen, Z2Nat.id by lia. reflexivity.
    + intros Hpos.
      destruct (fill_dma_desc_spec b segs Hok Hpos)
        as (news' & dl & Hlen' & _ & _ & Hdl & Hrun').
      assert (news' = news) as ->.
      { pose (arr := replicate (Z.to_nat (needed segs)) dl).
        assert (length arr = Z.to_nat (needed segs)) as Harr
          by (subst arr; apply length_replicate).
        destruct (Hrun' s post arr Hs Harr) as [Hfor _].
        change 0 with (Z.of_nat 0) in Hfor.
        rewrite (Hrun s post arr Hs) in Hfor by (simpl; lia).
        rewrite splice_all in Hfor by lia.
        injection Hfor as _ Heq. symmetry. exact Heq. }
      eexists. split; [apply closing_write_lengths; exact Hdl |].
      intros arr Harr. apply (Hrun' s post arr Hs Harr).
Qed.

Lemma C3_builder_chunks_witness :
  exists news,
    length news = Z.to_nat (needed [segment 4096 4096; segment 8192 4096]) /\
    Forall (fun d => 0 < ll_length d <= DMA_MAX) news /\
    total_length news = total_size [segment 4096 4096; segment 8192 4096] /\
    forall s post, memory s = 0 ->
      calc_needed_dma_descs_for ([segment 4096 4096; segment 8192 4096] ++ s :: post)
      = Done (needed [segment 4096 4096; segment 8192 4096]) /\
      (forall arr, length arr = Z.to_nat (needed [segment 4096 4096; segment 8192 4096]) ->
         fill_for 0%nat ([segment 4096 4096; segment 8192 4096] ++ s :: post) 0 arr
         = Done (needed [segment 4096 4096; segment 8192 4096], news)) /\
      (0 < needed [segment 4096 4096; segment 8192 4096] ->
       exists ring,
         ll_length <$> ring = ll_length <$> news /\
         forall arr, length arr = Z.to_nat (needed [segment 4096 4096; segment 8192 4096]) ->
           fill_dma_desc 0%nat arr ([segment 4096 4096; segment 8192 4096] ++ s :: post)
           = Done ring).
Proof.
  apply (C3_builder_chunks 0%nat [segment 4096 4096; segment 8192 4096]).
  - repeat constructor; simpl; unfold INT_MAX; lia.
  - vm_compute. discriminate.
Defined.

(** C10, as stated, fails: in the list that holds the end marker only,
    every segment has non-zero length, yet the counting pass returns 0 and
    the fill pass stores the closing link at index -1. *)
Lemma C10_empty_list_writes_before_array :
  Forall (fun d => size d <> 0) [] /\
  calc_needed_dma_descs_for ([] ++ [end_marker]) = Done 0 /\
  forall b arr, fill_dma_desc b arr ([] ++ [end_marker]) = Fault.
Proof.
  split; [constructor |]. split; [reflexivity |].
  intros b arr. unfold fill_dma_desc. simpl.
  apply update_out_of_bounds. lia.
Qed.

(** C10 (amended): for every sentinel-terminated list with at least one
    segment, in which every segment has non-zero length (sizes and
    descriptor count in [int] range), the counting pass returns [N >= 1] and
    the fill pass, run on an array of exactly [N] descriptors, returns: no
    access leaves the indices [0 .. N-1], the closing write to index [N-1]
    included.  The returned array is the same whatever the array held
    before, each of its [N] elements is a descriptor the fill pass has
    written (hardware-owned, a chunk of 1 to [DMA_MAX] bytes), and on any
    shorter array the fill pass runs off the end: all [N] indices are
    used. *)
Theorem C10_fill_within_counted_array b segs s post :
  segs <> [] ->
  Forall segment_ok segs -> Forall (fun d => size d <> 0) segs ->
  needed segs <= INT_MAX -> memory s = 0 ->
  exists N ring,
    calc_needed_dma_descs_for (segs ++ s :: post) = Done N /\
    1 <= N /\
    length ring = Z.to_nat N /\
    (forall arr, length arr = Z.to_nat N ->
       fill_dma_desc b arr (segs ++ s :: post) = Done ring) /\
    (forall arr, Z.of_nat (length arr) < N ->
       fill_dma_desc b arr (segs ++ s :: post) = Fault) /\
    (forall i, 0 <= i < N ->
       exists d, ring !! Z.to_nat i = Some d /\
                 ll_owner d = 1 /\ 0 < ll_length d <= DMA_MAX).
Proof.
  intros Hne Hok Hnz Hmax Hs.
  assert (Exists (fun d => size d <> 0) segs) as Hex.
  { destruct segs as [| d segs]; [contradiction |].
    apply Exists_cons_hd. inversion Hnz; assumption. }
  pose proof (needed_pos segs Hok Hex) as Hpos.
  destruct (fill_dma_desc_spec b segs Hok Hpos)
    as (news & dl & Hlen & Hfresh & _ & Hdl & Hrun).
  exists (needed segs), (<[(length news - 1)%nat := set_stqe_next (DescPtr b 0) dl]> news).
  split; [| split; [| split; [| split; [| split]]]].
  - unfold calc_needed_dma_descs_for.
    rewrite calc_loop_spec by (try assumption; lia). reflexivity.
  - lia.
  - rewrite length_insert. exact Hlen.
  - intros arr Harr. apply (Hrun s post arr Hs Harr).
  - intros arr Harr. apply fill_dma_desc_short; assumption.
  - intros i Hi.
    destruct (decide (Z.to_nat i = (length news - 1)%nat)) as [Heq | Hneq].
    + exists (set_stqe_next (DescPtr b 0) dl). rewrite Heq.
      split; [apply list_lookup_insert_eq; lia |].
      pose proof (Hfresh _ _ Hdl) as Hd. simpl.
      split; [apply (fresh_owner _ _ _ Hd) | apply (fresh_length _ _ _ Hd)].
    + destruct (lookup_lt_is_Some_2 news (Z.to_nat i)) as [d Hd]; [lia |].
      exists d. rewrite list_lookup_insert_ne by lia.
      split; [exact Hd |].
      pose proof (Hfresh _ _ Hd) as Hf.
      split; [apply (fresh_owner _ _ _ Hf) | apply (fresh_length _ _ _ Hf)].
Qed.

Lemma C10_fill_within_counted_array_witness :
  exists N ring,
    calc_needed_dma_descs_for ([segment 4096 4096; segment 8192 100] ++ end_marker :: []) = Done N /\
    1 <= N /\
    length ring = Z.to_nat N /\
    (forall arr, length arr = Z.to_nat N ->
       fill_dma_desc 0%nat arr ([segment 4096 4096; segment 8192 100] ++ end_marker :: [])
       = Done ring) /\
    (forall arr, Z.of_nat (length arr) < N ->
       fill_dma_desc 0%nat arr ([segment 4096 4096; segment 8192 100] ++ end_marker :: [])
       = Fault) /\
    (forall i, 0 <= i < N ->
       exists d, ring !! Z.to_nat i = Some d /\
                 ll_owner d = 1 /\ 0 < ll_length d <= DMA_MAX).
Proof.
  apply (C10_fill_within_counted_array 0%nat [segment 4096 4096; segment 8192 100] end_marker []).
  - discriminate.
  - repeat constructor; simpl; unfold INT_MAX; lia.
  - repeat constructor; simpl; lia.
  - vm_compute. discriminate.
  - reflexivity.
Defined.

(** ** Claims about the buffer flip *)

Lemma store_next_tail h p count q arr :
  h !! p = Some arr -> 0 < count -> Z.of_nat (length arr) = count ->
  exists arr',
    store_next h p (count - 1) q = Done (<[p := arr']> h) /\
    length arr' = length arr /\
    stqe_next <$> arr' !! Z.to_nat (count - 1) = Some q.
Proof.
  intros Hp Hpos Hlen.
  destruct (lookup_lt_is_Some_2 arr (Z.to_nat (count - 1))) as [d Hd]; [lia |].
  exists (<[Z.to_nat (count - 1) := set_stqe_next q d]> arr).
  split; [| split].
  - unfold store_next. rewrite Hp.
    replace (count - 1) with (Z.of_nat (Z.to_nat (count - 1))) at 1 by lia.
    rewrite (update_in_bounds _ _ d) by exact Hd. reflexivity.
  - apply length_insert.
  - rewrite list_lookup_insert_eq by lia. reflexivity.
Qed.

(** The flip in a double-buffered state: both tails are retargeted, the
    driver's bookkeeping stays as it is. *)
Lemma flip_retargets_tails m dev st s :
  double_buffered m dev st ->
  exists m',
    i2s_parallel_flip_to_buffer m dev s = Done m' /\
    i2s_state m' = i2s_state m /\
    tail_next m' (dmadesc_a st) (desccount_a st) = Some (selected_head st s) /\
    tail_next m' (dmadesc_b st) (desccount_b st) = Some (selected_head st s).
Proof.
  intros (Hst & Ha & Hb & (ra & Hra & Hla) & (rb & Hrb & Hlb)).
  unfold i2s_parallel_flip_to_buffer. rewrite Hst.
  rewrite (proj2 (Z.leb_gt _ _)) by lia.
  replace (if s =? 0 then DescPtr (dmadesc_a st) 0 else DescPtr (dmadesc_b st) 0)
    with (selected_head st s) by (unfold selected_head; destruct (s =? 0); reflexivity).
  cbv zeta. set (q := selected_head st s).
  destruct (store_next_tail (heap m) (dmadesc_a st) (desccount_a st) q ra Hra Ha Hla)
    as (ra' & Hstore_a & Hla' & Htail_a).
  rewrite Hstore_a. change (Done ?x ≫= ?k) with (k x). cbv beta.
  destruct (decide (dmadesc_a st = dmadesc_b st)) as [Heq | Hneq].
  - (* one array serves as both rings: the second write hits the same tail *)
    assert (<[dmadesc_a st := ra']> (heap m) !! dmadesc_b st = Some ra') as Hrb'
      by (rewrite <- Heq; apply lookup_insert_eq).
    assert (desccount_a st = desccount_b st) as Hcnt.
    { rewrite Heq in Hra. rewrite Hra in Hrb. injection Hrb as <-. lia. }
    destruct (store_next_tail _ (dmadesc_b st) (desccount_b st) q ra' Hrb' Hb)
      as (rb' & Hstore_b & _ & Htail_b); [lia |].
    rewrite Hstore_b. eexists. split; [reflexivity |]. split; [reflexivity |].
    unfold tail_next. simpl. rewrite Heq, Hcnt, lookup_insert_eq. simpl.
    split; exact Htail_b.
  - assert (<[dmadesc_a st := ra']> (heap m) !! dmadesc_b st = Some rb) as Hrb'
      by (rewrite lookup_insert_ne by exact Hneq; exact Hrb).
    destruct (store_next_tail _ (dmadesc_b st) (desccount_b st) q rb Hrb' Hb Hlb)
      as (rb' & Hstore_b & _ & Htail_b).
    rewrite Hstore_b. eexists. split; [reflexivity |]. split; [reflexivity |].
    unfold tail_next. simpl. split.
    + rewrite lookup_insert_ne by congruence.
      rewrite lookup_insert_eq. simpl. exact Htail_a.
    + rewrite lookup_insert_eq. simpl. exact Htail_b.
Qed.

(** C1: in every state set up for double buffering, the flip to slot [s]
    returns, and afterwards the tail descriptor of ring A and the tail
    descriptor of ring B both have their next-reference equal to the head
    descriptor (index 0) of the ring selected by [s]. *)
Theorem C1_flip_retargets_both_tails m dev st s :
  double_buffered m dev st ->
  exists m',
    i2s_parallel_flip_to_buffer m dev s = Done m' /\
    tail_next m' (dmadesc_a st) (desccount_a st) = Some (selected_head st s) /\
    tail_next m' (dmadesc_b st) (desccount_b st) = Some (selected_head st s).
Proof.
  intros Hdb.
  destruct (flip_retargets_tails m dev st s Hdb) as (m' & Hflip & _ & Ha & Hb).
  exists m'. split; [exact Hflip |]. split; assumption.
Qed.

Lemma C1_flip_retargets_both_tails_witness :
  exists m',
    i2s_parallel_flip_to_buffer sample_driver I2S1 1 = Done m' /\
    tail_next m' 0%nat 2 = Some (DescPtr 1%nat 0) /\
    tail_next m' 1%nat 1 = Some (DescPtr 1%nat 0).
Proof.
  apply (C1_flip_retargets_both_tails sample_driver I2S1 sample_state 1).
  unfold double_buffered. simpl.
  split; [reflexivity |]. split; [lia |]. split; [lia |].
  split; eexists; (split; [reflexivity | reflexivity]).
Defined.

(** C9, as stated, fails: a flip before any setup (no driver state
    allocated) is a silent no-op, not a failure: the call returns and the
    state is what it was. *)
Lemma C9_flip_before_setup_is_silent :
  let m := {| i2s_state := ∅; heap := ∅ |} in
  i2s_parallel_flip_to_buffer m I2S1 0 = Done m /\
  i2s_parallel_flip_to_buffer m I2S1 0 <> Fault.
Proof.
  simpl. split; [reflexivity | discriminate].
Qed.

(** C9 (amended): a flip invoked before setup has allocated the driver
    state returns at once, silently, and leaves all driver and descriptor
    state unchanged; so does a flip in the single-ring case (no second
    descriptor array counted): it returns without effect and without
    modifying any descriptor. *)
Theorem C9_flip_without_rings_is_noop m dev s :
  i2s_state m !! i2snum dev = None \/
  (exists st, i2s_state m !! i2snum dev = Some st /\ desccount_b st <= 0) ->
  i2s_parallel_flip_to_buffer m dev s = Done m.
Proof.
  intros [Hnone | (st & Hst & Hsingle)]; unfold i2s_parallel_flip_to_buffer.
  - rewrite Hnone. reflexivity.
  - rewrite Hst. rewrite (proj2 (Z.leb_le _ _)) by exact Hsingle. reflexivity.
Qed.

Lemma C9_flip_without_rings_is_noop_witness :
  i2s_parallel_flip_to_buffer sample_driver I2S0 1 = Done sample_driver.
Proof.
  apply (C9_flip_without_rings_is_noop sample_driver I2S0 1).
  left. reflexivity.
Defined.

(** ** The bit-plane encoder *)

Lemma testbit_or_if c v bit k :
  Z.testbit (or_if c v bit) k = Z.testbit v k || (c && Z.testbit bit k).
Proof.
  unfold or_if. destruct c; simpl.
  - apply Z.lor_spec.
  - rewrite orb_false_r. reflexivity.
Qed.

Lemma testbit_bit n k : 0 <= n -> Z.testbit (Z.shiftl 1 n) k = (n =? k).
Proof.
  intros Hn. rewrite Z.shiftl_1_l. apply Z.pow2_bits_eqb. exact Hn.
Qed.

(** A C test [c & (1 << n)] looks at bit [n] of [c]. *)
Lemma nonzero_land_bit c n :
  0 <= n -> nonzero (Z.land c (Z.shiftl 1 n)) = Z.testbit c n.
Proof.
  intros Hn. unfold nonzero.
  destruct (Z.testbit c n) eqn:Hbit.
  - apply negb_true_iff, Z.eqb_neq. intros Hzero.
    assert (Z.testbit (Z.land c (Z.shiftl 1 n)) n = true) as Hone
      by (rewrite Z.land_spec, Hbit, testbit_bit, Z.eqb_refl by exact Hn; reflexivity).
    rewrite Hzero, Z.bits_0 in Hone. discriminate.
  - apply negb_false_iff, Z.eqb_eq. apply Z.bits_inj'. intros k Hk.
    rewrite Z.land_spec, Z.bits_0, testbit_bit by exact Hn.
    destruct (Z.eqb_spec n k) as [<- | Hne].
    + rewrite Hbit. reflexivity.
    + apply andb_false_r.
Qed.

Lemma byte_val_range b : 0 <= byte_val b < 256.
Proof.
  unfold byte_val. pose proof (Byte.to_N_bounded b). lia.
Qed.

Lemma byte_high_bits b k : 8 <= k -> Z.testbit (byte_val b) k = false.
Proof.
  intros Hk. pose proof (byte_val_range b) as Hb.
  destruct (Z.eq_dec (byte_val b) 0) as [-> | Hne]; [apply Z.bits_0 |].
  apply Z.bits_above_log2; [lia |].
  apply Z.lt_le_trans with 8; [| exact Hk].
  apply Z.log2_lt_pow2; lia.
Qed.

(** The bits of a pixel value: blue in bits 0-7, green in 8-15, red in
    16-23. *)
Lemma getPixel_bits buf x y m :
  0 <= m < 8 ->
  let p := (x + y * DISPLAY_WIDTH) * 3 in
  Z.testbit (getPixel buf x y) (16 + m) = Z.testbit (byte_at buf p) m /\
  Z.testbit (getPixel buf x y) (8 + m) = Z.testbit (byte_at buf (p + 1)) m /\
  Z.testbit (getPixel buf x y) m = Z.testbit (byte_at buf (p + 2)) m.
Proof.
  intros Hm p. unfold getPixel. fold p. unfold byte_at.
  repeat split; rewrite !Z.lor_spec, !Z.shiftl_spec by lia.
  - replace (16 + m - 16) with m by lia.
    rewrite (byte_high_bits _ (16 + m - 8)), (byte_high_bits _ (16 + m)) by lia.
    rewrite !orb_false_r. reflexivity.
  - rewrite (Z.testbit_neg_r _ (8 + m - 16)) by lia.
    replace (8 + m - 8) with m by lia.
    rewrite (byte_high_bits _ (8 + m)) by lia.
    rewrite orb_false_r. reflexivity.
  - rewrite (Z.testbit_neg_r _ (m - 16)), (Z.testbit_neg_r _ (m - 8)) by lia.
    reflexivity.
Qed.

Lemma line_bits_spec y k :
  let u := wrap_uint32 (y - 1) in
  Z.testbit (line_bits y) k
  = (Z.testbit u 0 && (8 =? k)) || (Z.testbit u 1 && (9 =? k))
    || (Z.testbit u 2 && (10 =? k)) || (Z.testbit u 3 && (11 =? k)).
Proof.
  intros u. unfold line_bits. fold u. cbv zeta.
  rewrite !testbit_or_if, Z.bits_0.
  unfold BIT_A, BIT_B, BIT_C, BIT_D.
  rewrite !testbit_bit by lia.
  pose proof (nonzero_land_bit u 0) as H0. change (Z.shiftl 1 0) with 1 in H0.
  pose proof (nonzero_land_bit u 1) as H1. change (Z.shiftl 1 1) with 2 in H1.
  pose proof (nonzero_land_bit u 2) as H2. change (Z.shiftl 1 2) with 4 in H2.
  pose proof (nonzero_land_bit u 3) as H3. change (Z.shiftl 1 3) with 8 in H3.
  rewrite H0, H1, H2, H3 by lia.
  reflexivity.
Qed.

(** The bits of an output word, one equation for all sixteen. *)
Lemma pixel_word_spec B framebuf brightness pl y x k :
  0 <= k < 16 -> 0 <= 8 - B + pl ->
  let m := 8 - B + pl in
  let c1 := getPixel framebuf x y in
  let c2 := getPixel framebuf x (wrap_uint32 (y + 16)) in
  Z.testbit (pixel_word B framebuf brightness pl y x) k
  = Z.testbit (line_bits y) k
    || ((brightness <=? x) && (13 =? k))
    || ((x =? DISPLAY_WIDTH - 1) && (12 =? k))
    || (Z.testbit c1 (16 + m) && (0 =? k))
    || (Z.testbit c1 (8 + m) && (1 =? k))
    || (Z.testbit c1 m && (2 =? k))
    || (Z.testbit c2 (16 + m) && (3 =? k))
    || (Z.testbit c2 (8 + m) && (4 =? k))
    || (Z.testbit c2 m && (5 =? k)).
Proof.
  intros Hk Hm m c1 c2. unfold pixel_word, wrap_uint16.
  rewrite Z.mod_pow2_bits_low by lia.
  fold m c1 c2. cbv zeta.
  rewrite !testbit_or_if.
  unfold BIT_OE, BIT_LAT, BIT_R1, BIT_G1, BIT_B1, BIT_R2, BIT_G2, BIT_B2.
  rewrite !testbit_bit by lia.
  rewrite !Z.shiftl_shiftl by lia.
  rewrite !nonzero_land_bit by lia.
  rewrite (Z.add_comm m 16), (Z.add_comm m 8), Z.add_0_r.
  reflexivity.
Qed.

(** The word of plane [pl] at row [y], column [x] sits at offset
    [y * DISPLAY_WIDTH + x] of the plane's buffer. *)
Lemma bind_rows_lookup {A} (g : Z -> list A) (w : nat) :
  (forall y, length (g y) = w) ->
  forall (l : list Z) (i j : nat), (j < w)%nat ->
    (l ≫= g) !! (i * w + j)%nat = l !! i ≫= fun y => g y !! j.
Proof.
  intros Hg. induction l as [| y l IH]; intros i j Hj.
  - rewrite !lookup_nil. reflexivity.
  - rewrite bind_cons. destruct i as [| i].
    + simpl. rewrite lookup_app_l by (rewrite Hg; exact Hj). reflexivity.
    + rewrite lookup_app_r by (rewrite Hg; simpl; lia).
      rewrite Hg. replace (S i * w + j - w)%nat with (i * w + j)%nat by (simpl; lia).
      rewrite IH by exact Hj. reflexivity.
Qed.

Lemma bind_singleton_fmap {A} (f : Z -> A) (l : list Z) :
  (l ≫= fun x => [f x]) = f <$> l.
Proof.
  induction l as [| x l IH]; [reflexivity |].
  rewrite bind_cons, IH. reflexivity.
Qed.

Lemma plane_words_lookup B framebuf brightness pl y x :
  0 <= y < 16 -> 0 <= x < DISPLAY_WIDTH ->
  plane_words B framebuf brightness pl !! Z.to_nat (y * DISPLAY_WIDTH + x)
  = Some (pixel_word B framebuf brightness pl y x).
Proof.
  intros Hy Hx. unfold plane_words.
  replace (Z.to_nat (y * DISPLAY_WIDTH + x))
    with (Z.to_nat y * Z.to_nat DISPLAY_WIDTH + Z.to_nat x)%nat
    by (unfold DISPLAY_WIDTH in *; lia).
  rewrite (bind_rows_lookup _ (Z.to_nat DISPLAY_WIDTH)).
  - rewrite lookup_seqZ_lt by lia.
    change (Some ?v ≫= ?k) with (k v). cbv beta.
    rewrite bind_singleton_fmap, list_lookup_fmap.
    rewrite lookup_seqZ_lt by lia.
    change (?f <$> Some ?v) with (Some (f v)).
    rewrite !Z2Nat.id by lia. reflexivity.
  - intros y'. rewrite bind_singleton_fmap, length_fmap, length_seqZ. reflexivity.
  - unfold DISPLAY_WIDTH in *. lia.
Qed.

(** After the loops, plane [pl] of the slot written holds [plane_words];
    the other slot is not touched. *)
Lemma write_planes_prefix (B : Z) (mem : gmap (Z * Z) (list Z)) (slot : Z) framebuf brightness
    (k : nat) pl :
  0 <= pl < Z.of_nat k ->
  foldl (fun mem pl => <[(slot, pl) := plane_words B framebuf brightness pl]> mem)
        mem (seqZ 0 (Z.of_nat k)) !! (slot, pl)
  = Some (plane_words B framebuf brightness pl).
Proof.
  induction k as [| k IH]; intros Hpl; [lia |].
  unfold seqZ in *. rewrite Nat2Z.id in *. rewrite seq_S, fmap_app, foldl_app.
  simpl. rewrite Z.add_0_r.
  destruct (Z.eq_dec pl (Z.of_nat k)) as [-> | Hne].
  - apply lookup_insert_eq.
  - rewrite lookup_insert_ne by congruence. apply IH. lia.
Qed.

Lemma write_planes_lookup (B : Z) (mem : gmap (Z * Z) (list Z)) (slot : Z) framebuf brightness pl :
  0 <= pl < B ->
  write_planes B mem slot framebuf brightness !! (slot, pl)
  = Some (plane_words B framebuf brightness pl).
Proof.
  intros Hpl. unfold write_planes.
  rewrite <- (Z2Nat.id B) at 1 by lia.
  apply write_planes_prefix. lia.
Qed.

Lemma write_planes_other_slot (B : Z) (mem : gmap (Z * Z) (list Z)) (slot : Z) framebuf brightness
    (slot' : Z) pl :
  slot' <> slot ->
  write_planes B mem slot framebuf brightness !! (slot', pl) = mem !! (slot', pl).
Proof.
  intros Hne. unfold write_planes.
  generalize (seqZ 0 B) as planes. intros planes. revert mem.
  induction planes as [| q planes IH]; intros mem; [reflexivity |].
  simpl. rewrite IH. apply lookup_insert_ne. congruence.
Qed.

Lemma written_word B mem slot framebuf brightness pl y x :
  0 <= pl < B -> 0 <= y < 16 -> 0 <= x < DISPLAY_WIDTH ->
  word_at (write_planes B mem slot framebuf brightness) slot pl y x
  = Some (pixel_word B framebuf brightness pl y x).
Proof.
  intros Hpl Hy Hx. unfold word_at.
  rewrite write_planes_lookup by exact Hpl. simpl.
  apply plane_words_lookup; assumption.
Qed.

Lemma byte_at_lookup (framebuf : list byte) i :
  0 <= i < Z.of_nat (length framebuf) ->
  exists c, framebuf !! Z.to_nat i = Some c /\ byte_at framebuf i = byte_val c.
Proof.
  intros Hi.
  destruct (lookup_lt_is_Some_2 framebuf (Z.to_nat i)) as [c Hc]; [lia |].
  exists c. split; [exact Hc |].
  unfold byte_at. f_equal. apply nth_lookup_Some with (d := Byte.x00) in Hc. exact Hc.
Qed.

Lemma pixel_word_address_bit B framebuf brightness pl y x k :
  0 <= 8 - B + pl -> 0 <= k < 4 ->
  Z.testbit (pixel_word B framebuf brightness pl y x) (8 + k)
  = Z.testbit (wrap_uint32 (y - 1)) k.
Proof.
  intros Hm Hk.
  rewrite pixel_word_spec by lia. rewrite line_bits_spec. cbv zeta.
  assert (k = 0 \/ k = 1 \/ k = 2 \/ k = 3) as [-> | [-> | [-> | ->]]] by lia;
    cbn [Z.add Pos.add Pos.succ Z.eqb Pos.eqb];
    rewrite ?andb_false_r, ?orb_false_r, ?andb_true_r, ?orb_false_l; reflexivity.
Qed.

(** C6: for every plane and every output row [y] of the half panel, the
    four row-address bits of every output word of that row encode
    [(y - 1) mod 16], the previously addressed row; for row 0 they encode
    15, the topmost row address. *)
Theorem C6_row_address_is_previous_row B mem slot framebuf brightness pl y x :
  0 <= pl < B -> B <= 8 -> 0 <= y < 16 -> 0 <= x < DISPLAY_WIDTH ->
  exists w,
    word_at (write_planes B mem slot framebuf brightness) slot pl y x = Some w /\
    row_address w = (y - 1) mod 16 /\
    (y = 0 -> row_address w = 15).
Proof.
  intros Hpl HB Hy Hx. eexists. split; [apply written_word; assumption |].
  assert (row_address (pixel_word B framebuf brightness pl y x) = (y - 1) mod 16) as Haddr.
  { unfold row_address. apply Z.bits_inj'. intros k Hk.
    rewrite Z.land_spec, Z.shiftr_spec by exact Hk.
    change 15 with (Z.ones 4). change 16 with (2 ^ 4).
    destruct (Z_lt_le_dec k 4) as [Hlow | Hhigh].
    - rewrite Z.ones_spec_low, andb_true_r by lia.
      rewrite (Z.add_comm k 8), pixel_word_address_bit by lia.
      unfold wrap_uint32.
      rewrite !Z.mod_pow2_bits_low by lia. reflexivity.
    - rewrite Z.ones_spec_high, andb_false_r by lia.
      rewrite Z.mod_pow2_bits_high by lia. reflexivity. }
  split; [exact Haddr |].
  intros ->. rewrite Haddr. reflexivity.
Qed.

Lemma C6_row_address_is_previous_row_witness :
  exists w,
    word_at (write_planes 7 ∅ 0 black_frame 16) 0 0 0 5 = Some w /\
    row_address w = (0 - 1) mod 16 /\
    (0 = 0 -> row_address w = 15).
Proof.
  apply (C6_row_address_is_previous_row 7 ∅ 0 black_frame 16 0 0 5);
    unfold DISPLAY_WIDTH; lia.
Defined.

(** C7: for every plane [p] in [0, BITPLANE_CNT), every row and every
    column, each of the six RGB data bits of the output word is set if and
    only if bit [8 - BITPLANE_CNT + p] of the corresponding 8-bit source
    channel is set: red, green, blue of the pixel of the current scan half
    in bits 0, 1, 2 and of the paired pixel, half the panel height further
    down, in bits 3, 4, 5.  The source channels are the bytes of the frame
    buffer at the pixel's place, taken as the numbers they stand for
    ([Byte.to_N]). *)
Theorem C7_rgb_bits_follow_plane_bit B mem slot framebuf brightness pl y x :
  Z.of_nat (length framebuf) = DISPLAY_WIDTH * DISPLAY_HEIGHT * 3 ->
  0 <= pl < B -> B <= 8 -> 0 <= y < 16 -> 0 <= x < DISPLAY_WIDTH ->
  let bit := 8 - B + pl in
  let p1 := (x + y * DISPLAY_WIDTH) * 3 in
  let p2 := (x + (y + DISPLAY_HEIGHT / 2) * DISPLAY_WIDTH) * 3 in
  exists w r1 g1 b1 r2 g2 b2,
    word_at (write_planes B mem slot framebuf brightness) slot pl y x = Some w /\
    framebuf !! Z.to_nat p1 = Some r1 /\
    framebuf !! Z.to_nat (p1 + 1) = Some g1 /\
    framebuf !! Z.to_nat (p1 + 2) = Some b1 /\
    framebuf !! Z.to_nat p2 = Some r2 /\
    framebuf !! Z.to_nat (p2 + 1) = Some g2 /\
    framebuf !! Z.to_nat (p2 + 2) = Some b2 /\
    Z.testbit w 0 = Z.testbit (Z.of_N (Byte.to_N r1)) bit /\
    Z.testbit w 1 = Z.testbit (Z.of_N (Byte.to_N g1)) bit /\
    Z.testbit w 2 = Z.testbit (Z.of_N (Byte.to_N b1)) bit /\
    Z.testbit w 3 = Z.testbit (Z.of_N (Byte.to_N r2)) bit /\
    Z.testbit w 4 = Z.testbit (Z.of_N (Byte.to_N g2)) bit /\
    Z.testbit w 5 = Z.testbit (Z.of_N (Byte.to_N b2)) bit.
Proof.
  intros Hlen Hpl HB Hy Hx bit p1 p2.
  unfold DISPLAY_WIDTH, DISPLAY_HEIGHT in Hlen, Hx.
  assert (0 <= bit < 8) as Hbit by (subst bit; lia).
  assert (p2 = (x + wrap_uint32 (y + 16) * DISPLAY_WIDTH) * 3) as Hp2.
  { subst p2. rewrite wrap_uint32_small by lia. reflexivity. }
  destruct (byte_at_lookup framebuf p1) as (r1 & Hr1 & Er1);
    [subst p1; unfold DISPLAY_WIDTH; lia |].
  destruct (byte_at_lookup framebuf (p1 + 1)) as (g1 & Hg1 & Eg1);
    [subst p1; unfold DISPLAY_WIDTH; lia |].
  destruct (byte_at_lookup framebuf (p1 + 2)) as (b1 & Hb1 & Eb1);
    [subst p1; unfold DISPLAY_WIDTH; lia |].
  destruct (byte_at_lookup framebuf p2) as (r2 & Hr2 & Er2);
    [subst p2; unfold DISPLAY_WIDTH, DISPLAY_HEIGHT; change (32 / 2) with 16; lia |].
  destruct (byte_at_lookup framebuf (p2 + 1)) as (g2 & Hg2 & Eg2);
    [subst p2; unfold DISPLAY_WIDTH, DISPLAY_HEIGHT; change (32 / 2) with 16; lia |].
  destruct (byte_at_lookup framebuf (p2 + 2)) as (b2 & Hb2 & Eb2);
    [subst p2; unfold DISPLAY_WIDTH, DISPLAY_HEIGHT; change (32 / 2) with 16; lia |].
  exists (pixel_word B framebuf brightness pl y x), r1, g1, b1, r2, g2, b2.
  split; [apply written_word; unfold DISPLAY_WIDTH; lia |].
  repeat (split; [assumption |]).
  destruct (getPixel_bits framebuf x y bit Hbit) as (R1 & G1 & B1).
  destruct (getPixel_bits framebuf x (wrap_uint32 (y + 16)) bit Hbit) as (R2 & G2 & B2).
  fold p1 in R1, G1, B1. rewrite <- Hp2 in R2, G2, B2.
  unfold byte_val in Er1, Eg1, Eb1, Er2, Eg2, Eb2.
  rewrite <- Er1, <- Eg1, <- Eb1, <- Er2, <- Eg2, <- Eb2.
  rewrite <- R1, <- G1, <- B1, <- R2, <- G2, <- B2.
  repeat split;
    (rewrite pixel_word_spec by (subst bit; lia);
     rewrite line_bits_spec; cbv zeta; fold bit;
     cbn [Z.eqb Pos.eqb];
     rewrite ?andb_false_r, ?orb_false_r, ?andb_true_r, ?orb_false_l;
     reflexivity).
Qed.

Lemma C7_rgb_bits_follow_plane_bit_witness :
  exists w,
    word_at (write_planes 7 ∅ 1 sample_frame 16) 1 6 3 5 = Some w /\
    Z.testbit w 0 = true /\ Z.testbit w 1 = false /\ Z.testbit w 2 = true /\
    Z.testbit w 3 = false /\ Z.testbit w 4 = true /\ Z.testbit w 5 = false.
Proof.
  pose proof (C7_rgb_bits_follow_plane_bit 7 ∅ 1 sample_frame 16 6 3 5) as H.
  cbv zeta in H.
  destruct H as (w & r1 & g1 & b1 & r2 & g2 & b2 & Hw & Hr1 & Hg1 & Hb1 & Hr2 & Hg2 & Hb2
                 & H0 & H1 & H2 & H3 & H4 & H5).
  - reflexivity.
  - lia.
  - lia.
  - lia.
  - unfold DISPLAY_WIDTH. lia.
  - vm_compute in Hr1, Hg1, Hb1, Hr2, Hg2, Hb2.
    injection Hr1 as <-. injection Hg1 as <-. injection Hb1 as <-.
    injection Hr2 as <-. injection Hg2 as <-. injection Hb2 as <-.
    exists w. split; [exact Hw |].
    rewrite H0, H1, H2, H3, H4, H5. repeat split; reflexivity.
Defined.

(** C8: for every plane, row and column, the blank (output-disable) bit of
    the output word is set if and only if the column index is at least the
    brightness limit, the same for all planes and rows; with the limit equal
    to the panel width no column has it set, with limit 0 every column has
    it set. *)
Theorem C8_blank_bit_from_brightness B mem slot framebuf brightness pl y x :
  0 <= pl < B -> B <= 8 -> 0 <= y < 16 -> 0 <= x < DISPLAY_WIDTH ->
  exists w,
    word_at (write_planes B mem slot framebuf brightness) slot pl y x = Some w /\
    (Z.testbit w 13 = true <-> brightness <= x) /\
    (brightness = DISPLAY_WIDTH -> Z.testbit w 13 = false) /\
    (brightness = 0 -> Z.testbit w 13 = true).
Proof.
  intros Hpl HB Hy Hx. eexists. split; [apply written_word; assumption |].
  assert (Z.testbit (pixel_word B framebuf brightness pl y x) 13 = (brightness <=? x)) as Hoe.
  { rewrite pixel_word_spec by lia. rewrite line_bits_spec. cbv zeta.
    cbn [Z.eqb Pos.eqb].
    rewrite ?andb_false_r, ?orb_false_r, ?andb_true_r, ?orb_false_l. reflexivity. }
  rewrite Hoe. split; [apply Z.leb_le |]. split.
  - intros ->. apply Z.leb_gt. lia.
  - intros ->. apply Z.leb_le. lia.
Qed.

Lemma C8_blank_bit_from_brightness_witness :
  exists w,
    word_at (write_planes 7 ∅ 0 black_frame 16) 0 2 3 20 = Some w /\
    (Z.testbit w 13 = true <-> 16 <= 20) /\
    (16 = DISPLAY_WIDTH -> Z.testbit w 13 = false) /\
    (16 = 0 -> Z.testbit w 13 = true).
Proof.
  apply (C8_blank_bit_from_brightness 7 ∅ 0 black_frame 16 2 3 20);
    unfold DISPLAY_WIDTH; lia.
Defined.

(** ** The bit-plane interleave scheduler *)

Lemma sum_to_pow2 n : sum_to n (fun j => 2 ^ j) = 2 ^ Z.of_nat n - 1.
Proof.
  induction n as [| n IH]; [reflexivity |].
  cbn [sum_to]. rewrite IH, Nat2Z.inj_succ, Z.pow_succ_r by lia. lia.
Qed.

Lemma sum_to_ext n f g :
  (forall j, 0 <= j < Z.of_nat n -> f j = g j) -> sum_to n f = sum_to n g.
Proof.
  induction n as [| n IH]; intros H; [reflexivity |].
  cbn [sum_to]. rewrite IH by (intros j Hj; apply H; lia).
  rewrite H by lia. reflexivity.
Qed.

Lemma sum_to_lt_exists n f g :
  sum_to n f < sum_to n g -> exists j, 0 <= j < Z.of_nat n /\ f j < g j.
Proof.
  induction n as [| n IH]; cbn [sum_to]; intros H; [lia |].
  destruct (Z_lt_le_dec (f (Z.of_nat n)) (g (Z.of_nat n))) as [Hlt | Hge].
  - exists (Z.of_nat n). lia.
  - destruct IH as (j & Hj & Hfg); [lia |]. exists j. lia.
Qed.

Lemma sum_to_le n f g :
  (forall j, 0 <= j < Z.of_nat n -> f j <= g j) -> sum_to n f <= sum_to n g.
Proof.
  induction n as [| n IH]; intros H; cbn [sum_to]; [lia |].
  pose proof (H (Z.of_nat n)). specialize (IH (fun j Hj => H j ltac:(lia))). lia.
Qed.

Lemma sum_to_eq_pointwise n f g :
  (forall j, 0 <= j < Z.of_nat n -> f j <= g j) ->
  sum_to n f = sum_to n g ->
  forall j, 0 <= j < Z.of_nat n -> f j = g j.
Proof.
  induction n as [| n IH]; intros Hle Heq j Hj; [lia |].
  cbn [sum_to] in Heq.
  pose proof (Hle (Z.of_nat n) ltac:(lia)) as Hn.
  pose proof (sum_to_le n f g (fun j Hj => Hle j ltac:(lia))) as Hsum.
  destruct (Z.eq_dec j (Z.of_nat n)) as [-> | Hne]; [lia |].
  apply IH; [intros; apply Hle; lia | lia | lia].
Qed.

Lemma sum_to_mark n f p :
  0 <= p < Z.of_nat n ->
  sum_to n (fun j => f j + (if j =? p then 1 else 0)) = sum_to n f + 1.
Proof.
  induction n as [| n IH]; intros Hp; [lia |].
  cbn [sum_to].
  destruct (Z.eqb_spec (Z.of_nat n) p) as [Heq | Hne].
  - rewrite (sum_to_ext n _ f); [lia |].
    intros j Hj. rewrite (proj2 (Z.eqb_neq j p)) by lia. lia.
  - rewrite IH by lia. lia.
Qed.

Lemma occurrences_cons p q order :
  occurrences p (q :: order) = (if p =? q then 1 else 0) + occurrences p order.
Proof.
  unfold occurrences. simpl.
  destruct (Z.eq_dec q p) as [-> | Hne].
  - rewrite Z.eqb_refl. lia.
  - rewrite (proj2 (Z.eqb_neq p q)) by congruence. lia.
Qed.

Lemma sum_to_occurrences n order :
  Forall (fun p => 0 <= p < Z.of_nat n) order ->
  sum_to n (fun j => occurrences j order) = Z.of_nat (length order).
Proof.
  induction 1 as [| q order Hq _ IH].
  - induction n as [| n IHn]; [reflexivity |]. cbn [sum_to]. rewrite IHn. reflexivity.
  - rewrite (sum_to_ext n _ (fun j => occurrences j order + (if j =? q then 1 else 0))).
    + rewrite sum_to_mark by exact Hq. rewrite IH. simpl length. lia.
    + intros j _. rewrite occurrences_cons. lia.
Qed.

Section Scheduler.

Variable B : Z.
Hypothesis HB : 1 <= B.

Lemma seqZ_snoc (k : nat) :
  seqZ 0 (Z.of_nat (S k)) = seqZ 0 (Z.of_nat k) ++ [Z.of_nat k].
Proof.
  unfold seqZ. rewrite !Nat2Z.id, seq_S, fmap_app. simpl.
  rewrite Z.add_0_r. reflexivity.
Qed.

(** After the inner loop has looked at the planes [0 .. k-1], [ch] is the
    highest index among those with the least counter. *)
Lemma choose_prefix (times : list Z) (k : nat) :
  let ch := foldl (fun ch j => if time_of times j <=? time_of times ch then j else ch)
                  0 (seqZ 0 (Z.of_nat k)) in
  0 <= ch /\ ch < Z.max (Z.of_nat k) 1 /\
  (forall j, 0 <= j < Z.of_nat k -> time_of times ch <= time_of times j) /\
  (forall j, ch < j < Z.of_nat k -> time_of times ch < time_of times j).
Proof.
  induction k as [| k IH].
  - simpl. repeat split; lia.
  - rewrite seqZ_snoc, foldl_snoc. cbv zeta in IH |- *.
    set (ch := foldl _ 0 (seqZ 0 (Z.of_nat k))) in *.
    destruct IH as (H0 & Hlt & Hmin & Hstrict).
    destruct (Z.leb_spec (time_of times (Z.of_nat k)) (time_of times ch)) as [Hle | Hgt].
    + split; [lia |]. split; [lia |]. split.
      * intros j Hj. destruct (Z.eq_dec j (Z.of_nat k)) as [-> | Hne]; [lia |].
        specialize (Hmin j ltac:(lia)). lia.
      * intros j Hj. lia.
    + split; [lia |]. split; [lia |]. split.
      * intros j Hj. destruct (Z.eq_dec j (Z.of_nat k)) as [-> | Hne]; [lia |].
        apply Hmin. lia.
      * intros j Hj. destruct (Z.eq_dec j (Z.of_nat k)) as [-> | Hne]; [lia |].
        apply Hstrict. lia.
Qed.

(** The plane chosen has the least counter; among planes with the same
    least counter it is the one with the highest index (the test in the
    inner loop is [<=]). *)
Lemma choose_spec (times : list Z) :
  let ch := choose B times in
  0 <= ch < B /\
  (forall j, 0 <= j < B -> time_of times ch <= time_of times j) /\
  (forall j, ch < j < B -> time_of times ch < time_of times j).
Proof.
  pose proof (choose_prefix times (Z.to_nat B)) as H.
  rewrite Z2Nat.id in H by lia. fold (choose B times) in H.
  cbv zeta in H |- *. destruct H as (H0 & Hlt & Hmin & Hstrict).
  split; [lia |]. split; assumption.
Qed.

Lemma bump_length times ch : length (bump B times ch) = length times.
Proof. unfold bump. apply length_insert. Qed.

Lemma bump_chosen times ch :
  0 <= ch < Z.of_nat (length times) ->
  time_of (bump B times ch) ch = time_of times ch + 2 ^ (B - ch).
Proof.
  intros Hch. unfold bump, time_of at 1.
  rewrite list_lookup_total_insert_eq by lia.
  rewrite Z.shiftl_1_l. reflexivity.
Qed.

Lemma bump_other times ch j :
  0 <= ch -> 0 <= j -> j <> ch -> time_of (bump B times ch) j = time_of times j.
Proof.
  intros Hch Hj Hne. unfold bump, time_of at 1.
  rewrite list_lookup_total_insert_ne by lia. reflexivity.
Qed.

Lemma plan_S k times :
  plan B (S k) times
  = (choose B times :: fst (plan B k (bump B times (choose B times))),
     snd (plan B k (bump B times (choose B times)))).
Proof.
  cbn [plan]. destruct (plan B k _) as [o t']. reflexivity.
Qed.

Lemma plan_length k : forall times, length (fst (plan B k times)) = k.
Proof.
  induction k as [| k IH]; intros times; [reflexivity |].
  rewrite plan_S. simpl. rewrite IH. reflexivity.
Qed.

Lemma plan_add i k : forall times,
  plan B (i + k) times
  = (fst (plan B i times) ++ fst (plan B k (snd (plan B i times))),
     snd (plan B k (snd (plan B i times)))).
Proof.
  induction i as [| i IH]; intros times.
  - simpl. destruct (plan B k times); reflexivity.
  - change (S i + k)%nat with (S (i + k)). rewrite !plan_S, IH. reflexivity.
Qed.

Lemma counted_ext times c c' :
  (forall j, 0 <= j < B -> c j = c' j) -> counted B times c -> counted B times c'.
Proof.
  intros Hext [Hlen Hc]. split; [exact Hlen |].
  intros j Hj. rewrite <- Hext by exact Hj. apply Hc. exact Hj.
Qed.

Lemma plan_counted k : forall times c,
  counted B times c ->
  sum_to (Z.to_nat B) c + Z.of_nat k <= 2 ^ B - 1 ->
  Forall (fun p => 0 <= p < B) (fst (plan B k times)) /\
  counted B (snd (plan B k times)) (fun j => c j + occurrences j (fst (plan B k times))).
Proof.
  induction k as [| k IH]; intros times c Hcnt Hsum.
  - simpl. split; [constructor |].
    apply (counted_ext times c); [| exact Hcnt].
    intros j _. unfold occurrences. simpl. lia.
  - rewrite plan_S. cbn [fst snd].
    set (ch := choose B times).
    destruct (choose_spec times) as (Hch & Hmin & _). fold ch in Hch, Hmin.
    destruct Hcnt as [Hlen Hc].
    (* some plane is short of its share, so the least counter is below 2 ^ B *)
    assert (c ch < 2 ^ ch) as Hroom.
    { destruct (sum_to_lt_exists (Z.to_nat B) c (fun j => 2 ^ j)) as (j & Hj & Hshort).
      { rewrite sum_to_pow2, Z2Nat.id by lia. lia. }
      rewrite Z2Nat.id in Hj by lia.
      destruct (Hc j Hj) as [Htj Hcj]. destruct (Hc ch Hch) as [Htch Hcch].
      specialize (Hmin j Hj). rewrite Htj, Htch in Hmin.
      assert (0 < 2 ^ (B - j)) as Hpj by (apply Z.pow_pos_nonneg; lia).
      assert (0 < 2 ^ (B - ch)) as Hpch by (apply Z.pow_pos_nonneg; lia).
      assert (2 ^ j * 2 ^ (B - j) = 2 ^ B) as Ej
        by (rewrite <- Z.pow_add_r by lia; f_equal; lia).
      assert (2 ^ ch * 2 ^ (B - ch) = 2 ^ B) as Ech
        by (rewrite <- Z.pow_add_r by lia; f_equal; lia).
      apply (Z.mul_lt_mono_pos_r (2 ^ (B - ch))); [exact Hpch |].
      rewrite Ech, <- Ej.
      apply Z.le_lt_trans with (c j * 2 ^ (B - j)); [exact Hmin |].
      apply Z.mul_lt_mono_pos_r; assumption. }
    set (c' := fun j => c j + (if j =? ch then 1 else 0)).
    assert (counted B (bump B times ch) c') as Hcnt'.
    { split; [rewrite bump_length; exact Hlen |].
      intros j Hj. subst c'. cbv beta.
      destruct (Z.eqb_spec j ch) as [-> | Hne].
      - rewrite bump_chosen by lia.
        destruct (Hc ch Hch) as [-> Hcch]. split; lia.
      - rewrite bump_other by lia.
        destruct (Hc j Hj) as [-> Hcj]. split; [f_equal |]; lia. }
    destruct (IH (bump B times ch) c' Hcnt') as [Hall Hfinal].
    { subst c'. rewrite sum_to_mark by lia. lia. }
    split; [constructor; assumption |].
    refine (counted_ext _ _ _ _ Hfinal).
    intros j Hj. subst c'. cbv beta. rewrite occurrences_cons. lia.
Qed.

Lemma times0_counted : counted B (times0 B) (fun _ => 0).
Proof.
  split; [apply length_replicate |].
  intros j Hj. split; [| split; [lia | apply Z.pow_nonneg; lia]].
  unfold time_of, times0. rewrite lookup_total_replicate_2 by lia. lia.
Qed.

Lemma slots_value : Z.of_nat (slots B) = 2 ^ B - 1.
Proof.
  unfold slots. rewrite Z.shiftl_1_l.
  assert (0 < 2 ^ B) by (apply Z.pow_pos_nonneg; lia). lia.
Qed.

(** The ordering has [2 ^ B - 1] entries, all of them plane indices, and
    plane [p] occurs [2 ^ p] times in it. *)
Lemma bitplane_order_shares :
  Z.of_nat (length (bitplane_order B)) = 2 ^ B - 1 /\
  Forall (fun p => 0 <= p < B) (bitplane_order B) /\
  forall p, 0 <= p < B -> occurrences p (bitplane_order B) = 2 ^ p.
Proof.
  unfold bitplane_order.
  assert (sum_to (Z.to_nat B) (fun _ => 0) = 0) as Hzero.
  { induction (Z.to_nat B) as [| n IHn]; [reflexivity |]. cbn [sum_to]. lia. }
  destruct (plan_counted (slots B) (times0 B) (fun _ => 0) times0_counted)
    as [Hall [_ Hshare]].
  { rewrite Hzero, slots_value. lia. }
  assert (Z.of_nat (length (fst (plan B (slots B) (times0 B)))) = 2 ^ B - 1) as Hlen
    by (rewrite plan_length; apply slots_value).
  split; [exact Hlen |]. split; [exact Hall |].
  intros p Hp.
  apply (sum_to_eq_pointwise (Z.to_nat B)
           (fun j => occurrences j (fst (plan B (slots B) (times0 B))))
           (fun j => 2 ^ j)).
  - intros j Hj. destruct (Hshare j ltac:(lia)) as [_ Hcj]. lia.
  - rewrite sum_to_occurrences, sum_to_pow2, Z2Nat.id by
      (try lia; rewrite Z2Nat.id by lia; exact Hall).
    exact Hlen.
  - lia.
Qed.

End Scheduler.

(** C4, as stated, fails: for [BITPLANE_CNT = 3] the ordering is
    2 1 0 2 2 1 2, in which plane 0 appears once, not 4 times, and plane 2
    appears 4 times, not once: the higher planes get the larger share. *)
Lemma C4_plane_0_appears_once :
  bitplane_order 3 = [2; 1; 0; 2; 2; 1; 2] /\
  occurrences 0 (bitplane_order 3) = 1 /\
  occurrences 0 (bitplane_order 3) <> 2 ^ (3 - 1 - 0) /\
  occurrences 2 (bitplane_order 3) = 4 /\
  occurrences 2 (bitplane_order 3) <> 2 ^ (3 - 1 - 2).
Proof.
  repeat split; try reflexivity; vm_compute; discriminate.
Qed.

(** C4 (amended): the scheduler produces an ordering of length
    [2^BITPLANE_CNT - 1] over the plane indices [0 .. BITPLANE_CNT-1] in
    which plane [p] appears exactly [2^p] times; for [BITPLANE_CNT = 3] the
    ordering has length 7, plane 0 appears once, plane 1 twice and plane 2
    four times. *)
Theorem C4_plane_p_appears_2_pow_p_times B p :
  1 <= B <= 30 -> 0 <= p < B ->
  Z.of_nat (length (bitplane_order B)) = 2 ^ B - 1 /\
  Forall (fun q => 0 <= q < B) (bitplane_order B) /\
  occurrences p (bitplane_order B) = 2 ^ p.
Proof.
  intros HB Hp.
  destruct (bitplane_order_shares B (proj1 HB)) as (Hlen & Hall & Hshare).
  split; [exact Hlen |]. split; [exact Hall |]. apply Hshare. exact Hp.
Qed.

Lemma C4_plane_p_appears_2_pow_p_times_witness :
  (Z.of_nat (length (bitplane_order 3)) = 7 /\
   Forall (fun q => 0 <= q < 3) (bitplane_order 3) /\
   occurrences 0 (bitplane_order 3) = 1) /\
  occurrences 1 (bitplane_order 3) = 2 /\
  occurrences 2 (bitplane_order 3) = 4.
Proof.
  split; [| split].
  - apply (C4_plane_p_appears_2_pow_p_times 3 0); lia.
  - apply (C4_plane_p_appears_2_pow_p_times 3 1); lia.
  - apply (C4_plane_p_appears_2_pow_p_times 3 2); lia.
Defined.

(** C5, as stated, fails: at position 0 of the source's configuration
    ([BITPLANE_CNT = 7]) all counters are zero, and the plane placed is
    plane 6, the highest index among the tied planes, not plane 0. *)
Lemma C5_first_slot_takes_highest_plane :
  times0 7 = [0; 0; 0; 0; 0; 0; 0] /\
  choose 7 (times0 7) = 6 /\
  bitplane_order 7 !! 0%nat = Some 6 /\
  bitplane_order 7 !! 0%nat <> Some 0.
Proof.
  repeat split; try reflexivity. vm_compute. discriminate.
Qed.

(** C5 (amended): at each of the [2^BITPLANE_CNT - 1] output positions,
    starting from all counters zero, the plane selected is one with the
    minimum current counter, ties broken by the highest plane index, and
    after placement that plane's counter is increased by exactly
    [2^(BITPLANE_CNT - chosen_plane)], the other counters staying as they
    are. *)
Theorem C5_scheduler_step B i :
  1 <= B <= 30 -> (i < slots B)%nat ->
  let times := snd (plan B i (times0 B)) in
  let ch := choose B times in
  snd (plan B 0 (times0 B)) = replicate (Z.to_nat B) 0 /\
  bitplane_order B !! i = Some ch /\
  0 <= ch < B /\
  (forall j, 0 <= j < B -> time_of times ch <= time_of times j) /\
  (forall j, ch < j < B -> time_of times ch < time_of times j) /\
  snd (plan B (S i) (times0 B)) = bump B times ch /\
  time_of (bump B times ch) ch = time_of times ch + 2 ^ (B - ch) /\
  (forall j, 0 <= j < B -> j <> ch -> time_of (bump B times ch) j = time_of times j).
Proof.
  intros HB Hi times ch.
  destruct (choose_spec B (proj1 HB) times) as (Hch & Hmin & Hstrict).
  fold ch in Hch, Hmin, Hstrict.
  assert (length times = Z.to_nat B) as Hlen.
  { destruct (plan_counted B (proj1 HB) i (times0 B) (fun _ => 0)
                (times0_counted B (proj1 HB))) as [_ [Hlen _]]; [| exact Hlen].
    pose proof (slots_value B (proj1 HB)) as Hslots.
    rewrite (sum_to_ext _ _ (fun j => 0 * 2 ^ j)) by (intros; lia).
    assert (forall n, sum_to n (fun j => 0 * 2 ^ j) = 0) as Hzero
      by (induction n as [| n IHn]; cbn [sum_to]; lia).
    rewrite Hzero. lia. }
  split; [reflexivity |]. split; [| split; [exact Hch |]].
  - unfold bitplane_order.
    replace (slots B) with (i + S (slots B - i - 1))%nat by lia.
    rewrite plan_add. cbn [fst].
    rewrite lookup_app_r by (rewrite plan_length; lia).
    rewrite plan_length, Nat.sub_diag, plan_S. reflexivity.
  - split; [exact Hmin |]. split; [exact Hstrict |]. split; [| split].
    + replace (S i) with (i + 1)%nat by lia.
      rewrite plan_add. cbn [snd]. rewrite plan_S. reflexivity.
    + apply bump_chosen. lia.
    + intros j Hj Hne. apply bump_other; lia.
Qed.

Lemma C5_scheduler_step_witness :
  let times := snd (plan 7 3 (times0 7)) in
  let ch := choose 7 times in
  snd (plan 7 0 (times0 7)) = replicate (Z.to_nat 7) 0 /\
  bitplane_order 7 !! 3%nat = Some ch /\
  0 <= ch < 7 /\
  (forall j, 0 <= j < 7 -> time_of times ch <= time_of times j) /\
  (forall j, ch < j < 7 -> time_of times ch < time_of times j) /\
  snd (plan 7 (S 3) (times0 7)) = bump 7 times ch /\
  time_of (bump 7 times ch) ch = time_of times ch + 2 ^ (7 - ch) /\
  (forall j, 0 <= j < 7 -> j <> ch -> time_of (bump 7 times ch) j = time_of times j).
Proof.
  apply (C5_scheduler_step 7 3).
  - lia.
  - vm_compute. lia.
Defined.

(** ** A frame update *)

(** [update_frame] in a double-buffered state: the planes of the back
    buffer hold the new words, the front buffer's planes are as before,
    both rings now lead into the ring of the buffer just written, and the
    other buffer becomes the back buffer. *)
Lemma update_frame_shows_back_buffer B a st framebuf brightness :
  double_buffered (drv a) I2S1 st ->
  exists a',
    update_frame B a framebuf brightness = Done a' /\
    backbuf_id a' = Z.lxor (backbuf_id a) 1 /\
    (forall pl, 0 <= pl < B ->
       bitplane_mem a' !! (backbuf_id a, pl) = Some (plane_words B framebuf brightness pl)) /\
    (forall slot pl, slot <> backbuf_id a ->
       bitplane_mem a' !! (slot, pl) = bitplane_mem a !! (slot, pl)) /\
    tail_next (drv a') (dmadesc_a st) (desccount_a st)
      = Some (selected_head st (backbuf_id a)) /\
    tail_next (drv a') (dmadesc_b st) (desccount_b st)
      = Some (selected_head st (backbuf_id a)).
Proof.
  intros Hdb.
  destruct (flip_retargets_tails (drv a) I2S1 st (backbuf_id a) Hdb)
    as (d & Hflip & _ & Ha & Hb).
  eexists. split; [unfold update_frame; rewrite Hflip; reflexivity |].
  cbn [backbuf_id bitplane_mem drv].
  split; [reflexivity |]. split; [| split; [| split; assumption]].
  - intros pl Hpl. apply write_planes_lookup. exact Hpl.
  - intros slot pl Hne. apply write_planes_other_slot. exact Hne.
Qed.

(** ** Setup builds the two rings *)

(** A granted request for [n] descriptors whose byte count fits
    [size_t]. *)
Lemma malloc_granted h n junk :
  0 <= n -> fits_size_t n ->
  heap_caps_malloc h (wrap_uint32 (n * sizeof_lldesc_t)) true junk
  = (fresh (dom h), replicate (Z.to_nat n) junk,
     <[fresh (dom h) := replicate (Z.to_nat n) junk]> h).
Proof.
  unfold fits_size_t, sizeof_lldesc_t. intros Hn Hfit. unfold heap_caps_malloc.
  rewrite wrap_uint32_small by lia.
  unfold sizeof_lldesc_t. rewrite Z.div_mul by lia. reflexivity.
Qed.

(** Setup with one descriptor list, written out. *)
Lemma setup_one_ring m dev la na al junk junk_b ring_a :
  let a := fresh (dom (heap m)) in
  grant_state al = true -> grant_a al = true ->
  0 <= na -> fits_size_t na ->
  calc_needed_dma_descs_for la = Done na ->
  fill_dma_desc a (replicate (Z.to_nat na) junk) la = Done ring_a ->
  i2s_parallel_setup m dev {| bufa := la; bufb := None |} al junk junk_b
  = Done {| i2s_state :=
              <[i2snum dev := {| dmadesc_a := a; dmadesc_b := junk_b;
                                 desccount_a := na; desccount_b := 0 |}]> (i2s_state m);
            heap := <[a := ring_a]> (<[a := replicate (Z.to_nat na) junk]> (heap m)) |}.
Proof.
  intros a Hgs Hga Hna Hfa Hca Hfill.
  unfold i2s_parallel_setup. cbn [bufa bufb].
  rewrite Hca. change (Done ?x ≫= ?k) with (k x). cbv beta.
  rewrite Hgs, Hga. cbn [negb]. rewrite malloc_granted by assumption.
  fold a. cbv iota beta. rewrite Hfill. reflexivity.
Qed.

(** Setup with two descriptor lists, written out. *)
Lemma setup_two_rings m dev la lb na nb al junk junk_b ring_a ring_b :
  let a := fresh (dom (heap m)) in
  let h2 := <[a := ring_a]> (<[a := replicate (Z.to_nat na) junk]> (heap m)) in
  let b := fresh (dom h2) in
  grants_all al ->
  0 <= na -> fits_size_t na -> 0 <= nb -> fits_size_t nb ->
  calc_needed_dma_descs_for la = Done na ->
  fill_dma_desc a (replicate (Z.to_nat na) junk) la = Done ring_a ->
  calc_needed_dma_descs_for lb = Done nb ->
  fill_dma_desc b (replicate (Z.to_nat nb) junk) lb = Done ring_b ->
  i2s_parallel_setup m dev {| bufa := la; bufb := Some lb |} al junk junk_b
  = Done {| i2s_state :=
              <[i2snum dev := {| dmadesc_a := a; dmadesc_b := b;
                                 desccount_a := na; desccount_b := nb |}]> (i2s_state m);
            heap := <[b := ring_b]> (<[b := replicate (Z.to_nat nb) junk]> h2) |}.
Proof.
  intros a h2 b (Hgs & Hga & Hgb) Hna Hfa Hnb Hfb Hca Hfill_a Hcb Hfill_b.
  unfold i2s_parallel_setup. cbn [bufa bufb].
  rewrite Hca. change (Done ?x ≫= ?k) with (k x). cbv beta.
  rewrite Hgs, Hga, Hgb. cbn [negb]. rewrite malloc_granted by assumption.
  fold a. cbv iota beta.
  rewrite Hfill_a. change (Done ?x ≫= ?k) with (k x). cbv beta.
  rewrite Hcb. change (Done ?x ≫= ?k) with (k x). cbv beta.
  rewrite malloc_granted by assumption.
  fold h2. fold b. cbv iota beta.
  rewrite Hfill_b. reflexivity.
Qed.

(** With two segment lists that each need at least one descriptor, an
    allocator that grants the requests and byte counts that fit [size_t],
    setup returns a state set up for double buffering, with both rings
    closed on themselves. *)
Lemma setup_builds_both_rings m dev segs_a s_a post_a segs_b s_b post_b al junk junk_b :
  Forall segment_ok segs_a -> needed segs_a <= INT_MAX -> memory s_a = 0 ->
  Exists (fun d => size d <> 0) segs_a ->
  Forall segment_ok segs_b -> needed segs_b <= INT_MAX -> memory s_b = 0 ->
  Exists (fun d => size d <> 0) segs_b ->
  grants_all al -> fits_size_t (needed segs_a) -> fits_size_t (needed segs_b) ->
  exists m' st,
    i2s_parallel_setup m dev
      {| bufa := segs_a ++ s_a :: post_a; bufb := Some (segs_b ++ s_b :: post_b) |}
      al junk junk_b = Done m' /\
    double_buffered m' dev st /\
    desccount_a st = needed segs_a /\ desccount_b st = needed segs_b /\
    dmadesc_a st <> dmadesc_b st /\
    ring_built m' (dmadesc_a st) (desccount_a st) /\
    ring_built m' (dmadesc_b st) (desccount_b st).
Proof.
  intros Hok_a Hmax_a Hs_a Hex_a Hok_b Hmax_b Hs_b Hex_b Hal Hfit_a Hfit_b.
  set (a := fresh (dom (heap m))).
  destruct (closed_ring_built a segs_a s_a post_a Hok_a Hmax_a Hs_a Hex_a)
    as (ring_a & Hcalc_a & Hfill_a & Hlen_a & Hlink_a & Hlast_a & Hcyc_a).
  set (h2 := <[a := ring_a]> (<[a := replicate (Z.to_nat (needed segs_a)) junk]> (heap m))).
  set (b := fresh (dom h2)).
  destruct (closed_ring_built b segs_b s_b post_b Hok_b Hmax_b Hs_b Hex_b)
    as (ring_b & Hcalc_b & Hfill_b & Hlen_b & Hlink_b & Hlast_b & Hcyc_b).
  pose proof (needed_pos segs_a Hok_a Hex_a) as Hpos_a.
  pose proof (needed_pos segs_b Hok_b Hex_b) as Hpos_b.
  assert (a <> b) as Hab.
  { intros Heq. apply (is_fresh (dom h2)). fold b. rewrite <- Heq.
    subst h2. apply elem_of_dom. rewrite lookup_insert_eq. eauto. }
  exists {| i2s_state :=
              <[i2snum dev := {| dmadesc_a := a; dmadesc_b := b;
                                 desccount_a := needed segs_a;
                                 desccount_b := needed segs_b |}]> (i2s_state m);
            heap := <[b := ring_b]>
                      (<[b := replicate (Z.to_nat (needed segs_b)) junk]> h2) |}.
  exists {| dmadesc_a := a; dmadesc_b := b;
            desccount_a := needed segs_a; desccount_b := needed segs_b |}.
  split; [| split; [| split; [reflexivity | split; [reflexivity | split; [exact Hab |]]]]].
  - exact (setup_two_rings m dev _ _ (needed segs_a) (needed segs_b) al junk junk_b
             ring_a ring_b Hal ltac:(lia) Hfit_a ltac:(lia) Hfit_b
             Hcalc_a (Hfill_a _ (length_replicate _ _))
             Hcalc_b (Hfill_b _ (length_replicate _ _))).
  - unfold double_buffered. cbn [i2s_state heap dmadesc_a dmadesc_b desccount_a desccount_b].
    split; [apply lookup_insert_eq |]. split; [exact Hpos_a |]. split; [exact Hpos_b |].
    split.
    + exists ring_a. split; [| lia].
      rewrite !lookup_insert_ne by congruence. subst h2. apply lookup_insert_eq.
    + exists ring_b. split; [| lia]. apply lookup_insert_eq.
  - split.
    + exists ring_a. cbn [heap dmadesc_a desccount_a].
      split; [| split; [lia | auto]].
      rewrite !lookup_insert_ne by congruence. subst h2. apply lookup_insert_eq.
    + exists ring_b. cbn [heap dmadesc_b desccount_b].
      split; [| split; [lia | auto]]. apply lookup_insert_eq.
Qed.

(** ** The application's descriptor lists *)

Lemma plane_segments_ok (bitplane : Z -> Z) (order : list Z) :
  (forall i, bitplane i <> 0) ->
  let segs := map (fun ch => {| memory := bitplane ch; size := BITPLANE_SZ * 2 |}) order in
  Forall segment_ok segs /\
  needed segs = 2 * Z.of_nat (length order) /\
  total_size segs = BITPLANE_SZ * 2 * Z.of_nat (length order).
Proof.
  intros Hnz. induction order as [| ch order IH]; cbn zeta in *.
  - split; [constructor |]. split; reflexivity.
  - destruct IH as (Hok & Hneed & Htot). split; [| split].
    + constructor; [| exact Hok]. split; [apply Hnz | vm_compute; split; discriminate].
    + cbn [map needed foldr size]. fold (needed (map (fun ch => {| memory := bitplane ch; size := BITPLANE_SZ * 2 |}) order)).
      rewrite Hneed. change (descs_for (BITPLANE_SZ * 2)) with 2. simpl length. lia.
    + cbn [map total_size foldr size]. fold (total_size (map (fun ch => {| memory := bitplane ch; size := BITPLANE_SZ * 2 |}) order)).
      rewrite Htot. simpl length. lia.
Qed.

(** With its requests granted [app_main] leaves the driver of [I2S1] set
    up for double buffering: every slot of the ordering takes two
    descriptors (4096 bytes against [DMA_MAX = 4092]), so each ring has
    [2 * (2^BITPLANE_CNT - 1)] descriptors, 254 for the 7 bit-planes of the
    source.  Up to 27 bit-planes the byte count of a ring fits [size_t]. *)
Lemma app_main_sets_up_double_buffering B bitplane junk_size al junk junk_b :
  1 <= B <= 27 ->
  (forall j i, bitplane j i <> 0) ->
  grants_all al ->
  exists m' st,
    app_main B bitplane junk_size al junk junk_b = Done m' /\
    double_buffered m' I2S1 st /\
    desccount_a st = 2 * (2 ^ B - 1) /\
    desccount_b st = 2 * (2 ^ B - 1) /\
    ring_built m' (dmadesc_a st) (desccount_a st) /\
    ring_built m' (dmadesc_b st) (desccount_b st).
Proof.
  intros HB Hnz Hal.
  destruct (bitplane_order_shares B (proj1 HB)) as (Hlen & _ & _).
  assert (2 ^ B <= 2 ^ 27) as Hpow by (apply Z.pow_le_mono_r; lia).
  assert (0 < 2 ^ B) as Hpos by (apply Z.pow_pos_nonneg; lia).
  assert (2 <= 2 ^ B) as Htwo
    by (change 2 with (2 ^ 1) at 1; apply Z.pow_le_mono_r; lia).
  destruct (plane_segments_ok (bitplane 0) (bitplane_order B) (Hnz 0))
    as (Hok_a & Hneed_a & _).
  destruct (plane_segments_ok (bitplane 1) (bitplane_order B) (Hnz 1))
    as (Hok_b & Hneed_b & _).
  assert (forall j, Exists (fun d => size d <> 0)
            (map (fun ch => {| memory := bitplane j ch; size := BITPLANE_SZ * 2 |})
                 (bitplane_order B))) as Hex.
  { intros j. destruct (bitplane_order B) as [| ch order]; [simpl in Hlen; lia |].
    apply Exists_cons_hd. simpl. discriminate. }
  destruct (setup_builds_both_rings {| i2s_state := ∅; heap := ∅ |} I2S1
              _ {| memory := 0; size := junk_size |} []
              _ {| memory := 0; size := junk_size |} [] al junk junk_b
              Hok_a ltac:(unfold INT_MAX; lia) eq_refl (Hex 0)
              Hok_b ltac:(unfold INT_MAX; lia) eq_refl (Hex 1) Hal
              ltac:(unfold fits_size_t, sizeof_lldesc_t; lia)
              ltac:(unfold fits_size_t, sizeof_lldesc_t; lia))
    as (m' & st & Hrun & Hdb & Hca & Hcb & _ & Hra & Hrb).
  exists m', st. split; [exact Hrun |]. split; [exact Hdb |].
  split; [lia |]. split; [lia |]. split; assumption.
Qed.

(** * Further properties of the code *)

(** ** More on the output words *)

Lemma pixel_word_high_bits B framebuf brightness pl y x k :
  16 <= k -> Z.testbit (pixel_word B framebuf brightness pl y x) k = false.
Proof.
  intros Hk. unfold pixel_word, wrap_uint16.
  apply Z.mod_pow2_bits_high. lia.
Qed.

Lemma pixel_word_range B framebuf brightness pl y x :
  0 <= pixel_word B framebuf brightness pl y x < 2 ^ 16.
Proof.
  unfold pixel_word, wrap_uint16. apply Z.mod_pos_bound. lia.
Qed.

(** X1: the latch bit of the word written for plane [pl], row [y], column
    [x] is set exactly in the last column, [x = DISPLAY_WIDTH - 1]: once per
    row, at its end. *)
Theorem X1_latch_on_last_column B mem slot framebuf brightness pl y x :
  0 <= pl < B -> B <= 8 -> 0 <= y < 16 -> 0 <= x < DISPLAY_WIDTH ->
  exists w,
    word_at (write_planes B mem slot framebuf brightness) slot pl y x = Some w /\
    (Z.testbit w 12 = true <-> x = DISPLAY_WIDTH - 1).
Proof.
  intros Hpl HB Hy Hx. eexists. split; [apply written_word; assumption |].
  rewrite pixel_word_spec by lia. rewrite line_bits_spec. cbv zeta.
  cbn [Z.eqb Pos.eqb].
  rewrite ?andb_false_r, ?orb_false_r, ?andb_true_r, ?orb_false_l.
  apply Z.eqb_eq.
Qed.

Lemma X1_latch_on_last_column_witness :
  exists w,
    word_at (write_planes 7 ∅ 0 black_frame 16) 0 3 5 127 = Some w /\
    (Z.testbit w 12 = true <-> 127 = DISPLAY_WIDTH - 1).
Proof.
  apply (X1_latch_on_last_column 7 ∅ 0 black_frame 16 3 5 127);
    unfold DISPLAY_WIDTH; lia.
Defined.

(** X2: the bits 6, 7, 14 and 15 of an output word, the ones the source
    marks "don't care", are never set, whatever the frame buffer holds: every
    word is below [2^14] with bits 6 and 7 clear. *)
Theorem X2_unused_bits_stay_clear B mem slot framebuf brightness pl y x :
  0 <= pl < B -> B <= 8 -> 0 <= y < 16 -> 0 <= x < DISPLAY_WIDTH ->
  exists w,
    word_at (write_planes B mem slot framebuf brightness) slot pl y x = Some w /\
    0 <= w < 2 ^ 14 /\
    Z.testbit w 6 = false /\ Z.testbit w 7 = false /\
    Z.testbit w 14 = false /\ Z.testbit w 15 = false.
Proof.
  intros Hpl HB Hy Hx. eexists. split; [apply written_word; assumption |].
  set (w := pixel_word B framebuf brightness pl y x).
  assert (forall k, k = 6 \/ k = 7 \/ k = 14 \/ k = 15 -> Z.testbit w k = false) as Hclear.
  { intros k Hk. subst w.
    rewrite pixel_word_spec by lia. rewrite line_bits_spec. cbv zeta.
    destruct Hk as [-> | [-> | [-> | ->]]]; cbn [Z.eqb Pos.eqb];
      rewrite ?andb_false_r, ?orb_false_r; reflexivity. }
  split; [| repeat split; apply Hclear; lia].
  pose proof (pixel_word_range B framebuf brightness pl y x) as Hr. fold w in Hr.
  split; [lia |].
  destruct (Z.eq_dec w 0) as [-> | Hnz]; [lia |].
  apply Z.log2_lt_pow2; [lia |].
  destruct (Z_lt_le_dec (Z.log2 w) 14) as [Hlt | Hge]; [exact Hlt | exfalso].
  assert (Z.testbit w (Z.log2 w) = true) as Htop by (apply Z.bit_log2; lia).
  assert (Z.log2 w < 16) as Hlog by (apply Z.log2_lt_pow2; lia).
  assert (Z.log2 w = 14 \/ Z.log2 w = 15) as Hwhich by lia.
  rewrite Hclear in Htop by lia. discriminate.
Qed.

Lemma X2_unused_bits_stay_clear_witness :
  exists w,
    word_at (write_planes 7 ∅ 0 black_frame 16) 0 3 5 127 = Some w /\
    0 <= w < 2 ^ 14 /\
    Z.testbit w 6 = false /\ Z.testbit w 7 = false /\
    Z.testbit w 14 = false /\ Z.testbit w 15 = false.
Proof.
  apply (X2_unused_bits_stay_clear 7 ∅ 0 black_frame 16 3 5 127);
    unfold DISPLAY_WIDTH; lia.
Defined.

Lemma bind_rows_length {A} (g : Z -> list A) (w : nat) (l : list Z) :
  (forall y, length (g y) = w) -> length (l ≫= g) = (length l * w)%nat.
Proof.
  intros Hg. induction l as [| y l IH]; [reflexivity |].
  rewrite bind_cons, length_app, Hg, IH. simpl. lia.
Qed.

Lemma plane_words_length B framebuf brightness pl :
  Z.of_nat (length (plane_words B framebuf brightness pl)) = BITPLANE_SZ.
Proof.
  unfold plane_words.
  rewrite (bind_rows_length _ (Z.to_nat DISPLAY_WIDTH)).
  - rewrite length_seqZ. reflexivity.
  - intros y. rewrite bind_singleton_fmap, length_fmap, length_seqZ. reflexivity.
Qed.

Lemma write_planes_untouched (B : Z) (mem : gmap (Z * Z) (list Z)) (slot : Z)
    framebuf brightness (slot' pl : Z) :
  slot' <> slot \/ pl < 0 \/ B <= pl ->
  write_planes B mem slot framebuf brightness !! (slot', pl) = mem !! (slot', pl).
Proof.
  intros Hout. unfold write_planes.
  assert (forall q, q ∈ seqZ 0 B -> (slot, q) <> (slot', pl)) as Hkeys.
  { intros q Hq Heq. apply elem_of_seqZ in Hq. injection Heq as -> ->. lia. }
  revert mem Hkeys. generalize (seqZ 0 B) as planes.
  induction planes as [| q planes IH]; intros mem Hkeys; [reflexivity |].
  simpl. rewrite IH by (intros q' Hq'; apply Hkeys; right; exact Hq').
  apply lookup_insert_ne. apply Hkeys. left.
Qed.

(** X3: the three loops of [update_frame] write the planes [0 ..
    BITPLANE_CNT-1] of the back buffer and nothing else: each of these
    planes receives exactly [BITPLANE_SZ] words, the size [app_main]
    allocates for it ([BITPLANE_SZ * 2] bytes), and every buffer of the other
    slot stays as it was. *)
Theorem X3_encoder_fills_back_buffer_only (B : Z) (mem : gmap (Z * Z) (list Z))
    (slot : Z) framebuf brightness :
  (forall pl, 0 <= pl < B ->
     exists buf, write_planes B mem slot framebuf brightness !! (slot, pl) = Some buf /\
                 Z.of_nat (length buf) = BITPLANE_SZ /\
                 Z.of_nat (length buf) * 2 = BITPLANE_SZ * 2) /\
  (forall (slot' pl : Z), slot' <> slot \/ pl < 0 \/ B <= pl ->
     write_planes B mem slot framebuf brightness !! (slot', pl) = mem !! (slot', pl)).
Proof.
  split.
  - intros pl Hpl. eexists. split; [apply write_planes_lookup; exact Hpl |].
    rewrite plane_words_length. split; reflexivity.
  - intros slot' pl Hout. apply write_planes_untouched. exact Hout.
Qed.

(** Bit [m] of a byte, for [m] among the top [B] bits, is a bit of the byte
    shifted down by [8 - B]. *)
Lemma top_bits_agree B v1 v2 m :
  B <= 8 -> 8 - B <= m ->
  v1 / 2 ^ (8 - B) = v2 / 2 ^ (8 - B) ->
  Z.testbit v1 m = Z.testbit v2 m.
Proof.
  intros HB Hm Heq.
  replace m with (m - (8 - B) + (8 - B)) by lia.
  rewrite <- !Z.shiftr_spec by lia.
  rewrite !Z.shiftr_div_pow2 by lia. rewrite Heq. reflexivity.
Qed.

Lemma getPixel_top_bits B fb1 fb2 x y m k :
  B <= 8 -> 8 - B <= m < 8 -> k = 0 \/ k = 8 \/ k = 16 ->
  (forall i, byte_at fb1 i / 2 ^ (8 - B) = byte_at fb2 i / 2 ^ (8 - B)) ->
  Z.testbit (getPixel fb1 x y) (k + m) = Z.testbit (getPixel fb2 x y) (k + m).
Proof.
  intros HB Hm Hk Hsame.
  destruct (getPixel_bits fb1 x y m ltac:(lia)) as (R1 & G1 & B1).
  destruct (getPixel_bits fb2 x y m ltac:(lia)) as (R2 & G2 & B2).
  destruct Hk as [-> | [-> | ->]].
  - rewrite Z.add_0_l, B1, B2. apply (top_bits_agree B); [lia | lia | apply Hsame].
  - rewrite G1, G2. apply (top_bits_agree B); [lia | lia | apply Hsame].
  - rewrite R1, R2. apply (top_bits_agree B); [lia | lia | apply Hsame].
Qed.

Lemma pixel_word_top_bits B fb1 fb2 brightness pl y x :
  0 <= pl < B -> B <= 8 ->
  (forall i, byte_at fb1 i / 2 ^ (8 - B) = byte_at fb2 i / 2 ^ (8 - B)) ->
  pixel_word B fb1 brightness pl y x = pixel_word B fb2 brightness pl y x.
Proof.
  intros Hpl HB Hsame. apply Z.bits_inj'. intros k Hk.
  destruct (Z_lt_le_dec k 16) as [Hlow | Hhigh].
  - rewrite !pixel_word_spec by lia. cbv zeta.
    rewrite (getPixel_top_bits B fb1 fb2 x y (8 - B + pl) 16) by (auto; lia).
    rewrite (getPixel_top_bits B fb1 fb2 x y (8 - B + pl) 8) by (auto; lia).
    rewrite (getPixel_top_bits B fb1 fb2 x (wrap_uint32 (y + 16)) (8 - B + pl) 16)
      by (auto; lia).
    rewrite (getPixel_top_bits B fb1 fb2 x (wrap_uint32 (y + 16)) (8 - B + pl) 8)
      by (auto; lia).
    pose proof (getPixel_top_bits B fb1 fb2 x y (8 - B + pl) 0
                  HB ltac:(lia) ltac:(auto) Hsame) as E1.
    pose proof (getPixel_top_bits B fb1 fb2 x (wrap_uint32 (y + 16)) (8 - B + pl) 0
                  HB ltac:(lia) ltac:(auto) Hsame) as E2.
    rewrite Z.add_0_l in E1, E2. rewrite E1, E2. reflexivity.
  - rewrite !pixel_word_high_bits by exact Hhigh. reflexivity.
Qed.

Lemma bind_pointwise {A} (g1 g2 : Z -> list A) (l : list Z) :
  (forall y, g1 y = g2 y) -> l ≫= g1 = l ≫= g2.
Proof.
  intros Hg. induction l as [| y l IH]; [reflexivity |].
  rewrite !bind_cons, Hg, IH. reflexivity.
Qed.

Lemma plane_words_top_bits B fb1 fb2 brightness pl :
  0 <= pl < B -> B <= 8 ->
  (forall i, byte_at fb1 i / 2 ^ (8 - B) = byte_at fb2 i / 2 ^ (8 - B)) ->
  plane_words B fb1 brightness pl = plane_words B fb2 brightness pl.
Proof.
  intros Hpl HB Hsame. unfold plane_words.
  apply bind_pointwise. intros y. apply bind_pointwise. intros x.
  f_equal. apply pixel_word_top_bits; assumption.
Qed.

(** X4: the encoder looks at the top [BITPLANE_CNT] bits of every colour
    byte only: two frame buffers that agree on these bits (their bytes
    divided by [2^(8 - BITPLANE_CNT)] are equal) are encoded to the same
    bit-plane memory. *)
Theorem X4_low_channel_bits_are_dropped (B : Z) (mem : gmap (Z * Z) (list Z))
    (slot : Z) fb1 fb2 brightness :
  B <= 8 ->
  (forall i, byte_at fb1 i / 2 ^ (8 - B) = byte_at fb2 i / 2 ^ (8 - B)) ->
  write_planes B mem slot fb1 brightness = write_planes B mem slot fb2 brightness.
Proof.
  intros HB Hsame. unfold write_planes.
  assert (forall q, q ∈ seqZ 0 B -> 0 <= q < B) as Hrange
    by (intros q Hq; apply elem_of_seqZ in Hq; lia).
  revert mem Hrange. generalize (seqZ 0 B) as planes.
  induction planes as [| q planes IH]; intros mem Hrange; [reflexivity |].
  simpl.
  rewrite (plane_words_top_bits B fb1 fb2 brightness q) by
    (try assumption; apply Hrange; left).
  apply IH. intros q' Hq'. apply Hrange. right. exact Hq'.
Qed.

Lemma X4_low_channel_bits_are_dropped_witness :
  write_planes 7 ∅ 0 nearly_black_frame 16 = write_planes 7 ∅ 0 black_frame 16.
Proof.
  apply (X4_low_channel_bits_are_dropped 7 ∅ 0 nearly_black_frame black_frame 16).
  - lia.
  - intros i. unfold byte_at, nearly_black_frame.
    destruct (Z.to_nat i) as [| n]; [reflexivity |].
    rewrite !nth_lookup, list_lookup_insert_ne by lia. reflexivity.
Defined.

(** ** Brightness over one lap of the ring *)

(** A number below [2^n] is the sum of its bits. *)
Lemma sum_of_bits n v :
  0 <= v < 2 ^ Z.of_nat n ->
  sum_to n (fun p => 2 ^ p * Z.b2z (Z.testbit v p)) = v.
Proof.
  revert v. induction n as [| n IH]; intros v Hv.
  - simpl in *. lia.
  - cbn [sum_to]. rewrite Nat2Z.inj_succ, Z.pow_succ_r in Hv by lia.
    assert (0 < 2 ^ Z.of_nat n) as Hpos by (apply Z.pow_pos_nonneg; lia).
    rewrite (sum_to_ext n _ (fun p => 2 ^ p * Z.b2z (Z.testbit (v mod 2 ^ Z.of_nat n) p))).
    + rewrite IH by (apply Z.mod_pos_bound; exact Hpos).
      rewrite (Z.testbit_spec' v (Z.of_nat n)) by lia.
      assert (v / 2 ^ Z.of_nat n < 2) as Hq by (apply Z.div_lt_upper_bound; lia).
      assert (0 <= v / 2 ^ Z.of_nat n) as Hq0 by (apply Z.div_pos; lia).
      rewrite (Z.mod_small (v / 2 ^ Z.of_nat n) 2) by lia.
      pose proof (Z.div_mod v (2 ^ Z.of_nat n) ltac:(lia)). lia.
    + intros j Hj. rewrite Z.mod_pow2_bits_low by lia. reflexivity.
Qed.

Lemma sum_to_weight n f p w :
  0 <= p < Z.of_nat n ->
  sum_to n (fun j => f j + (if j =? p then w else 0)) = sum_to n f + w.
Proof.
  induction n as [| n IH]; intros Hp; [lia |].
  cbn [sum_to].
  destruct (Z.eqb_spec (Z.of_nat n) p) as [Heq | Hne].
  - rewrite (sum_to_ext n _ f); [lia |].
    intros j Hj. rewrite (proj2 (Z.eqb_neq j p)) by lia. lia.
  - rewrite IH by lia. lia.
Qed.

(** A sum over the slots of an ordering, plane by plane. *)
Lemma sum_over_order n (f : Z -> Z) (order : list Z) :
  Forall (fun p => 0 <= p < Z.of_nat n) order ->
  foldr (fun ch acc => f ch + acc) 0 order
  = sum_to n (fun p => occurrences p order * f p).
Proof.
  induction 1 as [| q order Hq _ IH].
  - simpl. rewrite (sum_to_ext n _ (fun _ => 0 * 0)) by (intros; reflexivity).
    induction n as [| n IHn]; cbn [sum_to]; lia.
  - cbn [foldr]. rewrite IH. symmetry.
    rewrite (sum_to_ext n (fun p => occurrences p (q :: order) * f p)
               (fun p => occurrences p order * f p + (if p =? q then f q else 0))).
    + rewrite sum_to_weight by exact Hq. lia.
    + intros j _. rewrite occurrences_cons.
      destruct (Z.eqb_spec j q) as [-> | Hne]; ring.
Qed.

(** Data bit [k] of the word of plane [pl] is bit [8 - B + pl] of the
    source byte behind it. *)
Lemma pixel_word_data_bit B framebuf brightness pl y x k :
  0 <= 8 - B + pl < 8 -> 0 <= y < 16 -> 0 <= k < 6 ->
  Z.testbit (pixel_word B framebuf brightness pl y x) k
  = Z.testbit (channel_at framebuf x y k) (8 - B + pl).
Proof.
  intros Hm Hy Hk.
  destruct (getPixel_bits framebuf x y (8 - B + pl) Hm) as (R1 & G1 & B1).
  destruct (getPixel_bits framebuf x (wrap_uint32 (y + 16)) (8 - B + pl) Hm)
    as (R2 & G2 & B2).
  rewrite (wrap_uint32_small (y + 16)) in R2, G2, B2 by lia.
  rewrite pixel_word_spec by lia. rewrite line_bits_spec. cbv zeta.
  rewrite (wrap_uint32_small (y + 16)) by lia.
  rewrite R1, G1, B1, R2, G2, B2.
  unfold channel_at, DISPLAY_HEIGHT.
  assert (k = 0 \/ k = 1 \/ k = 2 \/ k = 3 \/ k = 4 \/ k = 5)
    as [-> | [-> | [-> | [-> | [-> | ->]]]]] by lia;
    cbn [Z.eqb Pos.eqb];
    rewrite ?andb_false_r, ?orb_false_r, ?andb_true_r, ?orb_false_l;
    f_equal; f_equal; change (32 / 2) with 16;
    match goal with |- context [?a / 3] => change (a / 3) with 0 || change (a / 3) with 1 end;
    match goal with |- context [?a mod 3] =>
      change (a mod 3) with 0 || change (a mod 3) with 1 || change (a mod 3) with 2 end;
    lia.
Qed.

Lemma byte_at_range framebuf i : 0 <= byte_at framebuf i < 256.
Proof. unfold byte_at. apply byte_val_range. Qed.

(** One lap of the ring shows a data bit lit in as many slots as the top
    [B] bits of its source byte say. *)
Lemma lap_lights_top_bits B framebuf brightness y x k :
  1 <= B <= 8 -> 0 <= y < 16 -> 0 <= k < 6 ->
  lit_slots (bitplane_order B) (fun ch => pixel_word B framebuf brightness ch y x) k
  = channel_at framebuf x y k / 2 ^ (8 - B).
Proof.
  intros HB Hy Hk.
  destruct (bitplane_order_shares B (proj1 HB)) as (_ & Hall & Hshare).
  set (v := channel_at framebuf x y k).
  assert (0 <= v < 256) as Hv by (subst v; unfold channel_at; apply byte_at_range).
  unfold lit_slots.
  rewrite (sum_over_order (Z.to_nat B)
             (fun ch => Z.b2z (Z.testbit (pixel_word B framebuf brightness ch y x) k)))
    by (rewrite Z2Nat.id by lia; exact Hall).
  rewrite (sum_to_ext _ _ (fun p => 2 ^ p * Z.b2z (Z.testbit (v / 2 ^ (8 - B)) p))).
  - apply sum_of_bits. rewrite Z2Nat.id by lia.
    assert (0 < 2 ^ (8 - B)) as Hpos by (apply Z.pow_pos_nonneg; lia).
    split; [apply Z.div_pos; lia |].
    apply Z.div_lt_upper_bound; [exact Hpos |].
    rewrite <- Z.pow_add_r by lia. replace (8 - B + B) with 8 by lia. lia.
  - intros p Hp. rewrite Z2Nat.id in Hp by lia.
    rewrite Hshare by exact Hp.
    rewrite pixel_word_data_bit by lia. fold v.
    rewrite <- Z.shiftr_div_pow2, Z.shiftr_spec by lia.
    do 3 f_equal. lia.
Qed.

(** X5: binary code modulation adds up.  For each of the six data bits of
    a pixel position, the number of slots of one ring lap in which the words
    shown have that bit set is the value of the source byte with its low
    [8 - BITPLANE_CNT] bits dropped: a colour byte of value [v] lights its
    LED in [v / 2^(8 - BITPLANE_CNT)] of the [2^BITPLANE_CNT - 1] slots.
    The source byte [c] is the byte of the frame buffer behind the data
    bit: bits 0, 1, 2 are red, green, blue of the pixel at [x], [y], bits
    3, 4, 5 those of the pixel half a panel further down. *)
Theorem X5_lap_brightness_is_channel_value (B : Z) (mem : gmap (Z * Z) (list Z))
    (slot : Z) (framebuf : list byte) brightness y x k (c : byte) :
  1 <= B <= 8 -> 0 <= y < 16 -> 0 <= x < DISPLAY_WIDTH -> 0 <= k < 6 ->
  framebuf !! Z.to_nat ((x + (y + DISPLAY_HEIGHT / 2 * (k / 3)) * DISPLAY_WIDTH) * 3
                        + k mod 3) = Some c ->
  (forall ch, 0 <= ch < B ->
     word_at (write_planes B mem slot framebuf brightness) slot ch y x
     = Some (pixel_word B framebuf brightness ch y x)) /\
  Z.of_nat (length (bitplane_order B)) = 2 ^ B - 1 /\
  lit_slots (bitplane_order B) (fun ch => pixel_word B framebuf brightness ch y x) k
  = Z.of_N (Byte.to_N c) / 2 ^ (8 - B).
Proof.
  intros HB Hy Hx Hk Hc. split; [| split].
  - intros ch Hch. apply written_word; assumption.
  - apply (bitplane_order_shares B (proj1 HB)).
  - rewrite lap_lights_top_bits by assumption.
    unfold channel_at, byte_at, byte_val.
    rewrite (nth_lookup_Some _ _ Byte.x00 _ Hc). reflexivity.
Qed.

Lemma X5_lap_brightness_is_channel_value_witness :
  (forall ch, 0 <= ch < 7 ->
     word_at (write_planes 7 ∅ 0 sample_frame 16) 0 ch 3 5
     = Some (pixel_word 7 sample_frame 16 ch 3 5)) /\
  Z.of_nat (length (bitplane_order 7)) = 2 ^ 7 - 1 /\
  lit_slots (bitplane_order 7) (fun ch => pixel_word 7 sample_frame 16 ch 3 5) 2 = 100.
Proof.
  change 100 with (Z.of_N (Byte.to_N Byte.xc8) / 2 ^ (8 - 7)).
  apply (X5_lap_brightness_is_channel_value 7 ∅ 0 sample_frame 16 3 5 2 Byte.xc8).
  - lia.
  - lia.
  - unfold DISPLAY_WIDTH. lia.
  - lia.
  - vm_compute. reflexivity.
Defined.

(** ** More on the buffer flip *)

Lemma store_next_at h p n q arr d :
  h !! p = Some arr -> arr !! n = Some d ->
  store_next h p (Z.of_nat n) q = Done (<[p := <[n := set_stqe_next q d]> arr]> h).
Proof.
  intros Hp Hd. unfold store_next. rewrite Hp.
  rewrite (update_in_bounds _ _ d) by exact Hd. reflexivity.
Qed.

(** The state a flip returns, written out, when the two rings are in
    different arrays. *)
Lemma flip_result m dev st s ra rb da db :
  i2s_state m !! i2snum dev = Some st ->
  0 < desccount_a st -> 0 < desccount_b st ->
  dmadesc_a st <> dmadesc_b st ->
  heap m !! dmadesc_a st = Some ra -> heap m !! dmadesc_b st = Some rb ->
  ra !! Z.to_nat (desccount_a st - 1) = Some da ->
  rb !! Z.to_nat (desccount_b st - 1) = Some db ->
  i2s_parallel_flip_to_buffer m dev s
  = Done {| i2s_state := i2s_state m;
            heap := <[dmadesc_b st :=
                        <[Z.to_nat (desccount_b st - 1) := set_stqe_next (selected_head st s) db]> rb]>
                      (<[dmadesc_a st :=
                           <[Z.to_nat (desccount_a st - 1) := set_stqe_next (selected_head st s) da]> ra]>
                         (heap m)) |}.
Proof.
  intros Hst Ha Hb Hne Hra Hrb Hda Hdb.
  unfold i2s_parallel_flip_to_buffer. rewrite Hst.
  rewrite (proj2 (Z.leb_gt _ _)) by lia.
  replace (if s =? 0 then DescPtr (dmadesc_a st) 0 else DescPtr (dmadesc_b st) 0)
    with (selected_head st s) by (unfold selected_head; destruct (s =? 0); reflexivity).
  cbv zeta.
  replace (desccount_a st - 1) with (Z.of_nat (Z.to_nat (desccount_a st - 1))) at 1 by lia.
  rewrite (store_next_at _ _ _ _ ra da Hra Hda).
  change (Done ?x ≫= ?k) with (k x). cbv beta.
  replace (desccount_b st - 1) with (Z.of_nat (Z.to_nat (desccount_b st - 1))) at 1 by lia.
  rewrite (store_next_at _ _ _ _ rb db); [reflexivity | | exact Hdb].
  rewrite lookup_insert_ne by exact Hne. exact Hrb.
Qed.

Lemma double_buffered_tails m dev st :
  double_buffered m dev st ->
  exists ra rb da db,
    heap m !! dmadesc_a st = Some ra /\ heap m !! dmadesc_b st = Some rb /\
    Z.of_nat (length ra) = desccount_a st /\ Z.of_nat (length rb) = desccount_b st /\
    ra !! Z.to_nat (desccount_a st - 1) = Some da /\
    rb !! Z.to_nat (desccount_b st - 1) = Some db.
Proof.
  intros (_ & Ha & Hb & (ra & Hra & Hla) & (rb & Hrb & Hlb)).
  destruct (lookup_lt_is_Some_2 ra (Z.to_nat (desccount_a st - 1))) as [da Hda]; [lia |].
  destruct (lookup_lt_is_Some_2 rb (Z.to_nat (desccount_b st - 1))) as [db Hdb]; [lia |].
  exists ra, rb, da, db. repeat split; assumption.
Qed.

(** X6: a flip writes two next-references and nothing else.  The driver's
    state record, every array other than the two rings, the length of both
    rings and every descriptor but the two tails are as before; in a tail
    only the next-reference changes: address, length, owner and flags
    stay. *)
Theorem X6_flip_changes_only_the_tail_links m dev st s :
  double_buffered m dev st -> dmadesc_a st <> dmadesc_b st ->
  exists m' ra rb ra' rb',
    i2s_parallel_flip_to_buffer m dev s = Done m' /\
    i2s_state m' = i2s_state m /\
    (forall p, p <> dmadesc_a st -> p <> dmadesc_b st -> heap m' !! p = heap m !! p) /\
    heap m !! dmadesc_a st = Some ra /\ heap m' !! dmadesc_a st = Some ra' /\
    heap m !! dmadesc_b st = Some rb /\ heap m' !! dmadesc_b st = Some rb' /\
    length ra' = length ra /\ length rb' = length rb /\
    (forall i, i <> Z.to_nat (desccount_a st - 1) -> ra' !! i = ra !! i) /\
    (forall i, i <> Z.to_nat (desccount_b st - 1) -> rb' !! i = rb !! i) /\
    (forall i d, ra !! i = Some d ->
       exists d', ra' !! i = Some d' /\ d' = set_stqe_next (stqe_next d') d) /\
    (forall i d, rb !! i = Some d ->
       exists d', rb' !! i = Some d' /\ d' = set_stqe_next (stqe_next d') d).
Proof.
  intros Hdb Hne.
  destruct (double_buffered_tails m dev st Hdb)
    as (ra & rb & da & db & Hra & Hrb & Hla & Hlb & Hda & Hdbl).
  destruct Hdb as (Hst & Ha & Hb & _).
  eexists. exists ra, rb. do 2 eexists.
  split; [apply (flip_result m dev st s ra rb da db); assumption |].
  cbn [i2s_state heap].
  assert (forall (r : list lldesc_t) t q dt i d,
            r !! t = Some dt -> r !! i = Some d ->
            exists d', <[t := set_stqe_next q dt]> r !! i = Some d' /\
                       d' = set_stqe_next (stqe_next d') d) as Hfield.
  { intros r t q dt i d Ht Hi. destruct (decide (t = i)) as [<- | Hti].
    - eexists. split; [apply list_lookup_insert_eq; eapply lookup_lt_Some; exact Ht |].
      rewrite Ht in Hi. injection Hi as <-. reflexivity.
    - exists d. rewrite list_lookup_insert_ne by exact Hti.
      split; [exact Hi | destruct d; reflexivity]. }
  split; [reflexivity |]. split; [| split; [exact Hra | split; [| split; [exact Hrb | split]]]].
  - intros p Hpa Hpb. rewrite !lookup_insert_ne by congruence. reflexivity.
  - rewrite lookup_insert_ne by congruence. apply lookup_insert_eq.
  - apply lookup_insert_eq.
  - split; [apply length_insert |]. split; [apply length_insert |].
    split; [intros i Hi; apply list_lookup_insert_ne; congruence |].
    split; [intros i Hi; apply list_lookup_insert_ne; congruence |].
    split; intros i d Hi; apply Hfield; assumption.
Qed.

Lemma X6_flip_changes_only_the_tail_links_witness :
  exists m' ra rb ra' rb',
    i2s_parallel_flip_to_buffer sample_driver I2S1 1 = Done m' /\
    i2s_state m' = i2s_state sample_driver /\
    (forall p, p <> dmadesc_a sample_state -> p <> dmadesc_b sample_state ->
       heap m' !! p = heap sample_driver !! p) /\
    heap sample_driver !! dmadesc_a sample_state = Some ra /\
    heap m' !! dmadesc_a sample_state = Some ra' /\
    heap sample_driver !! dmadesc_b sample_state = Some rb /\
    heap m' !! dmadesc_b sample_state = Some rb' /\
    length ra' = length ra /\ length rb' = length rb /\
    (forall i, i <> Z.to_nat (desccount_a sample_state - 1) -> ra' !! i = ra !! i) /\
    (forall i, i <> Z.to_nat (desccount_b sample_state - 1) -> rb' !! i = rb !! i) /\
    (forall i d, ra !! i = Some d ->
       exists d', ra' !! i = Some d' /\ d' = set_stqe_next (stqe_next d') d) /\
    (forall i d, rb !! i = Some d ->
       exists d', rb' !! i = Some d' /\ d' = set_stqe_next (stqe_next d') d).
Proof.
  apply (X6_flip_changes_only_the_tail_links sample_driver I2S1 sample_state 1).
  - unfold double_buffered. simpl.
    split; [reflexivity |]. split; [lia |]. split; [lia |].
    split; eexists; (split; [reflexivity | reflexivity]).
  - simpl. lia.
Defined.

Lemma flip_keeps_double_buffered m dev st s ra rb da db :
  double_buffered m dev st -> dmadesc_a st <> dmadesc_b st ->
  heap m !! dmadesc_a st = Some ra -> heap m !! dmadesc_b st = Some rb ->
  double_buffered
    {| i2s_state := i2s_state m;
       heap := <[dmadesc_b st :=
                   <[Z.to_nat (desccount_b st - 1) := set_stqe_next (selected_head st s) db]> rb]>
                 (<[dmadesc_a st :=
                      <[Z.to_nat (desccount_a st - 1) := set_stqe_next (selected_head st s) da]> ra]>
                    (heap m)) |} dev st.
Proof.
  intros (Hst & Ha & Hb & (ra0 & Hra0 & Hla) & (rb0 & Hrb0 & Hlb)) Hne Hra Hrb.
  rewrite Hra in Hra0. injection Hra0 as <-.
  rewrite Hrb in Hrb0. injection Hrb0 as <-.
  unfold double_buffered. cbn [i2s_state heap].
  split; [exact Hst |]. split; [exact Ha |]. split; [exact Hb |]. split.
  - eexists. split.
    + rewrite lookup_insert_ne by congruence. apply lookup_insert_eq.
    + rewrite length_insert. exact Hla.
  - eexists. split; [apply lookup_insert_eq |].
    rewrite length_insert. exact Hlb.
Qed.

(** X7: the last flip wins.  A flip keeps the driver double-buffered, so
    flips can follow one another; flipping to [s1] and then to [s2] leaves
    the driver in exactly the state a single flip to [s2] gives.  With
    [s1 = s2]: flipping twice to the same buffer is flipping once. *)
Theorem X7_last_flip_wins m dev st s1 s2 :
  double_buffered m dev st -> dmadesc_a st <> dmadesc_b st ->
  exists m1 m2,
    i2s_parallel_flip_to_buffer m dev s1 = Done m1 /\
    double_buffered m1 dev st /\
    i2s_parallel_flip_to_buffer m1 dev s2 = Done m2 /\
    i2s_parallel_flip_to_buffer m dev s2 = Done m2.
Proof.
  intros Hdb Hne.
  destruct (double_buffered_tails m dev st Hdb)
    as (ra & rb & da & db & Hra & Hrb & Hla & Hlb & Hda & Hdbl).
  pose proof Hdb as (Hst & Ha & Hb & _).
  do 2 eexists.
  split; [apply (flip_result m dev st s1 ra rb da db); assumption |].
  split; [apply flip_keeps_double_buffered; assumption |].
  split.
  - apply (flip_result _ dev st s2
             (<[Z.to_nat (desccount_a st - 1) := set_stqe_next (selected_head st s1) da]> ra)
             (<[Z.to_nat (desccount_b st - 1) := set_stqe_next (selected_head st s1) db]> rb)
             (set_stqe_next (selected_head st s1) da)
             (set_stqe_next (selected_head st s1) db)); cbn [i2s_state heap];
      try assumption.
    + rewrite lookup_insert_ne by congruence. apply lookup_insert_eq.
    + apply lookup_insert_eq.
    + apply list_lookup_insert_eq. lia.
    + apply list_lookup_insert_eq. lia.
  - rewrite (flip_result m dev st s2 ra rb da db) by assumption.
    do 2 f_equal. symmetry. cbn [heap].
    rewrite !list_insert_insert_eq.
    rewrite (insert_insert_ne _ (dmadesc_a st) (dmadesc_b st)) by exact Hne.
    rewrite !insert_insert_eq.
    reflexivity.
Qed.

Lemma X7_last_flip_wins_witness :
  exists m1 m2,
    i2s_parallel_flip_to_buffer sample_driver I2S1 1 = Done m1 /\
    double_buffered m1 I2S1 sample_state /\
    i2s_parallel_flip_to_buffer m1 I2S1 0 = Done m2 /\
    i2s_parallel_flip_to_buffer sample_driver I2S1 0 = Done m2.
Proof.
  apply (X7_last_flip_wins sample_driver I2S1 sample_state 1 0).
  - unfold double_buffered. simpl.
    split; [reflexivity |]. split; [lia |]. split; [lia |].
    split; eexists; (split; [reflexivity | reflexivity]).
  - simpl. lia.
Defined.

Lemma linked_in_order_tail_write p (r : list lldesc_t) x :
  linked_in_order p r -> linked_in_order p (<[(length r - 1)%nat := x]> r).
Proof.
  intros Hl i d Hd Hi. rewrite length_insert in Hi.
  rewrite list_lookup_insert_ne in Hd by lia. apply (Hl i d Hd Hi).
Qed.

(** In an array linked in order whose tail points to [q], the walk from
    element [i] leaves the array after the remaining elements, at [q]. *)
Lemma walk_to_tail_target h p (r : list lldesc_t) d q :
  h !! p = Some r -> linked_in_order p r ->
  r !! (length r - 1)%nat = Some d -> stqe_next d = q ->
  forall k i, (i + S k = length r)%nat ->
    heap_follow h (S k) (DescPtr p (Z.of_nat i)) = Some q.
Proof.
  intros Hp Hl Hd Hq.
  assert (forall i e, r !! i = Some e ->
            heap_next h (DescPtr p (Z.of_nat i)) = Some (stqe_next e)) as Hnext.
  { intros i e He. pose proof (lookup_lt_Some _ _ _ He) as Hi.
    unfold heap_next. cbn [p_block p_index]. rewrite Hp. simpl.
    unfold in_bounds.
    rewrite (proj2 (Z.leb_le 0 _)) by lia.
    rewrite (proj2 (Z.ltb_lt _ _)) by lia.
    simpl. rewrite Nat2Z.id, He. reflexivity. }
  induction k as [| k IH]; intros i Hi.
  - cbn [heap_follow]. replace i with (length r - 1)%nat by lia.
    rewrite (Hnext _ d Hd). simpl. rewrite Hq. reflexivity.
  - destruct (lookup_lt_is_Some_2 r i) as [e He]; [lia |].
    cbn [heap_follow]. rewrite (Hnext i e He).
    rewrite (Hl i e He) by lia.
    change (Some ?v ≫= ?f) with (f v). cbv beta.
    apply IH. lia.
Qed.

(** X8: the hand-off.  After a flip to slot [s], following the
    next-references from any descriptor of either ring leads, at the end of
    that ring, to the head of the ring [s] selects: from descriptor [i] of a
    ring of [n] descriptors after [n - i] steps.  The selected ring is closed
    on itself, the other ring runs into it.  The rings stay chained, so this
    holds after every later flip as well. *)
Theorem X8_every_walk_arrives_at_the_selected_ring m dev st s :
  chained m dev st ->
  exists m',
    i2s_parallel_flip_to_buffer m dev s = Done m' /\
    chained m' dev st /\
    (forall i, 0 <= i < desccount_a st ->
       heap_follow (heap m') (Z.to_nat (desccount_a st - i)) (DescPtr (dmadesc_a st) i)
       = Some (selected_head st s)) /\
    (forall i, 0 <= i < desccount_b st ->
       heap_follow (heap m') (Z.to_nat (desccount_b st - i)) (DescPtr (dmadesc_b st) i)
       = Some (selected_head st s)).
Proof.
  intros (Hdb & Hne & (ra0 & Hra0 & Hlink_a) & (rb0 & Hrb0 & Hlink_b)).
  destruct (double_buffered_tails m dev st Hdb)
    as (ra & rb & da & db & Hra & Hrb & Hla & Hlb & Hda & Hdbl).
  rewrite Hra in Hra0. injection Hra0 as <-.
  rewrite Hrb in Hrb0. injection Hrb0 as <-.
  pose proof Hdb as (Hst & Ha & Hb & _).
  set (q := selected_head st s).
  set (ra' := <[Z.to_nat (desccount_a st - 1) := set_stqe_next q da]> ra).
  set (rb' := <[Z.to_nat (desccount_b st - 1) := set_stqe_next q db]> rb).
  set (h' := <[dmadesc_b st := rb']> (<[dmadesc_a st := ra']> (heap m))).
  assert (h' !! dmadesc_a st = Some ra') as Hra'
    by (subst h'; rewrite lookup_insert_ne by congruence; apply lookup_insert_eq).
  assert (h' !! dmadesc_b st = Some rb') as Hrb' by (subst h'; apply lookup_insert_eq).
  assert (Z.to_nat (desccount_a st - 1) = (length ra - 1)%nat) as Hta by lia.
  assert (Z.to_nat (desccount_b st - 1) = (length rb - 1)%nat) as Htb by lia.
  assert (linked_in_order (dmadesc_a st) ra') as Hlink_a'
    by (subst ra'; rewrite Hta; apply linked_in_order_tail_write; exact Hlink_a).
  assert (linked_in_order (dmadesc_b st) rb') as Hlink_b'
    by (subst rb'; rewrite Htb; apply linked_in_order_tail_write; exact Hlink_b).
  exists {| i2s_state := i2s_state m; heap := h' |}.
  split; [apply (flip_result m dev st s ra rb da db); assumption |].
  split; [| split].
  - split; [apply flip_keeps_double_buffered; assumption |].
    split; [exact Hne |]. cbn [heap]. split; eexists; split; eassumption.
  - intros i Hi. cbn [heap].
    replace (Z.to_nat (desccount_a st - i)) with (S (Z.to_nat (desccount_a st - i - 1))) by lia.
    replace i with (Z.of_nat (Z.to_nat i)) at 2 by lia.
    apply (walk_to_tail_target h' _ ra' (set_stqe_next q da) q Hra' Hlink_a').
    + subst ra'. rewrite length_insert, Hta. apply list_lookup_insert_eq. lia.
    + reflexivity.
    + subst ra'. rewrite length_insert. lia.
  - intros i Hi. cbn [heap].
    replace (Z.to_nat (desccount_b st - i)) with (S (Z.to_nat (desccount_b st - i - 1))) by lia.
    replace i with (Z.of_nat (Z.to_nat i)) at 2 by lia.
    apply (walk_to_tail_target h' _ rb' (set_stqe_next q db) q Hrb' Hlink_b').
    + subst rb'. rewrite length_insert, Htb. apply list_lookup_insert_eq. lia.
    + reflexivity.
    + subst rb'. rewrite length_insert. lia.
Qed.

Lemma X8_every_walk_arrives_at_the_selected_ring_witness :
  exists m',
    i2s_parallel_flip_to_buffer sample_driver I2S1 1 = Done m' /\
    chained m' I2S1 sample_state /\
    (forall i, 0 <= i < desccount_a sample_state ->
       heap_follow (heap m') (Z.to_nat (desccount_a sample_state - i))
         (DescPtr (dmadesc_a sample_state) i)
       = Some (selected_head sample_state 1)) /\
    (forall i, 0 <= i < desccount_b sample_state ->
       heap_follow (heap m') (Z.to_nat (desccount_b sample_state - i))
         (DescPtr (dmadesc_b sample_state) i)
       = Some (selected_head sample_state 1)).
Proof.
  apply (X8_every_walk_arrives_at_the_selected_ring sample_driver I2S1 sample_state 1).
  unfold chained, double_buffered. simpl.
  split; [| split; [lia | split]].
  - split; [reflexivity |]. split; [lia |]. split; [lia |].
    split; eexists; (split; [reflexivity | reflexivity]).
  - eexists. split; [reflexivity |].
    intros [| [| i]] d Hd Hi; simpl in *; try lia.
    injection Hd as <-. reflexivity.
  - eexists. split; [reflexivity |].
    intros [| i] d Hd Hi; simpl in *; lia.
Defined.

(** ** More on the chain builder *)

Lemma chunks_of_0 addr : chunks_of addr 0 = [].
Proof. reflexivity. Qed.

Lemma chunks_of_step addr len :
  0 < len ->
  chunks_of addr len
  = (addr, Z.min DMA_MAX len)
      :: chunks_of (addr + Z.min DMA_MAX len) (len - Z.min DMA_MAX len).
Proof.
  intros Hlen. unfold chunks_of at 1.
  destruct (Z_lt_le_dec DMA_MAX len) as [Hbig | Hsmall].
  - rewrite Z.min_l by lia.
    rewrite (descs_for_big len Hbig).
    pose proof (descs_for_nonneg (len - DMA_MAX) ltac:(lia)) as Hk.
    rewrite seqZ_cons by lia. cbn [fmap list_fmap].
    f_equal; [f_equal; lia |].
    replace (Z.pred (descs_for (len - DMA_MAX) + 1)) with (descs_for (len - DMA_MAX)) by lia.
    change (Z.succ 0) with (1 + 0). rewrite <- fmap_add_seqZ.
    unfold chunks_of. rewrite <- list_fmap_compose.
    apply list_fmap_ext. intros _ k _. simpl. f_equal; [lia | f_equal; lia].
  - rewrite Z.min_r by lia. rewrite descs_for_small by lia.
    rewrite Z.sub_diag, chunks_of_0. simpl. f_equal. f_equal; lia.
Qed.

(** The [while] loop writes the chunks of its segment, in order. *)
Lemma fill_while_layout b len :
  0 <= len ->
  forall data n, 0 <= data -> data + len <= 2 ^ 32 ->
    exists news,
      chunk <$> news = chunks_of data len /\
      forall arr, (n + length news <= length arr)%nat ->
        fill_while b len data (Z.of_nat n) arr
        = Done (Z.of_nat (n + length news), splice arr n news).
Proof.
  intros Hlen. pattern len. apply Zlt_0_ind; [| exact Hlen].
  clear len Hlen. intros len IH Hlen data n Hdata Hend.
  destruct (Z.eq_dec len 0) as [-> | Hne].
  - exists []. split; [reflexivity |].
    intros arr _. rewrite fill_while_unfold. simpl.
    rewrite Nat.add_0_r, splice_nil. reflexivity.
  - set (dmalen := if DMA_MAX <? len then DMA_MAX else len).
    assert (dmalen = Z.min DMA_MAX len) as Hmin
      by (subst dmalen; destruct (Z.ltb_spec DMA_MAX len); lia).
    assert (0 < dmalen <= DMA_MAX /\ 0 <= len - dmalen < len) as (Hd & Hrest)
      by (unfold DMA_MAX in *; lia).
    destruct (IH (len - dmalen) Hrest (wrap_uint32 (data + dmalen)) (S n))
      as (news & Hchunks & Hrun).
    { unfold wrap_uint32. apply Z.mod_pos_bound. lia. }
    { destruct (Z.eq_dec (len - dmalen) 0) as [-> | Hmore].
      - pose proof (Z.mod_pos_bound (data + dmalen) (2 ^ 32) ltac:(lia)).
        unfold wrap_uint32. lia.
      - rewrite wrap_uint32_small by lia. lia. }
    set (d := {| ll_size := bitfield 12 dmalen;
                 ll_length := bitfield 12 dmalen;
                 ll_buf := data;
                 ll_eof := 0;
                 ll_sosf := 0;
                 ll_owner := 1;
                 stqe_next := DescPtr b (Z.of_nat n + 1);
                 ll_offset := 0 |}).
    assert (bitfield 12 dmalen = dmalen) as Hbits
      by (apply bitfield_small; unfold DMA_MAX in *; lia).
    exists (d :: news). split.
    + rewrite chunks_of_step by lia. rewrite fmap_cons, Hchunks, <- Hmin.
      f_equal; [unfold chunk; subst d; simpl; rewrite Hbits; reflexivity |].
      destruct (Z.eq_dec (len - dmalen) 0) as [-> | Hmore]; [reflexivity |].
      rewrite wrap_uint32_small by lia. reflexivity.
    + intros arr Harr. simpl in Harr.
      rewrite fill_while_unfold.
      rewrite (proj2 (Z.eqb_neq len 0) Hne).
      cbv zeta. fold dmalen. fold d.
      rewrite store_in_bounds by lia.
      change (Done (<[n:=d]> arr) ≫= ?k) with (k (<[n:=d]> arr)).
      cbv beta.
      replace (Z.of_nat n + 1) with (Z.of_nat (S n)) by lia.
      rewrite Hrun by (rewrite length_insert; lia).
      rewrite splice_cons by lia.
      do 2 f_equal. simpl. lia.
Qed.

Lemma fill_for_layout b segs :
  Forall segment_ok segs -> Forall in_address_space segs ->
  forall n, exists news,
    chunk <$> news = layout segs /\
    forall s post arr, memory s = 0 -> (n + length news <= length arr)%nat ->
      fill_for b (segs ++ s :: post) (Z.of_nat n) arr
      = Done (Z.of_nat (n + length news), splice arr n news).
Proof.
  intros Hok. induction Hok as [| d segs [Hm Hd] Hok IH]; intros Hsp n.
  - exists []. split; [reflexivity |].
    intros s post arr Hs _. simpl. rewrite Hs. simpl.
    rewrite Nat.add_0_r, splice_nil. reflexivity.
  - inversion Hsp as [| ? ? [Hlo Hhi] Hsp']; subst.
    destruct (fill_while_layout b (size d) (proj1 Hd) (memory d) n Hlo Hhi)
      as (news1 & Hchunks1 & Hrun1).
    destruct (IH Hsp' (n + length news1)%nat) as (news2 & Hchunks2 & Hrun2).
    exists (news1 ++ news2). split.
    + unfold layout. rewrite bind_cons, fmap_app, Hchunks1, Hchunks2. reflexivity.
    + intros s post arr Hs Harr. rewrite length_app in Harr.
      simpl. rewrite (proj2 (Z.eqb_neq _ 0) Hm).
      rewrite wrap_int32_small by (unfold INT_MAX in *; lia).
      rewrite Hrun1 by lia.
      change (Done ?x ≫= ?k) with (k x). cbv beta iota.
      rewrite (Hrun2 s post) by (try assumption; rewrite splice_length; lia).
      rewrite splice_app by lia.
      rewrite length_app, Nat.add_assoc. reflexivity.
Qed.

Lemma layout_length segs :
  Forall segment_ok segs -> Z.of_nat (length (layout segs)) = needed segs.
Proof.
  induction 1 as [| d segs [_ Hd] _ IH]; [reflexivity |].
  unfold layout in *. rewrite bind_cons, length_app, Nat2Z.inj_add, IH.
  unfold chunks_of. rewrite length_fmap, length_seqZ.
  pose proof (descs_for_nonneg (size d) (proj1 Hd)).
  cbn [needed foldr]. fold (needed segs). lia.
Qed.

(** The ring built for a list of segments, chunk by chunk. *)
Lemma ring_tiles b segs s post :
  Forall segment_ok segs -> Forall in_address_space segs ->
  needed segs <= INT_MAX -> memory s = 0 ->
  Exists (fun d => size d <> 0) segs ->
  exists ring,
    calc_needed_dma_descs_for (segs ++ s :: post) = Done (needed segs) /\
    (forall arr, length arr = Z.to_nat (needed segs) ->
       fill_dma_desc b arr (segs ++ s :: post) = Done ring) /\
    chunk <$> ring = layout segs /\
    Forall (fun d => ll_size d = ll_length d /\ ll_owner d = 1 /\
                     ll_eof d = 0 /\ ll_sosf d = 0 /\ ll_offset d = 0) ring.
Proof.
  intros Hok Hsp Hmax Hs Hex.
  pose proof (needed_pos segs Hok Hex) as Hpos.
  destruct (fill_dma_desc_spec b segs Hok Hpos)
    as (news & dl & Hlen & Hfresh & _ & Hdl & Hrun).
  destruct (fill_for_layout b segs Hok Hsp 0%nat) as (news' & Hchunks & Hrun').
  assert (news' = news) as ->.
  { assert (length news' = Z.to_nat (needed segs)) as Hlen'.
    { rewrite <- (length_fmap chunk), Hchunks.
      pose proof (layout_length segs Hok). lia. }
    pose (arr := replicate (Z.to_nat (needed segs)) dl).
    assert (length arr = Z.to_nat (needed segs)) as Harr
      by (subst arr; apply length_replicate).
    destruct (Hrun s post arr Hs Harr) as [Hfor _].
    change 0 with (Z.of_nat 0) in Hfor.
    rewrite (Hrun' s post arr Hs) in Hfor by (simpl; lia).
    rewrite splice_all in Hfor by lia.
    injection Hfor as _ Heq. exact Heq. }
  exists (<[(length news - 1)%nat := set_stqe_next (DescPtr b 0) dl]> news).
  split; [| split; [| split]].
  - unfold calc_needed_dma_descs_for.
    rewrite calc_loop_spec by (try assumption; lia). reflexivity.
  - intros arr Harr. apply (Hrun s post arr Hs Harr).
  - rewrite list_fmap_insert.
    rewrite list_insert_id; [exact Hchunks |].
    rewrite list_lookup_fmap, Hdl. reflexivity.
  - apply Forall_lookup. intros i d Hd.
    destruct (decide (i = (length news - 1)%nat)) as [-> | Hne].
    + rewrite list_lookup_insert_eq in Hd by (eapply lookup_lt_Some; exact Hdl).
      injection Hd as <-. pose proof (Hfresh _ _ Hdl) as Hf. simpl.
      destruct Hf. repeat split; assumption.
    + rewrite list_lookup_insert_ne in Hd by congruence.
      destruct (Hfresh _ _ Hd). repeat split; assumption.
Qed.

(** X9: the ring tiles the segments.  The descriptors of the ring built
    for a list of segments are, in order, the chunks of the first segment,
    then those of the second, and so on; chunk [k] of a segment starts
    [k * DMA_MAX] bytes into it and has [DMA_MAX] bytes, the last one what
    is left.  Every descriptor is handed to the hardware ([owner = 1]) with
    [size = length] and without end-of-frame or sub-frame mark, so the ring
    never signals completion. *)
Theorem X9_ring_tiles_the_segments b segs s post :
  Forall segment_ok segs -> Forall in_address_space segs ->
  needed segs <= INT_MAX -> memory s = 0 ->
  Exists (fun d => size d <> 0) segs ->
  exists ring,
    calc_needed_dma_descs_for (segs ++ s :: post) = Done (needed segs) /\
    (forall arr, length arr = Z.to_nat (needed segs) ->
       fill_dma_desc b arr (segs ++ s :: post) = Done ring) /\
    chunk <$> ring = layout segs /\
    Forall (fun d => ll_size d = ll_length d /\ ll_owner d = 1 /\
                     ll_eof d = 0 /\ ll_sosf d = 0 /\ ll_offset d = 0) ring.
Proof. apply ring_tiles. Qed.

Lemma X9_ring_tiles_the_segments_witness :
  exists ring,
    calc_needed_dma_descs_for ([segment 4096 4096; segment 8192 100] ++ end_marker :: [])
    = Done (needed [segment 4096 4096; segment 8192 100]) /\
    (forall arr, length arr = Z.to_nat (needed [segment 4096 4096; segment 8192 100]) ->
       fill_dma_desc 0%nat arr ([segment 4096 4096; segment 8192 100] ++ end_marker :: [])
       = Done ring) /\
    chunk <$> ring = layout [segment 4096 4096; segment 8192 100] /\
    Forall (fun d => ll_size d = ll_length d /\ ll_owner d = 1 /\
                     ll_eof d = 0 /\ ll_sosf d = 0 /\ ll_offset d = 0) ring.
Proof.
  apply (X9_ring_tiles_the_segments 0%nat [segment 4096 4096; segment 8192 100] end_marker []).
  - repeat constructor; simpl; unfold INT_MAX; lia.
  - repeat constructor; simpl; lia.
  - vm_compute. discriminate.
  - reflexivity.
  - apply Exists_cons_hd. simpl. lia.
Defined.

(** ** More on setup *)

Lemma fill_for_nothing b segs :
  Forall (fun d => memory d <> 0 /\ size d = 0) segs ->
  forall s post n arr, memory s = 0 ->
    fill_for b (segs ++ s :: post) n arr = Done (n, arr).
Proof.
  induction 1 as [| d segs [Hm Hz] _ IH]; intros s post n arr Hs; simpl.
  - rewrite Hs. reflexivity.
  - rewrite (proj2 (Z.eqb_neq _ 0) Hm), Hz.
    change (wrap_int32 0) with 0. rewrite fill_while_unfold. simpl.
    apply IH. exact Hs.
Qed.

Lemma calc_loop_nothing segs :
  Forall (fun d => memory d <> 0 /\ size d = 0) segs ->
  forall s post, memory s = 0 -> calc_loop (segs ++ s :: post) 0 = Done 0.
Proof.
  induction 1 as [| d segs [Hm Hz] _ IH]; intros s post Hs; simpl.
  - rewrite Hs. reflexivity.
  - rewrite (proj2 (Z.eqb_neq _ 0) Hm), Hz. apply IH. exact Hs.
Qed.

(** X10: setup without data.  With a first buffer list that has no
    segment, or only segments of length zero, the counting pass returns 0,
    the fill loops write no descriptor and leave [n = 0], and the closing
    statement [dmadesc[n - 1].qe.stqe_next = ...] is a store at index -1:
    outside the descriptor array, whatever the allocator handed out.  This
    is undefined behaviour in C; the embedding records it as [Fault], for
    [fill_dma_desc] and for the setup that calls it. *)
Theorem X10_no_data_closing_store_out_of_bounds m dev segs s post bufb al junk junk_b :
  Forall (fun d => memory d <> 0 /\ size d = 0) segs -> memory s = 0 ->
  calc_needed_dma_descs_for (segs ++ s :: post) = Done 0 /\
  (forall b arr,
     fill_for b (segs ++ s :: post) 0 arr = Done (0, arr) /\
     in_bounds arr (0 - 1) = false /\
     fill_dma_desc b arr (segs ++ s :: post) = Fault) /\
  i2s_parallel_setup m dev {| bufa := segs ++ s :: post; bufb := bufb |} al junk junk_b
  = Fault.
Proof.
  intros Hzero Hs.
  assert (forall b arr, fill_dma_desc b arr (segs ++ s :: post) = Fault) as Hfill.
  { intros b arr. unfold fill_dma_desc.
    rewrite (fill_for_nothing b segs Hzero s post 0 arr Hs).
    change (Done ?x ≫= ?k) with (k x). cbv beta iota.
    apply update_out_of_bounds. lia. }
  split; [apply calc_loop_nothing; assumption |]. split.
  - intros b arr. split; [apply fill_for_nothing; assumption |].
    split; [reflexivity | apply Hfill].
  - unfold i2s_parallel_setup. cbn [bufa].
    unfold calc_needed_dma_descs_for.
    rewrite (calc_loop_nothing segs Hzero s post Hs).
    change (Done ?x ≫= ?k) with (k x). cbv beta.
    destruct (grant_state al); [| reflexivity]. cbn [negb].
    unfold heap_caps_malloc. cbv iota beta zeta. rewrite Hfill. reflexivity.
Qed.

Lemma X10_no_data_closing_store_out_of_bounds_witness :
  calc_needed_dma_descs_for ([segment 4096 0; segment 8192 0] ++ end_marker :: []) = Done 0 /\
  (forall b arr,
     fill_for b ([segment 4096 0; segment 8192 0] ++ end_marker :: []) 0 arr = Done (0, arr) /\
     in_bounds arr (0 - 1) = false /\
     fill_dma_desc b arr ([segment 4096 0; segment 8192 0] ++ end_marker :: []) = Fault) /\
  i2s_parallel_setup sample_driver I2S0
    {| bufa := [segment 4096 0; segment 8192 0] ++ end_marker :: []; bufb := None |}
    sample_allocator (sample_desc (DescPtr 0%nat 0)) 0%nat
  = Fault.
Proof.
  apply (X10_no_data_closing_store_out_of_bounds sample_driver I2S0
           [segment 4096 0; segment 8192 0] end_marker [] None).
  - repeat constructor; simpl; lia.
  - reflexivity.
Defined.

(** X11: setup for double buffering.  With two buffer lists that each hold
    data, when the allocator grants the three requests and the byte counts
    of both descriptor arrays fit [size_t], setup returns with the driver of
    [dev] double-buffered: two descriptor arrays of their own, each a closed
    ring of the counted length, linked in order.  The arrays are new ones:
    the other device's state and every descriptor array that was on the heap
    before are as they were. *)
Theorem X11_setup_builds_two_new_rings m dev segs_a s_a post_a segs_b s_b post_b
    al junk junk_b :
  Forall segment_ok segs_a -> needed segs_a <= INT_MAX -> memory s_a = 0 ->
  Exists (fun d => size d <> 0) segs_a ->
  Forall segment_ok segs_b -> needed segs_b <= INT_MAX -> memory s_b = 0 ->
  Exists (fun d => size d <> 0) segs_b ->
  grants_all al -> fits_size_t (needed segs_a) -> fits_size_t (needed segs_b) ->
  exists m' st,
    i2s_parallel_setup m dev
      {| bufa := segs_a ++ s_a :: post_a; bufb := Some (segs_b ++ s_b :: post_b) |}
      al junk junk_b = Done m' /\
    chained m' dev st /\
    desccount_a st = needed segs_a /\ desccount_b st = needed segs_b /\
    ring_built m' (dmadesc_a st) (desccount_a st) /\
    ring_built m' (dmadesc_b st) (desccount_b st) /\
    (forall no, no <> i2snum dev -> i2s_state m' !! no = i2s_state m !! no) /\
    (forall p r, heap m !! p = Some r ->
       p <> dmadesc_a st /\ p <> dmadesc_b st /\ heap m' !! p = Some r).
Proof.
  intros Hok_a Hmax_a Hs_a Hex_a Hok_b Hmax_b Hs_b Hex_b Hal Hfit_a Hfit_b.
  set (a := fresh (dom (heap m))).
  destruct (closed_ring_built a segs_a s_a post_a Hok_a Hmax_a Hs_a Hex_a)
    as (ring_a & Hcalc_a & Hfill_a & Hlen_a & Hlink_a & Hlast_a & Hcyc_a).
  set (h2 := <[a := ring_a]> (<[a := replicate (Z.to_nat (needed segs_a)) junk]> (heap m))).
  set (b := fresh (dom h2)).
  destruct (closed_ring_built b segs_b s_b post_b Hok_b Hmax_b Hs_b Hex_b)
    as (ring_b & Hcalc_b & Hfill_b & Hlen_b & Hlink_b & Hlast_b & Hcyc_b).
  pose proof (needed_pos segs_a Hok_a Hex_a) as Hpos_a.
  pose proof (needed_pos segs_b Hok_b Hex_b) as Hpos_b.
  assert (a <> b) as Hab.
  { intros Heq. apply (is_fresh (dom h2)). fold b. rewrite <- Heq.
    subst h2. apply elem_of_dom. rewrite lookup_insert_eq. eauto. }
  assert (forall p r, heap m !! p = Some r -> p <> a /\ p <> b) as Hold.
  { intros p r Hp. split; intros ->.
    - apply (is_fresh (dom (heap m))). fold a. apply elem_of_dom. eauto.
    - apply (is_fresh (dom h2)). fold b. subst h2. apply elem_of_dom.
      destruct (decide (a = b)) as [Heq | Hneq]; [contradiction |].
      rewrite !lookup_insert_ne by exact Hneq. eauto. }
  set (st := {| dmadesc_a := a; dmadesc_b := b;
                desccount_a := needed segs_a; desccount_b := needed segs_b |}).
  set (m' := {| i2s_state := <[i2snum dev := st]> (i2s_state m);
                heap := <[b := ring_b]>
                          (<[b := replicate (Z.to_nat (needed segs_b)) junk]> h2) |}).
  assert (heap m' !! a = Some ring_a) as Hra
    by (subst m' h2; cbn [heap]; rewrite !lookup_insert_ne by congruence;
        apply lookup_insert_eq).
  assert (heap m' !! b = Some ring_b) as Hrb by (subst m'; cbn [heap]; apply lookup_insert_eq).
  exists m', st.
  split; [| split; [| split; [reflexivity | split; [reflexivity | split; [| split; [| split]]]]]].
  - exact (setup_two_rings m dev _ _ (needed segs_a) (needed segs_b) al junk junk_b
             ring_a ring_b Hal ltac:(lia) Hfit_a ltac:(lia) Hfit_b
             Hcalc_a (Hfill_a _ (length_replicate _ _))
             Hcalc_b (Hfill_b _ (length_replicate _ _))).
  - split; [| split; [exact Hab | split; eexists; split; eassumption]].
    unfold double_buffered. subst st. cbn [dmadesc_a dmadesc_b desccount_a desccount_b].
    split; [subst m'; cbn [i2s_state]; apply lookup_insert_eq |].
    split; [exact Hpos_a |]. split; [exact Hpos_b |].
    split; eexists; (split; [eassumption | lia]).
  - exists ring_a. subst st. cbn [dmadesc_a desccount_a].
    split; [exact Hra |]. split; [lia | auto].
  - exists ring_b. subst st. cbn [dmadesc_b desccount_b].
    split; [exact Hrb |]. split; [lia | auto].
  - intros no Hno. subst m'. cbn [i2s_state]. apply lookup_insert_ne. congruence.
  - intros p r Hp. destruct (Hold p r Hp) as [Hpa Hpb].
    subst st. cbn [dmadesc_a dmadesc_b]. split; [exact Hpa |]. split; [exact Hpb |].
    subst m' h2. cbn [heap]. rewrite !lookup_insert_ne by congruence. exact Hp.
Qed.

Lemma X11_setup_builds_two_new_rings_witness :
  exists m' st,
    i2s_parallel_setup sample_driver I2S0
      {| bufa := [segment 4096 4096] ++ end_marker :: [];
         bufb := Some ([segment 8192 100] ++ end_marker :: []) |}
      sample_allocator (sample_desc (DescPtr 0%nat 0)) 0%nat = Done m' /\
    chained m' I2S0 st /\
    desccount_a st = needed [segment 4096 4096] /\
    desccount_b st = needed [segment 8192 100] /\
    ring_built m' (dmadesc_a st) (desccount_a st) /\
    ring_built m' (dmadesc_b st) (desccount_b st) /\
    (forall no, no <> i2snum I2S0 -> i2s_state m' !! no = i2s_state sample_driver !! no) /\
    (forall p r, heap sample_driver !! p = Some r ->
       p <> dmadesc_a st /\ p <> dmadesc_b st /\ heap m' !! p = Some r).
Proof.
  apply (X11_setup_builds_two_new_rings sample_driver I2S0
           [segment 4096 4096] end_marker [] [segment 8192 100] end_marker []).
  - repeat constructor; simpl; unfold INT_MAX; lia.
  - vm_compute. discriminate.
  - reflexivity.
  - apply Exists_cons_hd. simpl. lia.
  - repeat constructor; simpl; unfold INT_MAX; lia.
  - vm_compute. discriminate.
  - reflexivity.
  - apply Exists_cons_hd. simpl. lia.
  - repeat split.
  - vm_compute. reflexivity.
  - vm_compute. reflexivity.
Defined.

(** X12: single-buffer mode.  Without a second buffer list, when the
    allocator grants the state record and descriptor array A and the byte
    count of the array fits [size_t], setup builds ring A only and records a
    count of 0 for ring B; from then on a flip to any buffer id returns
    without touching the driver or any descriptor, so the ring keeps
    replaying buffer A. *)
Theorem X12_single_buffer_setup_makes_flip_a_noop m dev segs s post al junk junk_b :
  Forall segment_ok segs -> needed segs <= INT_MAX -> memory s = 0 ->
  Exists (fun d => size d <> 0) segs ->
  grant_state al = true -> grant_a al = true -> fits_size_t (needed segs) ->
  exists m' st,
    i2s_parallel_setup m dev {| bufa := segs ++ s :: post; bufb := None |} al junk junk_b
    = Done m' /\
    i2s_state m' !! i2snum dev = Some st /\
    desccount_a st = needed segs /\ desccount_b st = 0 /\
    ring_built m' (dmadesc_a st) (desccount_a st) /\
    forall bufid, i2s_parallel_flip_to_buffer m' dev bufid = Done m'.
Proof.
  intros Hok Hmax Hs Hex Hgs Hga Hfit.
  set (a := fresh (dom (heap m))).
  destruct (closed_ring_built a segs s post Hok Hmax Hs Hex)
    as (ring & Hcalc & Hfill & Hlen & Hlink & Hlast & Hcyc).
  pose proof (needed_pos segs Hok Hex) as Hpos.
  set (st := {| dmadesc_a := a; dmadesc_b := junk_b;
                desccount_a := needed segs; desccount_b := 0 |}).
  set (m' := {| i2s_state := <[i2snum dev := st]> (i2s_state m);
                heap := <[a := ring]>
                          (<[a := replicate (Z.to_nat (needed segs)) junk]> (heap m)) |}).
  assert (i2s_state m' !! i2snum dev = Some st) as Hst
    by (subst m'; cbn [i2s_state]; apply lookup_insert_eq).
  exists m', st.
  split; [| split; [exact Hst | split; [reflexivity | split; [reflexivity | split]]]].
  - exact (setup_one_ring m dev _ (needed segs) al junk junk_b ring Hgs Hga
             ltac:(lia) Hfit Hcalc (Hfill _ (length_replicate _ _))).
  - exists ring. subst st m'. cbn [dmadesc_a desccount_a heap].
    split; [apply lookup_insert_eq |]. split; [lia | auto].
  - intros bufid. unfold i2s_parallel_flip_to_buffer. rewrite Hst. reflexivity.
Qed.

Lemma X12_single_buffer_setup_makes_flip_a_noop_witness :
  exists m' st,
    i2s_parallel_setup sample_driver I2S0
      {| bufa := [segment 4096 4096] ++ end_marker :: []; bufb := None |}
      sample_allocator (sample_desc (DescPtr 0%nat 0)) 7%nat
    = Done m' /\
    i2s_state m' !! i2snum I2S0 = Some st /\
    desccount_a st = needed [segment 4096 4096] /\ desccount_b st = 0 /\
    ring_built m' (dmadesc_a st) (desccount_a st) /\
    forall bufid, i2s_parallel_flip_to_buffer m' I2S0 bufid = Done m'.
Proof.
  apply (X12_single_buffer_setup_makes_flip_a_noop sample_driver I2S0
           [segment 4096 4096] end_marker []).
  - repeat constructor; simpl; unfold INT_MAX; lia.
  - vm_compute. discriminate.
  - reflexivity.
  - apply Exists_cons_hd. simpl. lia.
  - reflexivity.
  - reflexivity.
  - vm_compute. reflexivity.
Defined.

(** ** Pixels of the frame buffer *)

Lemma byte_val_to_uint8 z : byte_val (to_uint8 z) = z mod 256.
Proof.
  unfold to_uint8, byte_val.
  pose proof (Z.mod_pos_bound z 256 ltac:(lia)) as Hz.
  destruct (Byte.of_N (Z.to_N (z mod 256))) as [b |] eqn:Hb.
  - simpl. apply Byte.to_of_N in Hb. rewrite Hb. lia.
  - apply Byte.of_N_None_iff in Hb. lia.
Qed.

Lemma byte_at_insert_eq (buf : list byte) (n : nat) i b :
  (n < length buf)%nat -> Z.to_nat i = n ->
  byte_at (<[n := b]> buf) i = byte_val b.
Proof.
  intros Hn Hi. subst n. unfold byte_at. f_equal.
  apply nth_lookup_Some. apply list_lookup_insert_eq. exact Hn.
Qed.

Lemma byte_at_insert_ne (buf : list byte) (n : nat) i b :
  Z.to_nat i <> n -> byte_at (<[n := b]> buf) i = byte_at buf i.
Proof.
  intros Hne. unfold byte_at. f_equal.
  rewrite !nth_lookup. rewrite list_lookup_insert_ne by congruence. reflexivity.
Qed.

Lemma store_within {A} (a : list A) (n : Z) (x : A) :
  0 <= n < Z.of_nat (length a) -> store a n x = Done (<[Z.to_nat n := x]> a).
Proof.
  intros Hn. unfold store, in_bounds.
  rewrite (proj2 (Z.leb_le 0 n)) by lia.
  rewrite (proj2 (Z.ltb_lt _ _)) by lia. reflexivity.
Qed.

(** The three stores of [setPixel], when the pixel's bytes are inside the
    buffer. *)
Lemma setPixel_stores (framebuf : list byte) x y col :
  let p := (x + y * DISPLAY_WIDTH) * 3 in
  0 <= p -> p + 3 <= Z.of_nat (length framebuf) -> p < 2 ^ 32 ->
  setPixel framebuf x y col
  = Done (<[Z.to_nat (p + 2) := to_uint8 col]>
            (<[Z.to_nat (p + 1) := to_uint8 (Z.shiftr col 8)]>
               (<[Z.to_nat p := to_uint8 (Z.shiftr col 16)]> framebuf))).
Proof.
  intros p Hp Hlen Hmax. unfold setPixel. fold p.
  rewrite (wrap_uint32_small p) by lia.
  rewrite store_within by lia.
  change (Done ?v ≫= ?k) with (k v). cbv beta.
  rewrite store_within by (rewrite length_insert; lia).
  change (Done ?v ≫= ?k) with (k v). cbv beta.
  rewrite store_within by (rewrite !length_insert; lia).
  reflexivity.
Qed.

(** Three bytes taken from a colour and put together again give its low 24
    bits. *)
Lemma rgb_bytes col :
  Z.lor (Z.lor (Z.shiftl (Z.shiftr col 16 mod 256) 16)
               (Z.shiftl (Z.shiftr col 8 mod 256) 8))
        (col mod 256)
  = col mod 2 ^ 24.
Proof.
  apply Z.bits_inj'. intros n Hn.
  rewrite !Z.lor_spec, !Z.shiftl_spec by lia.
  change 256 with (2 ^ 8).
  destruct (Z_lt_le_dec n 8) as [H8 | H8].
  - rewrite (Z.testbit_neg_r _ (n - 16)), (Z.testbit_neg_r _ (n - 8)) by lia.
    rewrite !Z.mod_pow2_bits_low by lia. reflexivity.
  - rewrite (Z.mod_pow2_bits_high col 8 n) by lia. rewrite orb_false_r.
    destruct (Z_lt_le_dec n 16) as [H16 | H16].
    + rewrite (Z.testbit_neg_r _ (n - 16)) by lia.
      rewrite !Z.mod_pow2_bits_low by lia.
      rewrite Z.shiftr_spec by lia. simpl. f_equal. lia.
    + rewrite (Z.mod_pow2_bits_high _ 8 (n - 8)) by lia. rewrite orb_false_r.
      destruct (Z_lt_le_dec n 24) as [H24 | H24].
      * rewrite !Z.mod_pow2_bits_low by lia.
        rewrite Z.shiftr_spec by lia. f_equal. lia.
      * rewrite !Z.mod_pow2_bits_high by lia. reflexivity.
Qed.

Lemma getPixel_setPixel (framebuf : list byte) x y col :
  in_frame x y -> Z.of_nat (length framebuf) = framebuf_bytes ->
  exists framebuf',
    setPixel framebuf x y col = Done framebuf' /\
    length framebuf' = length framebuf /\
    getPixel framebuf' x y = col mod 2 ^ 24 /\
    forall x' y', in_frame x' y' -> (x', y') <> (x, y) ->
      getPixel framebuf' x' y' = getPixel framebuf x' y'.
Proof.
  unfold in_frame, framebuf_bytes, DISPLAY_WIDTH, DISPLAY_HEIGHT.
  intros [Hx Hy] Hlen.
  pose proof (setPixel_stores framebuf x y col) as Hset.
  unfold DISPLAY_WIDTH in Hset. cbv zeta in Hset.
  eexists. split; [apply Hset; lia |].
  split; [rewrite !length_insert; reflexivity |]. split.
  - unfold getPixel, DISPLAY_WIDTH.
    set (p := (x + y * 128) * 3).
    rewrite (byte_at_insert_eq _ (Z.to_nat (p + 2)) (p + 2))
      by (rewrite ?length_insert; lia).
    rewrite (byte_at_insert_ne _ (Z.to_nat (p + 2)) (p + 1)) by lia.
    rewrite (byte_at_insert_eq _ (Z.to_nat (p + 1)) (p + 1))
      by (rewrite ?length_insert; lia).
    rewrite (byte_at_insert_ne _ (Z.to_nat (p + 2)) p) by lia.
    rewrite (byte_at_insert_ne _ (Z.to_nat (p + 1)) p) by lia.
    rewrite (byte_at_insert_eq _ (Z.to_nat p) p)
      by (rewrite ?length_insert; lia).
    rewrite !byte_val_to_uint8. apply rgb_bytes.
  - intros x' y' [Hx' Hy'] Hne.
    assert (x' + y' * 128 <> x + y * 128) as Hidx
      by (intros Heq; apply Hne; f_equal; lia).
    unfold getPixel, DISPLAY_WIDTH.
    rewrite !byte_at_insert_ne by lia. reflexivity.
Qed.

(** ** Loops *)

Lemma for_each_app {A S} (l1 l2 : list A) (body : S -> A -> outcome S) s :
  for_each (l1 ++ l2) body s = s' ← for_each l1 body s; for_each l2 body s'.
Proof.
  revert s. induction l1 as [| i l1 IH]; intros s; [reflexivity |].
  simpl. destruct (body s i) as [s' |]; [apply IH | reflexivity].
Qed.

Lemma for_each_ext {A S} (l : list A) (body body' : S -> A -> outcome S) s :
  (forall s i, i ∈ l -> body s i = body' s i) ->
  for_each l body s = for_each l body' s.
Proof.
  revert s. induction l as [| i l IH]; intros s Hext; [reflexivity |].
  simpl. rewrite (Hext s i) by constructor.
  destruct (body' s i) as [s' |]; [| reflexivity].
  apply IH. intros s0 j Hj. apply Hext. constructor. exact Hj.
Qed.

(** Nested loops run their innermost body over the pairs of indices. *)
Lemma for_each_nested {A B C S} (l : list A) (g : A -> list B) (f : A -> B -> C)
    (body : S -> C -> outcome S) s :
  for_each l (fun s a => for_each (g a) (fun s b => body s (f a b)) s) s
  = for_each (a ← l; b ← g a; [f a b]) body s.
Proof.
  revert s. induction l as [| a l IH]; intros s; [reflexivity |].
  cbn [for_each]. rewrite bind_cons, for_each_app.
  assert (forall s, for_each (g a) (fun s b => body s (f a b)) s
                    = for_each (b ← g a; [f a b]) body s) as Hin.
  { clear. induction (g a) as [| b bs IHb]; intros s; [reflexivity |].
    rewrite bind_cons. simpl.
    destruct (body s (f a b)); [apply IHb | reflexivity]. }
  rewrite Hin. destruct (for_each _ body s) as [s' |]; [apply IH | reflexivity].
Qed.

(** A run of pixel writes inside the frame returns, and every pixel has
    the colour of the last write to it, or the one it had. *)
Lemma for_each_setPixel (writes : list (Z * Z * Z)) (framebuf : list byte) :
  Z.of_nat (length framebuf) = framebuf_bytes ->
  Forall (fun w => in_frame w.1.1 w.1.2) writes ->
  exists framebuf',
    for_each writes (fun fb w => setPixel fb w.1.1 w.1.2 w.2) framebuf = Done framebuf' /\
    length framebuf' = length framebuf /\
    forall x y, in_frame x y ->
      getPixel framebuf' x y
      = match painted writes x y with
        | Some c => c mod 2 ^ 24
        | None => getPixel framebuf x y
        end.
Proof.
  intros Hlen Hin. revert framebuf Hlen.
  induction Hin as [| [[x0 y0] col] writes Hw Hin IH]; intros framebuf Hlen.
  - exists framebuf. repeat split; reflexivity.
  - cbn [fst snd] in Hw.
    destruct (getPixel_setPixel framebuf x0 y0 col Hw Hlen)
      as (fb1 & Hset & Hlen1 & Hsame & Hother).
    destruct (IH fb1 ltac:(rewrite Hlen1; exact Hlen)) as (fb' & Hrun & Hlen' & Hpix).
    exists fb'. split; [| split].
    + cbn [for_each fst snd]. rewrite Hset. exact Hrun.
    + rewrite Hlen'. exact Hlen1.
    + intros x y Hxy. rewrite (Hpix x y Hxy). cbn [painted].
      destruct (painted writes x y) as [c |]; [reflexivity |].
      destruct (Z.eqb_spec x0 x) as [-> | Hx]; [destruct (Z.eqb_spec y0 y) as [-> | Hy] |];
        cbn [andb]; [exact Hsame | |]; apply Hother; try exact Hxy; congruence.
Qed.

Lemma painted_None (writes : list (Z * Z * Z)) x y :
  (x, y) ∉ fst <$> writes -> painted writes x y = None.
Proof.
  induction writes as [| [[x0 y0] c0] writes IH]; intros Hnot; [reflexivity |].
  rewrite fmap_cons in Hnot. apply not_elem_of_cons in Hnot as [Hne Hnot].
  cbn [painted]. rewrite (IH Hnot). cbn [fst] in Hne.
  destruct (Z.eqb_spec x0 x) as [-> |]; [| reflexivity].
  destruct (Z.eqb_spec y0 y) as [-> |]; [congruence | reflexivity].
Qed.

(** What a list of writes to distinct pixels paints. *)
Lemma painted_In (writes : list (Z * Z * Z)) x y c :
  NoDup (fst <$> writes) -> (x, y, c) ∈ writes -> painted writes x y = Some c.
Proof.
  induction writes as [| [[x0 y0] c0] writes IH]; intros Hnd Hin.
  - inversion Hin.
  - rewrite fmap_cons in Hnd. apply NoDup_cons in Hnd as [Hnot Hnd].
    cbn [painted]. apply elem_of_cons in Hin as [Heq | Hin].
    + injection Heq as <- <- <-.
      rewrite (painted_None writes x y Hnot), !Z.eqb_refl. reflexivity.
    + rewrite (IH Hnd Hin). reflexivity.
Qed.

(** Nested loops of pixel writes: row [y] of [ys], and in it the pixels
    [tx y x] for [x] of [xs]. *)
Lemma paint_grid (framebuf : list byte) (ys xs : list Z) (tx c : Z -> Z -> Z) :
  Z.of_nat (length framebuf) = framebuf_bytes ->
  (forall y x, y ∈ ys -> x ∈ xs -> in_frame (tx y x) y) ->
  exists framebuf',
    for_each ys (fun fb y =>
      for_each xs (fun fb x => setPixel fb (tx y x) y (c y x)) fb) framebuf
    = Done framebuf' /\
    length framebuf' = length framebuf /\
    forall x y, in_frame x y ->
      getPixel framebuf' x y
      = match painted (y ← ys; x ← xs; [(tx y x, y, c y x)]) x y with
        | Some col => col mod 2 ^ 24
        | None => getPixel framebuf x y
        end.
Proof.
  intros Hlen Hin.
  rewrite (for_each_nested ys (fun _ => xs) (fun y x => (tx y x, y, c y x))
             (fun fb w => setPixel fb w.1.1 w.1.2 w.2)).
  apply for_each_setPixel; [exact Hlen |].
  apply Forall_forall. intros w Hw.
  apply list_elem_of_bind in Hw as (y & Hw & Hy).
  apply list_elem_of_bind in Hw as (x & Hw & Hx).
  apply list_elem_of_singleton in Hw as ->. cbn [fst snd]. apply Hin; assumption.
Qed.

Lemma grid_targets (ys xs : list Z) (tx c : Z -> Z -> Z) :
  fst <$> (y ← ys; x ← xs; [(tx y x, y, c y x)])
  = (y ← ys; x ← xs; [(tx y x, y)]).
Proof.
  induction ys as [| y ys IH]; [reflexivity |].
  rewrite !bind_cons, fmap_app, IH. f_equal.
  clear. induction xs as [| x xs IH]; [reflexivity |].
  rewrite !bind_cons, fmap_app, IH. reflexivity.
Qed.

Lemma painted_grid_In (ys xs : list Z) (tx c : Z -> Z -> Z) x y :
  NoDup ys -> NoDup xs ->
  (forall x1 x2, x1 ∈ xs -> x2 ∈ xs -> tx y x1 = tx y x2 -> x1 = x2) ->
  y ∈ ys -> x ∈ xs ->
  painted (y ← ys; x ← xs; [(tx y x, y, c y x)]) (tx y x) y = Some (c y x).
Proof.
  intros Hys Hxs Hinj Hy Hx.
  induction ys as [| y0 ys IH]; [inversion Hy |].
  apply NoDup_cons in Hys as [Hy0 Hys].
  rewrite bind_cons.
  assert (forall l1 l2 u v, painted (l1 ++ l2) u v
            = match painted l2 u v with Some k => Some k | None => painted l1 u v end)
    as Happ.
  { clear. intros l1 l2 u v. induction l1 as [| [[x1 y1] c1] l1 IH]; simpl.
    - destruct (painted l2 u v); reflexivity.
    - rewrite IH. destruct (painted l2 u v); reflexivity. }
  rewrite Happ.
  apply elem_of_cons in Hy as [-> | Hy].
  - rewrite painted_None.
    + clear Happ IH Hys Hy0. induction xs as [| x0 xs IH]; [inversion Hx |].
      apply NoDup_cons in Hxs as [Hx0 Hxs]. rewrite bind_cons. simpl.
      apply elem_of_cons in Hx as [-> | Hx].
      * rewrite painted_None; [rewrite !Z.eqb_refl; reflexivity |].
        intros Hin. apply list_elem_of_fmap in Hin as ([[x1 y1] c1] & Heq & Hin).
        apply list_elem_of_bind in Hin as (x2 & Hin & Hx2).
        apply list_elem_of_singleton in Hin. simpl in Heq.
        injection Hin as -> -> ->. injection Heq as Heq.
        apply Hx0. rewrite (Hinj x0 x2); [exact Hx2 | left | right; exact Hx2 | exact Heq].
      * rewrite IH; [reflexivity | exact Hxs | | exact Hx].
        intros x1 x2 H1 H2. apply Hinj; right; assumption.
    + rewrite grid_targets. intros Hin.
      apply list_elem_of_bind in Hin as (y1 & Hin & Hy1).
      apply list_elem_of_bind in Hin as (x1 & Hin & Hx1).
      apply list_elem_of_singleton in Hin. injection Hin as _ ->. contradiction.
  - rewrite IH by assumption. reflexivity.
Qed.

Lemma painted_grid_None (ys xs : list Z) (tx c : Z -> Z -> Z) x y :
  (forall x0, x0 ∈ xs -> tx y x0 <> x) ->
  painted (y ← ys; x ← xs; [(tx y x, y, c y x)]) x y = None.
Proof.
  intros Hno. apply painted_None. rewrite grid_targets. intros Hin.
  apply list_elem_of_bind in Hin as (y1 & Hin & Hy1).
  apply list_elem_of_bind in Hin as (x1 & Hin & Hx1).
  apply list_elem_of_singleton in Hin. injection Hin as Hx ->.
  apply (Hno x1 Hx1). symmetry. exact Hx.
Qed.

(** A pattern painted over the whole frame, pixel by pixel. *)
Lemma paint_frame (framebuf : list byte) (c : Z -> Z -> Z) :
  Z.of_nat (length framebuf) = framebuf_bytes ->
  exists framebuf',
    for_each (seqZ 0 DISPLAY_HEIGHT) (fun fb y =>
      for_each (seqZ 0 DISPLAY_WIDTH) (fun fb x => setPixel fb x y (c y x)) fb) framebuf
    = Done framebuf' /\
    length framebuf' = length framebuf /\
    forall x y, in_frame x y -> getPixel framebuf' x y = c y x mod 2 ^ 24.
Proof.
  intros Hlen.
  destruct (paint_grid framebuf (seqZ 0 DISPLAY_HEIGHT) (seqZ 0 DISPLAY_WIDTH)
              (fun _ x => x) c Hlen) as (fb' & Hrun & Hlen' & Hpix).
  { intros y x Hy Hx. apply elem_of_seqZ in Hy. apply elem_of_seqZ in Hx.
    unfold in_frame. lia. }
  exists fb'. split; [exact Hrun |]. split; [exact Hlen' |].
  intros x y [Hx Hy]. rewrite (Hpix x y (conj Hx Hy)).
  rewrite (painted_grid_In _ _ (fun _ x => x) c x y).
  - reflexivity.
  - apply NoDup_seqZ.
  - apply NoDup_seqZ.
  - intros x1 x2 _ _ Heq. exact Heq.
  - apply elem_of_seqZ. lia.
  - apply elem_of_seqZ. lia.
Qed.

(** ** Flips and frame updates keep the driver set up *)

Lemma flip_keeps_buffers m dev st s :
  double_buffered m dev st ->
  exists m',
    i2s_parallel_flip_to_buffer m dev s = Done m' /\ double_buffered m' dev st.
Proof.
  intros (Hst & Ha & Hb & (ra & Hra & Hla) & (rb & Hrb & Hlb)).
  unfold i2s_parallel_flip_to_buffer. rewrite Hst.
  rewrite (proj2 (Z.leb_gt _ _)) by lia.
  cbv zeta.
  destruct (store_next_tail (heap m) (dmadesc_a st) (desccount_a st)
              (if s =? 0 then DescPtr (dmadesc_a st) 0 else DescPtr (dmadesc_b st) 0)
              ra Hra Ha Hla) as (ra' & -> & Hla' & _).
  change (Done ?x ≫= ?k) with (k x). cbv beta.
  assert (exists rb1, <[dmadesc_a st := ra']> (heap m) !! dmadesc_b st = Some rb1 /\
                      Z.of_nat (length rb1) = desccount_b st) as (rb1 & Hrb1 & Hlb1).
  { destruct (decide (dmadesc_a st = dmadesc_b st)) as [Heq | Hne].
    - exists ra'. rewrite <- Heq, lookup_insert_eq. split; [reflexivity |].
      rewrite <- Heq in Hrb. rewrite Hra in Hrb. injection Hrb as <-. lia.
    - exists rb. rewrite lookup_insert_ne by exact Hne. split; assumption. }
  destruct (store_next_tail _ (dmadesc_b st) (desccount_b st)
              (if s =? 0 then DescPtr (dmadesc_a st) 0 else DescPtr (dmadesc_b st) 0)
              rb1 Hrb1 Hb Hlb1) as (rb' & -> & Hlb' & _).
  eexists. split; [reflexivity |].
  unfold double_buffered. cbn [i2s_state heap].
  split; [exact Hst |]. split; [exact Ha |]. split; [exact Hb |].
  split.
  - destruct (decide (dmadesc_a st = dmadesc_b st)) as [Heq | Hne].
    + exists rb'. rewrite <- Heq, lookup_insert_eq. split; [reflexivity |].
      rewrite <- Heq in Hrb. rewrite Hra in Hrb. injection Hrb as <-. lia.
    + exists ra'. rewrite lookup_insert_ne by congruence.
      rewrite lookup_insert_eq. split; [reflexivity | lia].
  - exists rb'. rewrite lookup_insert_eq. split; [reflexivity | lia].
Qed.

(** One frame update in a double-buffered state. *)
Lemma update_frame_step B a st framebuf brightness :
  double_buffered (drv a) I2S1 st ->
  exists a',
    update_frame B a framebuf brightness = Done a' /\
    double_buffered (drv a') I2S1 st /\
    backbuf_id a' = Z.lxor (backbuf_id a) 1 /\
    (forall pl, 0 <= pl < B ->
       bitplane_mem a' !! (backbuf_id a, pl) = Some (plane_words B framebuf brightness pl)) /\
    (forall slot pl, slot <> backbuf_id a ->
       bitplane_mem a' !! (slot, pl) = bitplane_mem a !! (slot, pl)) /\
    tail_next (drv a') (dmadesc_a st) (desccount_a st)
      = Some (selected_head st (backbuf_id a)) /\
    tail_next (drv a') (dmadesc_b st) (desccount_b st)
      = Some (selected_head st (backbuf_id a)).
Proof.
  intros Hdb.
  destruct (update_frame_shows_back_buffer B a st framebuf brightness Hdb)
    as (a' & Hrun & Hrest).
  destruct (flip_keeps_buffers (drv a) I2S1 st (backbuf_id a) Hdb) as (d & Hflip & Hdb').
  exists a'. split; [exact Hrun |]. split; [| exact Hrest].
  unfold update_frame in Hrun. rewrite Hflip in Hrun.
  injection Hrun as <-. exact Hdb'.
Qed.

Lemma lxor_1_ne b : Z.lxor b 1 <> b.
Proof.
  intros Heq. apply (f_equal (fun z => Z.testbit z 0)) in Heq.
  rewrite Z.lxor_spec in Heq. change (Z.testbit 1 0) with true in Heq.
  destruct (Z.testbit b 0); discriminate.
Qed.

Lemma lxor_1_twice b : Z.lxor (Z.lxor b 1) 1 = b.
Proof. rewrite Z.lxor_assoc. change (Z.lxor 1 1) with 0. apply Z.lxor_0_r. Qed.

(** ** Pixels written and read back *)

(** X13: a pixel written with [setPixel] is read back by [getPixel] as the
    low 24 bits of the colour (the top byte of the colour is dropped); the
    write returns, keeps the size of the frame buffer and leaves every
    other pixel of the frame as it was. *)
Theorem X13_pixel_written_is_pixel_read (framebuf : list byte) x y col :
  in_frame x y -> Z.of_nat (length framebuf) = framebuf_bytes ->
  exists framebuf',
    setPixel framebuf x y col = Done framebuf' /\
    length framebuf' = length framebuf /\
    getPixel framebuf' x y = col mod 2 ^ 24 /\
    forall x' y', in_frame x' y' -> (x', y') <> (x, y) ->
      getPixel framebuf' x' y' = getPixel framebuf x' y'.
Proof. apply getPixel_setPixel. Qed.

Lemma X13_pixel_written_is_pixel_read_witness :
  exists framebuf',
    setPixel black_frame 5 3 0xFF123456 = Done framebuf' /\
    length framebuf' = length black_frame /\
    getPixel framebuf' 5 3 = 0xFF123456 mod 2 ^ 24 /\
    forall x' y', in_frame x' y' -> (x', y') <> (5, 3) ->
      getPixel framebuf' x' y' = getPixel black_frame x' y'.
Proof.
  apply (X13_pixel_written_is_pixel_read black_frame 5 3 0xFF123456).
  - unfold in_frame, DISPLAY_WIDTH, DISPLAY_HEIGHT. lia.
  - reflexivity.
Defined.

(** X14: [setPixel] does not check its coordinates.  What counts is the
    pixel's place [x + y * DISPLAY_WIDTH] in row-major order: a column
    beyond the end of a row lands on a pixel of a following row, and a
    place beyond the last pixel of the frame is a store outside
    [framebuf]. *)
Theorem X14_setPixel_beyond_the_row_or_frame (framebuf : list byte) x y col :
  0 <= x -> 0 <= y -> (x + y * DISPLAY_WIDTH) * 3 < 2 ^ 32 ->
  Z.of_nat (length framebuf) = framebuf_bytes ->
  (x + y * DISPLAY_WIDTH < DISPLAY_WIDTH * DISPLAY_HEIGHT ->
     in_frame ((x + y * DISPLAY_WIDTH) mod DISPLAY_WIDTH)
              ((x + y * DISPLAY_WIDTH) / DISPLAY_WIDTH) /\
     setPixel framebuf x y col
     = setPixel framebuf ((x + y * DISPLAY_WIDTH) mod DISPLAY_WIDTH)
                         ((x + y * DISPLAY_WIDTH) / DISPLAY_WIDTH) col) /\
  (DISPLAY_WIDTH * DISPLAY_HEIGHT <= x + y * DISPLAY_WIDTH ->
     setPixel framebuf x y col = Fault).
Proof.
  unfold framebuf_bytes, in_frame, DISPLAY_WIDTH, DISPLAY_HEIGHT.
  intros Hx Hy Hmax Hlen. split.
  - intros Hin. split.
    + pose proof (Z.mod_pos_bound (x + y * 128) 128 ltac:(lia)).
      pose proof (Z.div_lt_upper_bound (x + y * 128) 128 32 ltac:(lia) ltac:(lia)).
      pose proof (Z.div_pos (x + y * 128) 128 ltac:(lia) ltac:(lia)). lia.
    + unfold setPixel, DISPLAY_WIDTH.
      replace ((x + y * 128) mod 128 + (x + y * 128) / 128 * 128) with (x + y * 128)
        by (pose proof (Z.div_mod (x + y * 128) 128 ltac:(lia)); lia).
      reflexivity.
  - intros Hout. unfold setPixel, DISPLAY_WIDTH.
    rewrite wrap_uint32_small by lia.
    replace ((x + y * 128) * 3) with (Z.of_nat (Z.to_nat ((x + y * 128) * 3))) by lia.
    rewrite store_past_end by lia. reflexivity.
Qed.

Lemma X14_setPixel_beyond_the_row_or_frame_witness :
  (130 + 2 * DISPLAY_WIDTH < DISPLAY_WIDTH * DISPLAY_HEIGHT ->
     in_frame ((130 + 2 * DISPLAY_WIDTH) mod DISPLAY_WIDTH)
              ((130 + 2 * DISPLAY_WIDTH) / DISPLAY_WIDTH) /\
     setPixel black_frame 130 2 0xFFFFFFFF
     = setPixel black_frame ((130 + 2 * DISPLAY_WIDTH) mod DISPLAY_WIDTH)
                            ((130 + 2 * DISPLAY_WIDTH) / DISPLAY_WIDTH) 0xFFFFFFFF) /\
  (DISPLAY_WIDTH * DISPLAY_HEIGHT <= 130 + 2 * DISPLAY_WIDTH ->
     setPixel black_frame 130 2 0xFFFFFFFF = Fault).
Proof.
  apply (X14_setPixel_beyond_the_row_or_frame black_frame 130 2 0xFFFFFFFF).
  - lia.
  - lia.
  - unfold DISPLAY_WIDTH. lia.
  - reflexivity.
Defined.

(** ** The test patterns *)


(** X15: the diagonal test pattern.  Whatever the frame buffer held,
    [tp_diagonal] leaves pixel [(x, y)] white where [x - y] is a multiple of
    the display height and black elsewhere (the unsigned wrap of [x - y]
    for [x < y] does not show, 32 divides 2^32), and hands this frame to
    [update_frame]. *)
Theorem X15_diagonal_lines_every_32_columns B a (framebuf : list byte) brightness :
  Z.of_nat (length framebuf) = framebuf_bytes ->
  exists framebuf',
    tp_diagonal B a framebuf brightness
    = (a' ← update_frame B a framebuf' brightness; mret (a', framebuf')) /\
    length framebuf' = length framebuf /\
    forall x y, in_frame x y ->
      getPixel framebuf' x y
      = if (x - y) mod DISPLAY_HEIGHT =? 0 then 0xFFFFFF else 0.
Proof.
  intros Hlen.
  destruct (paint_frame framebuf
              (fun y x => if wrap_uint32 (x - y) mod DISPLAY_HEIGHT =? 0
                          then 0xFFFFFFFF else 0xFF000000) Hlen)
    as (fb' & Hrun & Hlen' & Hpix).
  cbv beta in Hrun.
  exists fb'. split; [| split; [exact Hlen' |]].
  - unfold tp_diagonal. rewrite Hrun. reflexivity.
  - intros x y Hxy. rewrite (Hpix x y Hxy). cbv beta.
    unfold wrap_uint32, DISPLAY_HEIGHT.
    rewrite Z.mod_mod_divide by (exists (2 ^ 27); reflexivity).
    destruct ((x - y) mod 32 =? 0); reflexivity.
Qed.

Lemma X15_diagonal_lines_every_32_columns_witness :
  exists framebuf',
    tp_diagonal 7 {| backbuf_id := 0; bitplane_mem := ∅; drv := sample_driver |}
      black_frame 16
    = (a' ← update_frame 7 {| backbuf_id := 0; bitplane_mem := ∅; drv := sample_driver |}
              framebuf' 16;
       mret (a', framebuf')) /\
    length framebuf' = length black_frame /\
    forall x y, in_frame x y ->
      getPixel framebuf' x y
      = if (x - y) mod DISPLAY_HEIGHT =? 0 then 0xFFFFFF else 0.
Proof.
  apply (X15_diagonal_lines_every_32_columns 7
           {| backbuf_id := 0; bitplane_mem := ∅; drv := sample_driver |}
           black_frame 16).
  reflexivity.
Defined.

Lemma for_each_faulting {A S} (l : list A) (body : S -> A -> outcome S) s :
  l <> [] -> (forall s i, body s i = Fault) -> for_each l body s = Fault.
Proof.
  intros Hl Hbody. destruct l as [| i l]; [congruence |].
  simpl. rewrite Hbody. reflexivity.
Qed.

(** X16: the stripes test pattern.  With a stripe width of 0 the call
    divides by zero before it writes anything.  With a positive width (and
    an offset that keeps [var + offset] from wrapping) the frame buffer is
    overwritten with stripes: a pixel is white where its coordinate plus the
    offset is a multiple of the width, black elsewhere; the coordinate is
    [x] when [isY] is set and [y] when it is not. The frame is handed to
    [update_frame]. *)
Theorem X16_stripes_every_width_pixels B a (framebuf : list byte) brightness
    width offset isY :
  Z.of_nat (length framebuf) = framebuf_bytes ->
  0 <= offset -> offset + DISPLAY_WIDTH <= 2 ^ 32 ->
  (width = 0 -> tp_stripes B a framebuf brightness width offset isY = Fault) /\
  (0 < width ->
   exists framebuf',
     tp_stripes B a framebuf brightness width offset isY
     = (a' ← update_frame B a framebuf' brightness; mret (a', framebuf')) /\
     length framebuf' = length framebuf /\
     forall x y, in_frame x y ->
       getPixel framebuf' x y
       = if ((if isY then x else y) + offset) mod width =? 0 then 0xFFFFFF else 0).
Proof.
  intros Hlen Hoff Hmax. split.
  - intros ->. unfold tp_stripes.
    rewrite for_each_faulting; [reflexivity | discriminate |].
    intros s y. apply for_each_faulting; [discriminate | reflexivity].
  - intros Hw.
    destruct (paint_frame framebuf
                (fun y x => if wrap_uint32 ((if isY then x else y) + offset) mod width =? 0
                            then 0xFFFFFFFF else 0xFF000000) Hlen)
      as (fb' & Hrun & Hlen' & Hpix).
    cbv beta in Hrun.
    exists fb'. split; [| split; [exact Hlen' |]].
    + unfold tp_stripes. rewrite (proj2 (Z.eqb_neq width 0)) by lia.
      cbv zeta. rewrite Hrun. reflexivity.
    + intros x y Hxy. rewrite (Hpix x y Hxy). cbv beta.
      destruct Hxy as [Hx Hy]. unfold DISPLAY_WIDTH, DISPLAY_HEIGHT in *.
      rewrite wrap_uint32_small by (destruct isY; lia).
      destruct (_ mod width =? 0); reflexivity.
Qed.

Lemma X16_stripes_every_width_pixels_witness :
  (8 = 0 ->
   tp_stripes 7 {| backbuf_id := 0; bitplane_mem := ∅; drv := sample_driver |}
     black_frame 16 8 3 true = Fault) /\
  (0 < 8 ->
   exists framebuf',
     tp_stripes 7 {| backbuf_id := 0; bitplane_mem := ∅; drv := sample_driver |}
       black_frame 16 8 3 true
     = (a' ← update_frame 7 {| backbuf_id := 0; bitplane_mem := ∅; drv := sample_driver |}
               framebuf' 16;
        mret (a', framebuf')) /\
     length framebuf' = length black_frame /\
     forall x y, in_frame x y ->
       getPixel framebuf' x y
       = if ((if true then x else y) + 3) mod 8 =? 0 then 0xFFFFFF else 0).
Proof.
  apply (X16_stripes_every_width_pixels 7
           {| backbuf_id := 0; bitplane_mem := ∅; drv := sample_driver |}
           black_frame 16 8 3 true).
  - reflexivity.
  - lia.
  - unfold DISPLAY_WIDTH. lia.
Defined.

(** ** Frame after frame *)

(** A loop whose rounds keep a counted invariant. *)
Lemma for_each_steps {A St} (I : nat -> St -> Prop) (l : list A)
    (body : St -> A -> outcome St) :
  forall k s, I k s ->
    (forall j s i, l !! j = Some i -> I (k + j)%nat s ->
       exists s', body s i = Done s' /\ I (S (k + j)%nat) s') ->
    exists s', for_each l body s = Done s' /\ I (k + length l)%nat s'.
Proof.
  induction l as [| i l IH]; intros k s Hs Hstep.
  - exists s. rewrite Nat.add_0_r. split; [reflexivity | exact Hs].
  - destruct (Hstep 0%nat s i eq_refl) as (s1 & Hrun & Hs1);
      [rewrite Nat.add_0_r; exact Hs |].
    rewrite Nat.add_0_r in Hs1.
    destruct (IH (S k) s1 Hs1) as (s' & Hrest & Hs').
    { intros j s0 i0 Hj Hs0.
      replace (S k + j)%nat with (k + S j)%nat in * by lia.
      apply (Hstep (S j)); assumption. }
    exists s'. split.
    + simpl. rewrite Hrun. exact Hrest.
    + simpl length. replace (k + S (length l))%nat with (S k + length l)%nat by lia.
      exact Hs'.
Qed.

(** The back buffer id after [k] frame updates. *)
Lemma lxor_1_parity b k :
  Z.lxor (if Nat.even k then b else Z.lxor b 1) 1
  = if Nat.even (S k) then b else Z.lxor b 1.
Proof.
  rewrite Nat.even_succ, <- Nat.negb_even.
  destruct (Nat.even k); simpl; [reflexivity | apply lxor_1_twice].
Qed.

(** X17: two frames, one after the other.  In a double-buffered state
    two frame updates both return; the first frame is encoded into the back
    buffer slot and stays there untouched while the second is encoded into
    the other slot; afterwards the rings show the second frame's slot and
    the back buffer id is what it was at the start. *)
Theorem X17_frames_alternate_between_the_slots B a st (f1 f2 : list byte) brightness :
  double_buffered (drv a) I2S1 st ->
  exists a1 a2,
    update_frame B a f1 brightness = Done a1 /\
    update_frame B a1 f2 brightness = Done a2 /\
    backbuf_id a2 = backbuf_id a /\
    (forall pl, 0 <= pl < B ->
       bitplane_mem a2 !! (backbuf_id a, pl) = Some (plane_words B f1 brightness pl)) /\
    (forall pl, 0 <= pl < B ->
       bitplane_mem a2 !! (Z.lxor (backbuf_id a) 1, pl)
       = Some (plane_words B f2 brightness pl)) /\
    tail_next (drv a2) (dmadesc_a st) (desccount_a st)
      = Some (selected_head st (Z.lxor (backbuf_id a) 1)) /\
    tail_next (drv a2) (dmadesc_b st) (desccount_b st)
      = Some (selected_head st (Z.lxor (backbuf_id a) 1)) /\
    double_buffered (drv a2) I2S1 st.
Proof.
  intros Hdb.
  destruct (update_frame_step B a st f1 brightness Hdb)
    as (a1 & Hrun1 & Hdb1 & Hid1 & Hplanes1 & _ & _ & _).
  destruct (update_frame_step B a1 st f2 brightness Hdb1)
    as (a2 & Hrun2 & Hdb2 & Hid2 & Hplanes2 & Hother2 & Hta & Htb).
  exists a1, a2. rewrite Hid1 in *.
  split; [exact Hrun1 |]. split; [exact Hrun2 |].
  split; [rewrite Hid2; apply lxor_1_twice |].
  split; [| split; [exact Hplanes2 | split; [exact Hta | split; [exact Htb | exact Hdb2]]]].
  intros pl Hpl. rewrite Hother2; [apply Hplanes1; exact Hpl |].
  intros Heq. apply (lxor_1_ne (backbuf_id a)). congruence.
Qed.

Lemma X17_frames_alternate_between_the_slots_witness :
  let a := {| backbuf_id := 0; bitplane_mem := ∅; drv := sample_driver |} in
  exists a1 a2,
    update_frame 7 a black_frame 16 = Done a1 /\
    update_frame 7 a1 nearly_black_frame 16 = Done a2 /\
    backbuf_id a2 = backbuf_id a /\
    (forall pl, 0 <= pl < 7 ->
       bitplane_mem a2 !! (backbuf_id a, pl) = Some (plane_words 7 black_frame 16 pl)) /\
    (forall pl, 0 <= pl < 7 ->
       bitplane_mem a2 !! (Z.lxor (backbuf_id a) 1, pl)
       = Some (plane_words 7 nearly_black_frame 16 pl)) /\
    tail_next (drv a2) (dmadesc_a sample_state) (desccount_a sample_state)
      = Some (selected_head sample_state (Z.lxor (backbuf_id a) 1)) /\
    tail_next (drv a2) (dmadesc_b sample_state) (desccount_b sample_state)
      = Some (selected_head sample_state (Z.lxor (backbuf_id a) 1)) /\
    double_buffered (drv a2) I2S1 sample_state.
Proof.
  intros a.
  apply (X17_frames_alternate_between_the_slots 7 a sample_state
           black_frame nearly_black_frame 16).
  unfold double_buffered. simpl.
  split; [reflexivity |]. split; [lia |]. split; [lia |].
  split; eexists; (split; [reflexivity | reflexivity]).
Defined.

(** One call of [tp_stripes] in a double-buffered state. *)
Lemma tp_stripes_step B a st (framebuf : list byte) brightness width offset isY :
  double_buffered (drv a) I2S1 st ->
  Z.of_nat (length framebuf) = framebuf_bytes ->
  0 < width -> 0 <= offset -> offset + DISPLAY_WIDTH <= 2 ^ 32 ->
  exists a' framebuf',
    tp_stripes B a framebuf brightness width offset isY = Done (a', framebuf') /\
    double_buffered (drv a') I2S1 st /\
    length framebuf' = length framebuf /\
    backbuf_id a' = Z.lxor (backbuf_id a) 1 /\
    (forall x y, in_frame x y ->
       getPixel framebuf' x y
       = if ((if isY then x else y) + offset) mod width =? 0 then 0xFFFFFF else 0) /\
    (forall pl, 0 <= pl < B ->
       bitplane_mem a' !! (backbuf_id a, pl)
       = Some (plane_words B framebuf' brightness pl)) /\
    tail_next (drv a') (dmadesc_a st) (desccount_a st)
      = Some (selected_head st (backbuf_id a)) /\
    tail_next (drv a') (dmadesc_b st) (desccount_b st)
      = Some (selected_head st (backbuf_id a)).
Proof.
  intros Hdb Hlen Hw Hoff Hmax.
  destruct (paint_frame framebuf
              (fun y x => if wrap_uint32 ((if isY then x else y) + offset) mod width =? 0
                          then 0xFFFFFFFF else 0xFF000000) Hlen)
    as (fb' & Hrun & Hlen' & Hpix).
  cbv beta in Hrun.
  destruct (update_frame_step B a st fb' brightness Hdb)
    as (a' & Hup & Hdb' & Hid & Hplanes & _ & Hta & Htb).
  exists a', fb'.
  split; [| split; [exact Hdb' | split; [exact Hlen' | split; [exact Hid |
          split; [| split; [exact Hplanes | split; [exact Hta | exact Htb]]]]]]].
  - unfold tp_stripes. rewrite (proj2 (Z.eqb_neq width 0)) by lia.
    cbv zeta. rewrite Hrun.
    change (Done ?v ≫= ?k) with (k v). cbv beta. rewrite Hup. reflexivity.
  - intros x y Hxy. rewrite (Hpix x y Hxy). cbv beta.
    destruct Hxy as [Hx Hy]. unfold DISPLAY_WIDTH, DISPLAY_HEIGHT in *.
    rewrite wrap_uint32_small by (destruct isY; lia).
    destruct (_ mod width =? 0); reflexivity.
Qed.

(** The twelve frames of the stripes sequence in a double-buffered state. *)
Lemma tp_stripes_sequence_spec B a st (framebuf : list byte)
    brightness isY :
  double_buffered (drv a) I2S1 st ->
  Z.of_nat (length framebuf) = framebuf_bytes ->
  exists a' framebuf',
    tp_stripes_sequence B a framebuf brightness isY = Done (a', framebuf') /\
    double_buffered (drv a') I2S1 st /\
    length framebuf' = length framebuf /\
    backbuf_id a' = backbuf_id a /\
    (forall x y, in_frame x y ->
       getPixel framebuf' x y
       = if Z.odd (if isY then x else y) then 0xFFFFFF else 0) /\
    (forall pl, 0 <= pl < B ->
       bitplane_mem a' !! (Z.lxor (backbuf_id a) 1, pl)
       = Some (plane_words B framebuf' brightness pl)) /\
    tail_next (drv a') (dmadesc_a st) (desccount_a st)
      = Some (selected_head st (Z.lxor (backbuf_id a) 1)) /\
    tail_next (drv a') (dmadesc_b st) (desccount_b st)
      = Some (selected_head st (Z.lxor (backbuf_id a) 1)).
Proof.
  intros Hdb Hlen.
  set (I := fun (k : nat) (s : app * list byte) =>
              double_buffered (drv (fst s)) I2S1 st /\
              Z.of_nat (length (snd s)) = framebuf_bytes /\
              backbuf_id (fst s) = if Nat.even k then backbuf_id a else Z.lxor (backbuf_id a) 1).
  assert (forall width offset k s, 0 < width -> 0 <= offset < 8 -> I k s ->
            exists s', tp_stripes B (fst s) (snd s) brightness width offset isY = Done s' /\
                       I (S k) s') as Hstep.
  { intros width offset k s Hw Ho (Hdbs & Hlens & Hids).
    destruct (tp_stripes_step B (fst s) st (snd s) brightness width offset isY
                Hdbs Hlens Hw ltac:(lia) ltac:(unfold DISPLAY_WIDTH; lia))
      as (a' & fb' & Hrun & Hdb' & Hlen' & Hid' & _).
    exists (a', fb'). split; [exact Hrun |].
    split; [exact Hdb' |]. split; [cbn [snd]; rewrite Hlen'; exact Hlens |].
    cbn [fst]. rewrite Hid', Hids. apply lxor_1_parity. }
  destruct (for_each_steps I (seqZ 0 8)
              (fun s i => tp_stripes B (fst s) (snd s) brightness 8 i isY)
              0%nat (a, framebuf)) as (s8 & Hrun8 & Hs8).
  { split; [exact Hdb |]. split; [exact Hlen | reflexivity]. }
  { intros j s i Hj Hs. apply lookup_seqZ in Hj. apply Hstep; [lia | lia | exact Hs]. }
  destruct (for_each_steps I (seqZ 0 3)
              (fun s i => tp_stripes B (fst s) (snd s) brightness 2 (i mod 2) isY)
              8%nat s8 Hs8) as (s11 & Hrun11 & (Hdb11 & Hlen11 & Hid11)).
  { intros j s i Hj Hs. apply lookup_seqZ in Hj.
    apply Hstep; [lia | | exact Hs].
    pose proof (Z.mod_pos_bound i 2 ltac:(lia)). lia. }
  change (Nat.even (8 + length (seqZ 0 3))) with false in Hid11. cbv iota in Hid11.
  destruct (tp_stripes_step B (fst s11) st (snd s11) brightness 2 1 isY
              Hdb11 Hlen11 ltac:(lia) ltac:(lia) ltac:(unfold DISPLAY_WIDTH; lia))
    as (a' & fb' & Hrun12 & Hdb' & Hlen' & Hid' & Hpix & Hplanes & Hta & Htb).
  rewrite Hid11 in *.
  exists a', fb'.
  split; [| split; [exact Hdb' | split; [lia | split;
          [rewrite Hid'; apply lxor_1_twice | split;
          [| split; [exact Hplanes | split; [exact Hta | exact Htb]]]]]]].
  - unfold tp_stripes_sequence. rewrite Hrun8.
    change (Done ?v ≫= ?k) with (k v). cbv beta.
    change (seqZ 0 4) with (seqZ 0 3 ++ [3]).
    rewrite for_each_app, Hrun11.
    change (Done ?v ≫= ?k) with (k v). cbv beta.
    cbn [for_each]. change (3 mod 2) with 1. rewrite Hrun12. reflexivity.
  - intros x y Hxy. rewrite (Hpix x y Hxy).
    set (v := if isY then x else y).
    rewrite Zodd_mod. 
    replace ((v + 1) mod 2 =? 0) with (v mod 2 =? 1); [reflexivity |].
    pose proof (Z.mod_pos_bound v 2 ltac:(lia)).
    pose proof (Z.mod_pos_bound (v + 1) 2 ltac:(lia)).
    destruct (Z.eqb_spec (v mod 2) 1); destruct (Z.eqb_spec ((v + 1) mod 2) 0);
      try reflexivity; exfalso; Z.div_mod_to_equations; lia.
Qed.

(** X18: the stripes sequence.  In a double-buffered state the twelve
    frames of [tp_stripes_sequence] are all drawn and shown. The last one
    has its stripes on the odd coordinates ([x] when [isY] is set, [y] when
    not); it is encoded in the slot the rings show at the end, and after an
    even number of frames the back buffer id is what it was at the
    start. *)
Theorem X18_stripes_sequence_ends_on_odd_stripes B a st (framebuf : list byte)
    brightness isY :
  double_buffered (drv a) I2S1 st ->
  Z.of_nat (length framebuf) = framebuf_bytes ->
  exists a' framebuf',
    tp_stripes_sequence B a framebuf brightness isY = Done (a', framebuf') /\
    double_buffered (drv a') I2S1 st /\
    length framebuf' = length framebuf /\
    backbuf_id a' = backbuf_id a /\
    (forall x y, in_frame x y ->
       getPixel framebuf' x y
       = if Z.odd (if isY then x else y) then 0xFFFFFF else 0) /\
    (forall pl, 0 <= pl < B ->
       bitplane_mem a' !! (Z.lxor (backbuf_id a) 1, pl)
       = Some (plane_words B framebuf' brightness pl)) /\
    tail_next (drv a') (dmadesc_a st) (desccount_a st)
      = Some (selected_head st (Z.lxor (backbuf_id a) 1)) /\
    tail_next (drv a') (dmadesc_b st) (desccount_b st)
      = Some (selected_head st (Z.lxor (backbuf_id a) 1)).
Proof. apply tp_stripes_sequence_spec. Qed.

Lemma X18_stripes_sequence_ends_on_odd_stripes_witness :
  let a := {| backbuf_id := 0; bitplane_mem := ∅; drv := sample_driver |} in
  exists a' framebuf',
    tp_stripes_sequence 7 a black_frame 16 true = Done (a', framebuf') /\
    double_buffered (drv a') I2S1 sample_state /\
    length framebuf' = length black_frame /\
    backbuf_id a' = backbuf_id a /\
    (forall x y, in_frame x y ->
       getPixel framebuf' x y
       = if Z.odd (if true then x else y) then 0xFFFFFF else 0) /\
    (forall pl, 0 <= pl < 7 ->
       bitplane_mem a' !! (Z.lxor (backbuf_id a) 1, pl)
       = Some (plane_words 7 framebuf' 16 pl)) /\
    tail_next (drv a') (dmadesc_a sample_state) (desccount_a sample_state)
      = Some (selected_head sample_state (Z.lxor (backbuf_id a) 1)) /\
    tail_next (drv a') (dmadesc_b sample_state) (desccount_b sample_state)
      = Some (selected_head sample_state (Z.lxor (backbuf_id a) 1)).
Proof.
  intros a.
  apply (X18_stripes_sequence_ends_on_odd_stripes 7 a sample_state black_frame 16 true).
  - unfold double_buffered. simpl.
    split; [reflexivity |]. split; [lia |]. split; [lia |].
    split; eexists; (split; [reflexivity | reflexivity]).
  - reflexivity.
Defined.

(** ** The animation *)

Lemma load_within {A} (a : list A) (n : Z) (d : A) :
  0 <= n < Z.of_nat (length a) -> load a n = Done (nth (Z.to_nat n) a d).
Proof.
  intros Hn. unfold load, in_bounds.
  rewrite (proj2 (Z.leb_le 0 n)) by lia.
  rewrite (proj2 (Z.ltb_lt _ _)) by lia. simpl.
  destruct (lookup_lt_is_Some_2 a (Z.to_nat n)) as [x Hx]; [lia |].
  rewrite Hx. f_equal. symmetry. apply nth_lookup_Some. exact Hx.
Qed.

Lemma rgb_range (b0 b1 b2 : byte) :
  Z.lor (Z.lor (Z.shiftl (byte_val b0) 16) (Z.shiftl (byte_val b1) 8)) (byte_val b2)
    mod 2 ^ 24
  = Z.lor (Z.lor (Z.shiftl (byte_val b0) 16) (Z.shiftl (byte_val b1) 8)) (byte_val b2).
Proof.
  apply Z.bits_inj'. intros n Hn.
  destruct (Z_lt_le_dec n 24) as [Hlt | Hge].
  - apply Z.mod_pow2_bits_low. lia.
  - rewrite Z.mod_pow2_bits_high by lia.
    rewrite !Z.lor_spec, !Z.shiftl_spec by lia.
    rewrite !byte_high_bits by lia. reflexivity.
Qed.

Lemma getPixel_cleared n x y : getPixel (replicate n Byte.x00) x y = 0.
Proof.
  assert (forall i, byte_at (replicate n Byte.x00) i = 0) as Hz.
  { intros i. unfold byte_at. rewrite nth_lookup.
    destruct (replicate n Byte.x00 !! Z.to_nat i) as [b |] eqn:Hb; [| reflexivity].
    apply lookup_replicate in Hb as [-> _]. reflexivity. }
  unfold getPixel. rewrite !Hz. reflexivity.
Qed.

(** One animation frame in the frame buffer: frame [i mod 12] of the
    table on a black ground, moved [i] columns to the right, around the
    right edge. *)
Lemma nyan_frame_spec (anim framebuf : list byte) i :
  0 <= i ->
  Z.of_nat (length framebuf) = framebuf_bytes ->
  12 * (64 * 32 * 3) <= Z.of_nat (length anim) ->
  exists framebuf',
    nyan_frame anim i framebuf = Done framebuf' /\
    length framebuf' = length framebuf /\
    forall x y, in_frame x y ->
      getPixel framebuf' x y
      = if (x - i) mod DISPLAY_WIDTH <? 64
        then anim_pixel anim (i mod 12) ((x - i) mod DISPLAY_WIDTH) y
        else 0.
Proof.
  intros Hi Hlen Hanim.
  pose proof (Z.mod_pos_bound i 12 ltac:(lia)) as Hk.
  set (tx := fun (_ x : Z) => wrap_uint32 (x + i) mod DISPLAY_WIDTH).
  set (c := fun y x => anim_pixel anim (i mod 12) x y).
  assert (forall x, tx 0 x = (x + i) mod 128) as Htx.
  { intros x. unfold tx, wrap_uint32, DISPLAY_WIDTH.
    apply Z.mod_mod_divide. exists (2 ^ 25). reflexivity. }
  destruct (paint_grid (replicate (length framebuf) Byte.x00) (seqZ 0 32) (seqZ 0 64) tx c)
    as (fb' & Hrun & Hlen' & Hpix).
  { rewrite length_replicate. exact Hlen. }
  { intros y x Hy Hx. apply elem_of_seqZ in Hy. apply elem_of_seqZ in Hx.
    unfold in_frame, DISPLAY_HEIGHT. split; [| lia].
    unfold tx. apply Z.mod_pos_bound. reflexivity. }
  rewrite length_replicate in Hlen'.
  exists fb'. split; [| split; [exact Hlen' |]].
  - unfold nyan_frame. cbv zeta. rewrite <- Hrun.
    apply for_each_ext. intros fb y Hy. apply for_each_ext. intros fb0 x Hx.
    apply elem_of_seqZ in Hy. apply elem_of_seqZ in Hx.
    rewrite (wrap_uint32_small (i mod 12 * 64 * 32 * 3)) by lia.
    rewrite (wrap_uint32_small ((x + y * 64) * 3)) by lia.
    set (p := i mod 12 * 64 * 32 * 3 + (x + y * 64) * 3).
    rewrite (load_within anim p Byte.x00) by lia.
    change (Done ?v ≫= ?k) with (k v). cbv beta.
    rewrite (load_within anim (p + 1) Byte.x00) by lia.
    change (Done ?v ≫= ?k) with (k v). cbv beta.
    rewrite (load_within anim (p + 2) Byte.x00) by lia.
    change (Done ?v ≫= ?k) with (k v). cbv beta zeta.
    reflexivity.
  - intros x y [Hx Hy]. rewrite (Hpix x y (conj Hx Hy)).
    unfold DISPLAY_WIDTH, DISPLAY_HEIGHT in *.
    pose proof (Z.mod_pos_bound (x - i) 128 ltac:(lia)) as Hx0.
    destruct (Z.ltb_spec ((x - i) mod 128) 64) as [Hin | Hout].
    + assert (x = tx y ((x - i) mod 128)) as Hxeq.
      { change (tx y ((x - i) mod 128)) with (tx 0 ((x - i) mod 128)). rewrite Htx.
        Z.div_mod_to_equations. lia. }
      rewrite Hxeq at 1.
      rewrite (painted_grid_In (seqZ 0 32) (seqZ 0 64) tx c).
      * unfold c, anim_pixel, byte_at. apply rgb_range.
      * apply NoDup_seqZ.
      * apply NoDup_seqZ.
      * intros x1 x2 H1 H2. apply elem_of_seqZ in H1. apply elem_of_seqZ in H2.
        change (tx y x1) with (tx 0 x1). change (tx y x2) with (tx 0 x2).
        rewrite !Htx. intros Heq. Z.div_mod_to_equations. lia.
      * apply elem_of_seqZ. lia.
      * apply elem_of_seqZ. lia.
    + rewrite painted_grid_None; [apply getPixel_cleared |].
      intros x0 H0. apply elem_of_seqZ in H0.
      change (tx y x0) with (tx 0 x0). rewrite Htx.
      intros Heq. Z.div_mod_to_equations. lia.
Qed.

(** The frames of the animation in a double-buffered state. *)
Lemma tp_nyan_spec B (anim : list byte) a st
    (framebuf : list byte) brightness n_frames :
  double_buffered (drv a) I2S1 st ->
  Z.of_nat (length framebuf) = framebuf_bytes ->
  12 * (64 * 32 * 3) <= Z.of_nat (length anim) ->
  1 <= n_frames ->
  let i := n_frames - 1 in
  let shown := if Z.odd n_frames then backbuf_id a else Z.lxor (backbuf_id a) 1 in
  exists a' framebuf',
    tp_nyan B anim a framebuf brightness n_frames = Done (a', framebuf') /\
    double_buffered (drv a') I2S1 st /\
    length framebuf' = length framebuf /\
    backbuf_id a' = Z.lxor shown 1 /\
    (forall x y, in_frame x y ->
       getPixel framebuf' x y
       = if (x - i) mod DISPLAY_WIDTH <? 64
         then anim_pixel anim (i mod 12) ((x - i) mod DISPLAY_WIDTH) y
         else 0) /\
    (forall pl, 0 <= pl < B ->
       bitplane_mem a' !! (shown, pl) = Some (plane_words B framebuf' brightness pl)) /\
    tail_next (drv a') (dmadesc_a st) (desccount_a st) = Some (selected_head st shown) /\
    tail_next (drv a') (dmadesc_b st) (desccount_b st) = Some (selected_head st shown).
Proof.
  intros Hdb Hlen Hanim Hn i shown.
  set (I := fun (k : nat) (s : app * list byte) =>
              double_buffered (drv (fst s)) I2S1 st /\
              Z.of_nat (length (snd s)) = framebuf_bytes /\
              backbuf_id (fst s) = if Nat.even k then backbuf_id a else Z.lxor (backbuf_id a) 1).
  set (body := fun (s : app * list byte) (i : Z) =>
                 framebuf ← nyan_frame anim i (snd s);
                 a ← update_frame B (fst s) framebuf brightness;
                 mret (a, framebuf)).
  destruct (for_each_steps I (seqZ 0 i) body 0%nat (a, framebuf))
    as (s & Hrun & (Hdbs & Hlens & Hids)).
  { split; [exact Hdb |]. split; [exact Hlen | reflexivity]. }
  { intros j s0 i0 Hj (Hdb0 & Hlen0 & Hid0). apply lookup_seqZ in Hj.
    destruct (nyan_frame_spec anim (snd s0) i0 ltac:(lia) Hlen0 Hanim)
      as (fb1 & Hfb1 & Hlen1 & _).
    destruct (update_frame_step B (fst s0) st fb1 brightness Hdb0)
      as (a1 & Hup & Hdb1 & Hid1 & _).
    exists (a1, fb1). split.
    - unfold body. rewrite Hfb1.
      change (Done ?v ≫= ?k) with (k v). cbv beta. rewrite Hup. reflexivity.
    - split; [exact Hdb1 |]. split; [cbn [snd]; rewrite Hlen1; exact Hlen0 |].
      cbn [fst]. rewrite Hid1, Hid0. apply lxor_1_parity. }
  rewrite Nat.add_0_l, length_seqZ in Hids.
  assert (backbuf_id (fst s) = shown) as Hshown.
  { rewrite Hids. subst shown i.
    replace (Nat.even (Z.to_nat (n_frames - 1))) with (Z.odd n_frames); [reflexivity |].
    rewrite <- (Z2Nat.id (n_frames - 1)) by lia.
    replace n_frames with (Z.succ (n_frames - 1)) at 1 by lia.
    rewrite Z.odd_succ. rewrite Nat2Z.id.
    rewrite <- (Z2Nat.id (n_frames - 1)) at 1 by lia.
    generalize (Z.to_nat (n_frames - 1)). intros k.
    induction k as [| k IH]; [reflexivity |].
    rewrite Nat2Z.inj_succ, Z.even_succ, Nat.even_succ, <- Z.negb_even, <- Nat.negb_even.
    rewrite IH. reflexivity. }
  destruct (nyan_frame_spec anim (snd s) i ltac:(lia) Hlens Hanim)
    as (fb' & Hfb' & Hlen' & Hpix).
  destruct (update_frame_step B (fst s) st fb' brightness Hdbs)
    as (a' & Hup & Hdb' & Hid' & Hplanes & _ & Hta & Htb).
  rewrite Hshown in *.
  exists a', fb'.
  split; [| split; [exact Hdb' | split; [lia | split; [exact Hid' | split;
          [exact Hpix | split; [exact Hplanes | split; [exact Hta | exact Htb]]]]]]].
  unfold tp_nyan. fold body.
  replace n_frames with (Z.of_nat (S (Z.to_nat i))) by lia.
  rewrite seqZ_S, for_each_app.
  rewrite Z2Nat.id by lia. rewrite Hrun.
  change (Done ?v ≫= ?k) with (k v). cbv beta.
  cbn [for_each]. rewrite Z.add_0_l. unfold body at 1.
  rewrite Hfb'. change (Done ?v ≫= ?k) with (k v). cbv beta.
  rewrite Hup. reflexivity.
Qed.

(** X19: the animation.  In a double-buffered state, with a table that
    holds twelve frames of 64 x 32 pixels, [tp_nyan] draws and shows
    [n_frames] frames and returns.  The frame buffer ends with the last of
    them, frame [(n_frames - 1) mod 12] of the table, on a black ground,
    moved [n_frames - 1] columns to the right and around the right edge.
    The rings show the slot that holds its encoding; the back buffer id has
    changed if [n_frames] is odd. *)
Theorem X19_animation_scrolls_and_wraps B (anim : list byte) a st
    (framebuf : list byte) brightness n_frames :
  double_buffered (drv a) I2S1 st ->
  Z.of_nat (length framebuf) = framebuf_bytes ->
  12 * (64 * 32 * 3) <= Z.of_nat (length anim) ->
  1 <= n_frames ->
  let i := n_frames - 1 in
  let shown := if Z.odd n_frames then backbuf_id a else Z.lxor (backbuf_id a) 1 in
  exists a' framebuf',
    tp_nyan B anim a framebuf brightness n_frames = Done (a', framebuf') /\
    double_buffered (drv a') I2S1 st /\
    length framebuf' = length framebuf /\
    backbuf_id a' = Z.lxor shown 1 /\
    (forall x y, in_frame x y ->
       getPixel framebuf' x y
       = if (x - i) mod DISPLAY_WIDTH <? 64
         then anim_pixel anim (i mod 12) ((x - i) mod DISPLAY_WIDTH) y
         else 0) /\
    (forall pl, 0 <= pl < B ->
       bitplane_mem a' !! (shown, pl) = Some (plane_words B framebuf' brightness pl)) /\
    tail_next (drv a') (dmadesc_a st) (desccount_a st) = Some (selected_head st shown) /\
    tail_next (drv a') (dmadesc_b st) (desccount_b st) = Some (selected_head st shown).
Proof. apply tp_nyan_spec. Qed.

Lemma X19_animation_scrolls_and_wraps_witness :
  let a := {| backbuf_id := 0; bitplane_mem := ∅; drv := sample_driver |} in
  let i := 2 - 1 in
  let shown := if Z.odd 2 then backbuf_id a else Z.lxor (backbuf_id a) 1 in
  exists a' framebuf',
    tp_nyan 7 sample_anim a black_frame 16 2 = Done (a', framebuf') /\
    double_buffered (drv a') I2S1 sample_state /\
    length framebuf' = length black_frame /\
    backbuf_id a' = Z.lxor shown 1 /\
    (forall x y, in_frame x y ->
       getPixel framebuf' x y
       = if (x - i) mod DISPLAY_WIDTH <? 64
         then anim_pixel sample_anim (i mod 12) ((x - i) mod DISPLAY_WIDTH) y
         else 0) /\
    (forall pl, 0 <= pl < 7 ->
       bitplane_mem a' !! (shown, pl) = Some (plane_words 7 framebuf' 16 pl)) /\
    tail_next (drv a') (dmadesc_a sample_state) (desccount_a sample_state)
      = Some (selected_head sample_state shown) /\
    tail_next (drv a') (dmadesc_b sample_state) (desccount_b sample_state)
      = Some (selected_head sample_state shown).
Proof.
  intros a.
  apply (X19_animation_scrolls_and_wraps 7 sample_anim a sample_state black_frame 16 2).
  - unfold double_buffered. simpl.
    split; [reflexivity |]. split; [lia |]. split; [lia |].
    split; eexists; (split; [reflexivity | reflexivity]).
  - reflexivity.
  - unfold sample_anim. rewrite length_replicate. lia.
  - lia.
Defined.

(** ** The rings of the application *)

(** The chunks of the application's segments: a bit-plane buffer of 4096
    bytes takes a descriptor of [DMA_MAX] bytes and one of the 4 bytes
    left. *)
Lemma plane_layout (bitplane : Z -> Z) (order : list Z) :
  layout (map (fun ch => {| memory := bitplane ch; size := BITPLANE_SZ * 2 |}) order)
  = (ch ← order; [(bitplane ch, DMA_MAX); (bitplane ch + DMA_MAX, 4)]).
Proof.
  unfold layout. induction order as [| ch order IH]; [reflexivity |].
  cbn [map]. rewrite !bind_cons, IH. f_equal.
  cbn [memory size]. unfold chunks_of.
  change (descs_for (BITPLANE_SZ * 2)) with 2.
  change (seqZ 0 2) with [0; 1]. cbn [fmap list_fmap].
  change (DMA_MAX `min` (BITPLANE_SZ * 2 - 0 * DMA_MAX)) with DMA_MAX.
  change (DMA_MAX `min` (BITPLANE_SZ * 2 - 1 * DMA_MAX)) with 4.
  rewrite Z.mul_0_l, Z.add_0_r, Z.mul_1_l. reflexivity.
Qed.


(** X20: the descriptor lists of the application.  Each of the two lists
    [app_main] hands to the driver has [2^BITPLANE_CNT] entries, as many as
    the array declared for it holds: one segment of [BITPLANE_SZ * 2] bytes
    for every slot of the bit-plane order, pointing at that plane's buffer
    of the list's own frame buffer, and the end marker last. One lap sends
    [(2^BITPLANE_CNT - 1) * BITPLANE_SZ * 2] bytes. *)
Theorem X20_descriptor_lists_fill_their_arrays B (bitplane : Z -> Z -> Z) junk j :
  1 <= B <= 30 ->
  (forall i, 0 <= i < B -> bitplane j i <> 0) ->
  Z.of_nat (length (bufdesc B bitplane junk j)) = 2 ^ B /\
  (forall i ch, bitplane_order B !! i = Some ch ->
     bufdesc B bitplane junk j !! i
     = Some {| memory := bitplane j ch; size := BITPLANE_SZ * 2 |}) /\
  (forall i d, bufdesc B bitplane junk j !! i = Some d ->
     memory d = 0 <-> Z.of_nat i = 2 ^ B - 1) /\
  total_size (map (fun ch => {| memory := bitplane j ch; size := BITPLANE_SZ * 2 |})
                  (bitplane_order B))
  = (2 ^ B - 1) * (BITPLANE_SZ * 2).
Proof.
  intros HB Hnz.
  destruct (bitplane_order_shares B (proj1 HB)) as (Hlen & Hplanes & _).
  assert (0 < 2 ^ B) as Hpos by (apply Z.pow_pos_nonneg; lia).
  split; [| split; [| split]].
  - unfold bufdesc. rewrite length_app, length_map. simpl length. lia.
  - intros i ch Hch. unfold bufdesc.
    rewrite lookup_app_l by (rewrite length_map; eapply lookup_lt_Some; exact Hch).
    change (map ?f ?l) with (f <$> l). rewrite list_lookup_fmap, Hch. reflexivity.
  - intros i d Hd. unfold bufdesc in Hd.
    destruct (decide (i < length (bitplane_order B))%nat) as [Hlt | Hge].
    + rewrite lookup_app_l in Hd by (rewrite length_map; exact Hlt).
      change (map ?f ?l) with (f <$> l) in Hd. rewrite list_lookup_fmap in Hd.
      destruct (bitplane_order B !! i) as [ch |] eqn:Hch; [| discriminate].
      injection Hd as <-. cbn [memory].
      pose proof (proj1 (Forall_lookup _ _) Hplanes i ch Hch) as Hin.
      split; [intros H0; destruct (Hnz ch Hin H0) | lia].
    + rewrite lookup_app_r in Hd by (rewrite length_map; lia).
      rewrite length_map in Hd.
      destruct (i - length (bitplane_order B))%nat as [| k] eqn:Hk; [| discriminate].
      injection Hd as <-. cbn [memory]. split; [lia | reflexivity].
  - clear Hnz Hplanes. rewrite <- Hlen. clear Hlen.
    induction (bitplane_order B) as [| ch order IH]; [reflexivity |].
    cbn [map total_size foldr size] in *.
    fold (total_size (map (fun ch => {| memory := bitplane j ch; size := BITPLANE_SZ * 2 |}) order)).
    rewrite IH. simpl length. lia.
Qed.

Lemma X20_descriptor_lists_fill_their_arrays_witness :
  Z.of_nat (length (bufdesc 7 (fun j i => 4096 * (1 + 7 * j + i)) 0 1)) = 2 ^ 7 /\
  (forall i ch, bitplane_order 7 !! i = Some ch ->
     bufdesc 7 (fun j i => 4096 * (1 + 7 * j + i)) 0 1 !! i
     = Some {| memory := 4096 * (1 + 7 * 1 + ch); size := BITPLANE_SZ * 2 |}) /\
  (forall i d, bufdesc 7 (fun j i => 4096 * (1 + 7 * j + i)) 0 1 !! i = Some d ->
     memory d = 0 <-> Z.of_nat i = 2 ^ 7 - 1) /\
  total_size (map (fun ch => {| memory := 4096 * (1 + 7 * 1 + ch); size := BITPLANE_SZ * 2 |})
                  (bitplane_order 7))
  = (2 ^ 7 - 1) * (BITPLANE_SZ * 2).
Proof.
  apply (X20_descriptor_lists_fill_their_arrays 7 (fun j i => 4096 * (1 + 7 * j + i)) 0 1).
  - lia.
  - intros i Hi. lia.
Defined.

(** The application's segments for planes with buffers in the address
    space. *)
Lemma plane_segments (bitplane : Z -> Z) (order : list Z) (B : Z) :
  Forall (fun p => 0 <= p < B) order -> order <> [] ->
  (forall i, 0 <= i < B -> 0 < bitplane i /\ bitplane i + BITPLANE_SZ * 2 <= 2 ^ 32) ->
  let segs := map (fun ch => {| memory := bitplane ch; size := BITPLANE_SZ * 2 |}) order in
  Forall segment_ok segs /\ Forall in_address_space segs /\
  needed segs = 2 * Z.of_nat (length order) /\
  Exists (fun d => size d <> 0) segs.
Proof.
  intros Hin Hne Hsp segs. subst segs. split; [| split; [| split]].
  - apply Forall_forall. intros d Hd.
    apply list_elem_of_fmap in Hd as (ch & -> & Hch).
    pose proof (proj1 (Forall_forall _ _) Hin ch Hch) as Hr.
    split; [cbn [memory]; pose proof (Hsp ch Hr); lia | vm_compute; split; discriminate].
  - apply Forall_forall. intros d Hd.
    apply list_elem_of_fmap in Hd as (ch & -> & Hch).
    pose proof (proj1 (Forall_forall _ _) Hin ch Hch) as Hr.
    unfold in_address_space. cbn [memory size]. pose proof (Hsp ch Hr). lia.
  - clear. induction order as [| ch order IH]; [reflexivity |].
    cbn [map needed foldr size].
    fold (needed (map (fun ch => {| memory := bitplane ch; size := BITPLANE_SZ * 2 |}) order)).
    rewrite IH. change (descs_for (BITPLANE_SZ * 2)) with 2. simpl length. lia.
  - destruct order as [| ch order]; [congruence |].
    apply Exists_cons_hd. simpl. discriminate.
Qed.

(** The driver state [app_main] leaves, with the layout of its rings. *)
Lemma app_main_rings B (bitplane : Z -> Z -> Z)
    junk_size al junk junk_b :
  1 <= B <= 27 ->
  (forall j i, 0 <= j < 2 -> 0 <= i < B ->
     0 < bitplane j i /\ bitplane j i + BITPLANE_SZ * 2 <= 2 ^ 32) ->
  grants_all al ->
  exists m' st ra rb,
    app_main B bitplane junk_size al junk junk_b = Done m' /\
    chained m' I2S1 st /\
    desccount_a st = 2 * (2 ^ B - 1) /\ desccount_b st = 2 * (2 ^ B - 1) /\
    heap m' !! dmadesc_a st = Some ra /\ heap m' !! dmadesc_b st = Some rb /\
    chunk <$> ra
    = (ch ← bitplane_order B; [(bitplane 0 ch, DMA_MAX); (bitplane 0 ch + DMA_MAX, 4)]) /\
    chunk <$> rb
    = (ch ← bitplane_order B; [(bitplane 1 ch, DMA_MAX); (bitplane 1 ch + DMA_MAX, 4)]).
Proof.
  intros HB Hsp Hal.
  destruct (bitplane_order_shares B (proj1 HB)) as (Hlen & Hplanes & _).
  assert (2 ^ B <= 2 ^ 27) as Hpow by (apply Z.pow_le_mono_r; lia).
  assert (2 <= 2 ^ B) as Htwo
    by (change 2 with (2 ^ 1) at 1; apply Z.pow_le_mono_r; lia).
  assert (bitplane_order B <> []) as Hne
    by (intros Heq; rewrite Heq in Hlen; simpl in Hlen; lia).
  destruct (plane_segments (bitplane 0) (bitplane_order B) B Hplanes Hne
              (fun i Hi => Hsp 0 i ltac:(lia) Hi)) as (Hok_a & Hsp_a & Hneed_a & Hex_a).
  destruct (plane_segments (bitplane 1) (bitplane_order B) B Hplanes Hne
              (fun i Hi => Hsp 1 i ltac:(lia) Hi)) as (Hok_b & Hsp_b & Hneed_b & Hex_b).
  set (segs_a := map (fun ch => {| memory := bitplane 0 ch; size := BITPLANE_SZ * 2 |})
                     (bitplane_order B)) in *.
  set (segs_b := map (fun ch => {| memory := bitplane 1 ch; size := BITPLANE_SZ * 2 |})
                     (bitplane_order B)) in *.
  set (s := {| memory := 0; size := junk_size |}).
  assert (needed segs_a <= INT_MAX) as Hmax_a by (unfold INT_MAX; lia).
  assert (needed segs_b <= INT_MAX) as Hmax_b by (unfold INT_MAX; lia).
  set (m := {| i2s_state := ∅; heap := ∅ |}).
  set (a := fresh (dom (heap m))).
  destruct (ring_tiles a segs_a s [] Hok_a Hsp_a Hmax_a eq_refl Hex_a)
    as (ring_a & Hcalc_a & Hfill_a & Hchunks_a & _).
  destruct (closed_ring_built a segs_a s [] Hok_a Hmax_a eq_refl Hex_a)
    as (ring_a' & _ & Hfill_a' & Hlen_a & Hlink_a & _).
  assert (ring_a' = ring_a) as ->.
  { pose proof (Hfill_a (replicate (Z.to_nat (needed segs_a)) junk)
                  (length_replicate _ _)) as H1.
    rewrite (Hfill_a' _ (length_replicate _ _)) in H1. injection H1 as ->. reflexivity. }
  set (h2 := <[a := ring_a]>
               (<[a := replicate (Z.to_nat (needed segs_a)) junk]> (heap m))).
  set (b := fresh (dom h2)).
  destruct (ring_tiles b segs_b s [] Hok_b Hsp_b Hmax_b eq_refl Hex_b)
    as (ring_b & Hcalc_b & Hfill_b & Hchunks_b & _).
  destruct (closed_ring_built b segs_b s [] Hok_b Hmax_b eq_refl Hex_b)
    as (ring_b' & _ & Hfill_b' & Hlen_b & Hlink_b & _).
  assert (ring_b' = ring_b) as ->.
  { pose proof (Hfill_b (replicate (Z.to_nat (needed segs_b)) junk)
                  (length_replicate _ _)) as H1.
    rewrite (Hfill_b' _ (length_replicate _ _)) in H1. injection H1 as ->. reflexivity. }
  assert (a <> b) as Hab.
  { intros Heq. apply (is_fresh (dom h2)). fold b. rewrite <- Heq.
    subst h2. apply elem_of_dom. rewrite lookup_insert_eq. eauto. }
  pose proof (setup_two_rings m I2S1 (segs_a ++ [s]) (segs_b ++ [s])
                (needed segs_a) (needed segs_b) al junk junk_b ring_a ring_b Hal
                ltac:(lia) ltac:(unfold fits_size_t, sizeof_lldesc_t; lia)
                ltac:(lia) ltac:(unfold fits_size_t, sizeof_lldesc_t; lia)
                Hcalc_a (Hfill_a _ (length_replicate _ _))
                Hcalc_b (Hfill_b _ (length_replicate _ _))) as Hrun.
  cbv zeta in Hrun. fold a h2 b in Hrun.
  set (st := {| dmadesc_a := a; dmadesc_b := b;
                desccount_a := needed segs_a; desccount_b := needed segs_b |}) in *.
  set (m' := {| i2s_state := <[i2snum I2S1 := st]> (i2s_state m);
                heap := <[b := ring_b]>
                          (<[b := replicate (Z.to_nat (needed segs_b)) junk]> h2) |}) in *.
  assert (heap m' !! a = Some ring_a) as Hra
    by (subst m' h2; cbn [heap]; rewrite !lookup_insert_ne by congruence;
        apply lookup_insert_eq).
  assert (heap m' !! b = Some ring_b) as Hrb by (subst m'; cbn [heap]; apply lookup_insert_eq).
  exists m', st, ring_a, ring_b.
  split; [exact Hrun |].
  split; [| split; [cbn [desccount_a st]; lia | split; [cbn [desccount_b st]; lia |
          split; [exact Hra | split; [exact Hrb | split]]]]].
  - split; [| split; [exact Hab | split; eexists; split; eassumption]].
    unfold double_buffered. subst st. cbn [dmadesc_a dmadesc_b desccount_a desccount_b].
    split; [subst m'; cbn [i2s_state]; apply lookup_insert_eq |].
    split; [lia |]. split; [lia |].
    split; eexists; (split; [eassumption | lia]).
  - rewrite Hchunks_a. apply plane_layout.
  - rewrite Hchunks_b. apply plane_layout.
Qed.

(** X21: the rings of the application.  With bit-plane buffers inside
    the address space and an allocator that grants the requests of the
    setup, [app_main] returns from setup with the driver of [I2S1]
    double-buffered.  Each ring has [2 * (2^BITPLANE_CNT - 1)] descriptors:
    for every slot of the bit-plane order, in order, one descriptor of
    [DMA_MAX] bytes at the start of that plane's buffer and one of the 4
    bytes left; ring A reads the planes of frame buffer 0, ring B those of
    frame buffer 1.  Up to 27 bit-planes the byte count of a ring, 12 bytes a
    descriptor, fits [size_t]. *)
Theorem X21_application_rings_follow_the_plane_order B (bitplane : Z -> Z -> Z)
    junk_size al junk junk_b :
  1 <= B <= 27 ->
  (forall j i, 0 <= j < 2 -> 0 <= i < B ->
     0 < bitplane j i /\ bitplane j i + BITPLANE_SZ * 2 <= 2 ^ 32) ->
  grants_all al ->
  exists m' st ra rb,
    app_main B bitplane junk_size al junk junk_b = Done m' /\
    chained m' I2S1 st /\
    desccount_a st = 2 * (2 ^ B - 1) /\ desccount_b st = 2 * (2 ^ B - 1) /\
    fits_size_t (desccount_a st) /\ fits_size_t (desccount_b st) /\
    heap m' !! dmadesc_a st = Some ra /\ heap m' !! dmadesc_b st = Some rb /\
    chunk <$> ra
    = (ch ← bitplane_order B; [(bitplane 0 ch, DMA_MAX); (bitplane 0 ch + DMA_MAX, 4)]) /\
    chunk <$> rb
    = (ch ← bitplane_order B; [(bitplane 1 ch, DMA_MAX); (bitplane 1 ch + DMA_MAX, 4)]).
Proof.
  intros HB Hsp Hal.
  destruct (app_main_rings B bitplane junk_size al junk junk_b HB Hsp Hal)
    as (m' & st & ra & rb & Hrun & Hch & Hca & Hcb & Hrest).
  assert (2 ^ B <= 2 ^ 27) as Hpow by (apply Z.pow_le_mono_r; lia).
  exists m', st, ra, rb.
  split; [exact Hrun |]. split; [exact Hch |]. split; [exact Hca |]. split; [exact Hcb |].
  split; [rewrite Hca; unfold fits_size_t, sizeof_lldesc_t; lia |].
  split; [rewrite Hcb; unfold fits_size_t, sizeof_lldesc_t; lia | exact Hrest].
Qed.

Lemma X21_application_rings_follow_the_plane_order_witness :
  exists m' st ra rb,
    app_main 7 (fun j i => 4096 * (1 + 7 * j + i)) 0 sample_allocator
      (sample_desc (DescPtr 0%nat 0)) 0%nat
    = Done m' /\
    chained m' I2S1 st /\
    desccount_a st = 2 * (2 ^ 7 - 1) /\ desccount_b st = 2 * (2 ^ 7 - 1) /\
    fits_size_t (desccount_a st) /\ fits_size_t (desccount_b st) /\
    heap m' !! dmadesc_a st = Some ra /\ heap m' !! dmadesc_b st = Some rb /\
    chunk <$> ra
    = (ch ← bitplane_order 7;
       [(4096 * (1 + 7 * 0 + ch), DMA_MAX); (4096 * (1 + 7 * 0 + ch) + DMA_MAX, 4)]) /\
    chunk <$> rb
    = (ch ← bitplane_order 7;
       [(4096 * (1 + 7 * 1 + ch), DMA_MAX); (4096 * (1 + 7 * 1 + ch) + DMA_MAX, 4)]).
Proof.
  apply (X21_application_rings_follow_the_plane_order 7
           (fun j i => 4096 * (1 + 7 * j + i)) 0 sample_allocator
           (sample_desc (DescPtr 0%nat 0)) 0%nat).
  - lia.
  - intros j i Hj Hi. change (BITPLANE_SZ * 2) with 4096. lia.
  - repeat split.
Defined.

(** ** The main loop *)

Lemma tp_diagonal_step B a st (framebuf : list byte) brightness :
  double_buffered (drv a) I2S1 st ->
  Z.of_nat (length framebuf) = framebuf_bytes ->
  exists a' framebuf',
    tp_diagonal B a framebuf brightness = Done (a', framebuf') /\
    double_buffered (drv a') I2S1 st /\
    length framebuf' = length framebuf /\
    backbuf_id a' = Z.lxor (backbuf_id a) 1.
Proof.
  intros Hdb Hlen.
  destruct (paint_frame framebuf
              (fun y x => if wrap_uint32 (x - y) mod DISPLAY_HEIGHT =? 0
                          then 0xFFFFFFFF else 0xFF000000) Hlen)
    as (fb' & Hrun & Hlen' & _).
  cbv beta in Hrun.
  destruct (update_frame_step B a st fb' brightness Hdb) as (a' & Hup & Hdb' & Hid & _).
  exists a', fb'. split; [| split; [exact Hdb' | split; [exact Hlen' | exact Hid]]].
  unfold tp_diagonal. rewrite Hrun.
  change (Done ?v ≫= ?k) with (k v). cbv beta. rewrite Hup. reflexivity.
Qed.

(** One round of the main loop in a double-buffered state: 325 frames
    are drawn and shown, the last one frame 299 of the animation. *)
Lemma main_round_spec B (anim : list byte) brightness st (s : app * list byte) :
  double_buffered (drv (fst s)) I2S1 st ->
  Z.of_nat (length (snd s)) = framebuf_bytes ->
  12 * (64 * 32 * 3) <= Z.of_nat (length anim) ->
  exists s',
    main_round B anim brightness s = Done s' /\
    double_buffered (drv (fst s')) I2S1 st /\
    Z.of_nat (length (snd s')) = framebuf_bytes /\
    backbuf_id (fst s') = Z.lxor (backbuf_id (fst s)) 1 /\
    forall x y, in_frame x y ->
      getPixel (snd s') x y
      = if (x - 299) mod DISPLAY_WIDTH <? 64
        then anim_pixel anim 11 ((x - 299) mod DISPLAY_WIDTH) y
        else 0.
Proof.
  intros Hdb Hlen Hanim.
  destruct (tp_diagonal_step B (fst s) st (snd s) brightness Hdb Hlen)
    as (a1 & fb1 & Hrun1 & Hdb1 & Hlen1 & Hid1).
  destruct (tp_stripes_sequence_spec B a1 st fb1 brightness false Hdb1 ltac:(lia))
    as (a2 & fb2 & Hrun2 & Hdb2 & Hlen2 & Hid2 & _).
  destruct (tp_stripes_sequence_spec B a2 st fb2 brightness true Hdb2 ltac:(lia))
    as (a3 & fb3 & Hrun3 & Hdb3 & Hlen3 & Hid3 & _).
  destruct (tp_nyan_spec B anim a3 st fb3 brightness 300 Hdb3 ltac:(lia) Hanim ltac:(lia))
    as (a4 & fb4 & Hrun4 & Hdb4 & Hlen4 & Hid4 & Hpix & _).
  exists (a4, fb4). cbn [fst snd].
  split; [| split; [exact Hdb4 | split; [lia | split; [| exact Hpix]]]].
  - unfold main_round. rewrite Hrun1.
    change (Done ?v ≫= ?k) with (k v). cbv beta. cbn [fst snd]. rewrite Hrun2.
    change (Done ?v ≫= ?k) with (k v). cbv beta. cbn [fst snd]. rewrite Hrun3.
    change (Done ?v ≫= ?k) with (k v). cbv beta. cbn [fst snd]. exact Hrun4.
  - rewrite Hid4. change (Z.odd 300) with false. cbv iota.
    rewrite Hid3, Hid2, Hid1. rewrite !lxor_1_twice. reflexivity.
Qed.

Lemma main_loop_spec B (anim : list byte) brightness st rounds :
  12 * (64 * 32 * 3) <= Z.of_nat (length anim) ->
  forall s : app * list byte,
    double_buffered (drv (fst s)) I2S1 st ->
    Z.of_nat (length (snd s)) = framebuf_bytes ->
    exists s',
      main_loop B rounds anim brightness s = Done s' /\
      double_buffered (drv (fst s')) I2S1 st /\
      Z.of_nat (length (snd s')) = framebuf_bytes /\
      backbuf_id (fst s')
      = (if Nat.even rounds then backbuf_id (fst s) else Z.lxor (backbuf_id (fst s)) 1) /\
      (rounds <> 0%nat ->
       forall x y, in_frame x y ->
         getPixel (snd s') x y
         = if (x - 299) mod DISPLAY_WIDTH <? 64
           then anim_pixel anim 11 ((x - 299) mod DISPLAY_WIDTH) y
           else 0).
Proof.
  intros Hanim. induction rounds as [| rounds IH].
  - intros s Hdb Hlen. exists s.
    split; [reflexivity |]. split; [exact Hdb |]. split; [exact Hlen |].
    split; [reflexivity | congruence].
  - intros s Hdb Hlen.
    destruct (main_round_spec B anim brightness st s Hdb Hlen Hanim)
      as (s1 & Hrun1 & Hdb1 & Hlen1 & Hid1 & Hpix1).
    destruct (IH s1 Hdb1 Hlen1) as (s2 & Hrun2 & Hdb2 & Hlen2 & Hid2 & Hpix2).
    exists s2. split; [| split; [exact Hdb2 | split; [exact Hlen2 | split]]].
    + cbn [main_loop]. rewrite Hrun1. exact Hrun2.
    + rewrite Hid2, Hid1, Nat.even_succ, <- Nat.negb_even.
      destruct (Nat.even rounds); simpl; [reflexivity | apply lxor_1_twice].
    + intros _. destruct rounds as [| rounds]; [| apply Hpix2; discriminate].
      simpl in Hrun2. injection Hrun2 as <-. exact Hpix1.
Qed.

(** ** The bit-plane buffers through the main loop *)

Lemma bind_Done {A B} (m : outcome A) (k : A -> outcome B) (r : B) :
  m ≫= k = Done r -> exists x, m = Done x /\ k x = Done r.
Proof. destruct m as [x |]; [intros H; exists x; split; [reflexivity | exact H] | discriminate]. Qed.

Lemma for_each_preserves {A St} (P : St -> Prop) (l : list A)
    (body : St -> A -> outcome St) :
  (forall s i s', body s i = Done s' -> P s -> P s') ->
  forall s s', for_each l body s = Done s' -> P s -> P s'.
Proof.
  intros Hbody. induction l as [| i l IH]; intros s s' Hrun Hs.
  - injection Hrun as <-. exact Hs.
  - cbn [for_each] in Hrun. apply bind_Done in Hrun as (s1 & H1 & Hrest).
    apply (IH s1 s' Hrest). apply (Hbody s i s1 H1 Hs).
Qed.

(** A frame update writes as many words into each buffer of the back slot
    as the buffer holds, and leaves the other buffers alone. *)
Lemma update_frame_planes B a (framebuf : list byte) brightness a' :
  update_frame B a framebuf brightness = Done a' ->
  planes_allocated B (bitplane_mem a) -> planes_allocated B (bitplane_mem a').
Proof.
  intros Hrun Hmem. unfold update_frame in Hrun.
  apply bind_Done in Hrun as (d & _ & Hret). injection Hret as <-.
  cbn [bitplane_mem]. intros j i Hj Hi.
  destruct (Z.eq_dec j (backbuf_id a)) as [-> | Hne].
  - exists (plane_words B framebuf brightness i).
    split; [apply write_planes_lookup; exact Hi | apply plane_words_length].
  - rewrite write_planes_other_slot by exact Hne. apply Hmem; assumption.
Qed.

Lemma tp_diagonal_planes B a (framebuf : list byte) brightness s' :
  tp_diagonal B a framebuf brightness = Done s' ->
  planes_allocated B (bitplane_mem a) -> planes_allocated B (bitplane_mem (fst s')).
Proof.
  intros Hrun Hmem. unfold tp_diagonal in Hrun.
  apply bind_Done in Hrun as (fb & _ & Hrun).
  apply bind_Done in Hrun as (a' & Hup & Hret). injection Hret as <-.
  apply (update_frame_planes B a fb brightness a' Hup Hmem).
Qed.

Lemma tp_stripes_planes B a (framebuf : list byte) brightness width offset isY s' :
  tp_stripes B a framebuf brightness width offset isY = Done s' ->
  planes_allocated B (bitplane_mem a) -> planes_allocated B (bitplane_mem (fst s')).
Proof.
  intros Hrun Hmem. unfold tp_stripes in Hrun.
  apply bind_Done in Hrun as (fb & _ & Hrun).
  apply bind_Done in Hrun as (a' & Hup & Hret). injection Hret as <-.
  apply (update_frame_planes B a fb brightness a' Hup Hmem).
Qed.

Lemma tp_stripes_sequence_planes B a (framebuf : list byte) brightness isY s' :
  tp_stripes_sequence B a framebuf brightness isY = Done s' ->
  planes_allocated B (bitplane_mem a) -> planes_allocated B (bitplane_mem (fst s')).
Proof.
  intros Hrun Hmem. unfold tp_stripes_sequence in Hrun.
  apply bind_Done in Hrun as (s1 & H1 & H2).
  assert (forall width (off : Z -> Z) l (s s2 : app * list byte),
            for_each l (fun s i => tp_stripes B (fst s) (snd s) brightness width (off i) isY) s
            = Done s2 ->
            planes_allocated B (bitplane_mem (fst s)) ->
            planes_allocated B (bitplane_mem (fst s2))) as Hloop.
  { intros width off l.
    apply (for_each_preserves (fun s => planes_allocated B (bitplane_mem (fst s)))).
    intros s i s2 Hstep. apply tp_stripes_planes with (1 := Hstep). }
  apply (Hloop 2 (fun i => i mod 2) _ _ _ H2).
  apply (Hloop 8 (fun i => i) _ _ _ H1). exact Hmem.
Qed.

Lemma tp_nyan_planes B (anim : list byte) a (framebuf : list byte) brightness n_frames s' :
  tp_nyan B anim a framebuf brightness n_frames = Done s' ->
  planes_allocated B (bitplane_mem a) -> planes_allocated B (bitplane_mem (fst s')).
Proof.
  unfold tp_nyan. intros Hrun Hmem.
  refine (for_each_preserves (fun s => planes_allocated B (bitplane_mem (fst s)))
            _ _ _ _ _ Hrun Hmem).
  intros s i s2 Hstep.
  apply bind_Done in Hstep as (fb & _ & Hstep).
  apply bind_Done in Hstep as (a' & Hup & Hret). injection Hret as <-.
  apply (update_frame_planes B (fst s) fb brightness a' Hup).
Qed.

Lemma main_loop_planes B (anim : list byte) brightness rounds :
  forall s s' : app * list byte,
    main_loop B rounds anim brightness s = Done s' ->
    planes_allocated B (bitplane_mem (fst s)) ->
    planes_allocated B (bitplane_mem (fst s')).
Proof.
  induction rounds as [| rounds IH]; intros s s' Hrun Hmem.
  - injection Hrun as <-. exact Hmem.
  - cbn [main_loop] in Hrun. apply bind_Done in Hrun as (s1 & Hround & Hrest).
    apply (IH s1 s' Hrest). unfold main_round in Hround.
    apply bind_Done in Hround as (t1 & H1 & Hround).
    apply bind_Done in Hround as (t2 & H2 & Hround).
    apply bind_Done in Hround as (t3 & H3 & H4).
    apply (tp_nyan_planes _ _ _ _ _ _ _ H4).
    apply (tp_stripes_sequence_planes _ _ _ _ _ _ H3).
    apply (tp_stripes_sequence_planes _ _ _ _ _ _ H2).
    apply (tp_diagonal_planes _ _ _ _ _ H1). exact Hmem.
Qed.

(** X22: the application keeps running.  With bit-plane buffers inside
    the address space, as allocated, an allocator that grants the requests
    of the setup and an animation table of twelve frames, [app_main] gets
    through setup and through any number of rounds of its main loop: every
    store into [framebuf] or a descriptor array and every read of the table
    is inside its array.  After every round the driver is double-buffered
    as setup left it, every bit-plane buffer still holds exactly
    [BITPLANE_SZ] words (the encoder writes as many words as a buffer
    holds), the frame buffer holds frame 299 of the animation (table frame
    11, moved 299 columns around the right edge), and the back buffer id
    has changed, a round showing 325 frames. *)
Theorem X22_application_keeps_running (B : Z) (bitplane : Z -> Z -> Z) (junk_size : Z)
    (al : allocator) (junk : lldesc_t) (junk_b : block) (mem : gmap (Z * Z) (list Z))
    (anim : list byte) (brightness : Z) (rounds : nat) :
  1 <= B <= 8 ->
  (forall j i, 0 <= j < 2 -> 0 <= i < B ->
     0 < bitplane j i /\ bitplane j i + BITPLANE_SZ * 2 <= 2 ^ 32) ->
  grants_all al ->
  planes_allocated B mem ->
  12 * (64 * 32 * 3) <= Z.of_nat (length anim) ->
  exists a framebuf st,
    app_main_run B bitplane junk_size al junk junk_b mem anim brightness rounds
    = Done (a, framebuf) /\
    double_buffered (drv a) I2S1 st /\
    desccount_a st = 2 * (2 ^ B - 1) /\ desccount_b st = 2 * (2 ^ B - 1) /\
    planes_allocated B (bitplane_mem a) /\
    Z.of_nat (length framebuf) = framebuf_bytes /\
    backbuf_id a = (if Nat.even rounds then 0 else 1) /\
    (rounds <> 0%nat ->
     forall x y, in_frame x y ->
       getPixel framebuf x y
       = if (x - 299) mod DISPLAY_WIDTH <? 64
         then anim_pixel anim 11 ((x - 299) mod DISPLAY_WIDTH) y
         else 0).
Proof.
  intros HB Hsp Hal Hmem Hanim.
  destruct (app_main_rings B bitplane junk_size al junk junk_b ltac:(lia) Hsp Hal)
    as (d & st & _ & _ & Hsetup & (Hdb & _) & Hca & Hcb & _).
  destruct (main_loop_spec B anim brightness st rounds Hanim
              ({| backbuf_id := 0; bitplane_mem := mem; drv := d |}, black_frame)
              Hdb eq_refl)
    as ([a fb] & Hrun & Hdb' & Hlen & Hid & Hpix).
  pose proof (main_loop_planes B anim brightness rounds _ _ Hrun Hmem) as Hmem'.
  exists a, fb, st. cbn [fst snd backbuf_id] in *.
  split; [| split; [exact Hdb' | split; [exact Hca | split; [exact Hcb | split;
          [exact Hmem' | split; [exact Hlen | split; [exact Hid | exact Hpix]]]]]]].
  unfold app_main_run. rewrite Hsetup. exact Hrun.
Qed.

Lemma X22_application_keeps_running_witness :
  exists a framebuf st,
    app_main_run 7 (fun j i => 4096 * (1 + 7 * j + i)) 0 sample_allocator
      (sample_desc (DescPtr 0%nat 0)) 0%nat (sample_planes 7) sample_anim 16 2
    = Done (a, framebuf) /\
    double_buffered (drv a) I2S1 st /\
    desccount_a st = 2 * (2 ^ 7 - 1) /\ desccount_b st = 2 * (2 ^ 7 - 1) /\
    planes_allocated 7 (bitplane_mem a) /\
    Z.of_nat (length framebuf) = framebuf_bytes /\
    backbuf_id a = (if Nat.even 2 then 0 else 1) /\
    (2%nat <> 0%nat ->
     forall x y, in_frame x y ->
       getPixel framebuf x y
       = if (x - 299) mod DISPLAY_WIDTH <? 64
         then anim_pixel sample_anim 11 ((x - 299) mod DISPLAY_WIDTH) y
         else 0).
Proof.
  apply (X22_application_keeps_running 7 (fun j i => 4096 * (1 + 7 * j + i)) 0
           sample_allocator (sample_desc (DescPtr 0%nat 0)) 0%nat (sample_planes 7)
           sample_anim 16 2).
  - lia.
  - intros j i Hj Hi. change (BITPLANE_SZ * 2) with 4096. lia.
  - repeat split.
  - intros j i Hj Hi.
    assert (j = 0 \/ j = 1) as Hjs by lia.
    assert (i = 0 \/ i = 1 \/ i = 2 \/ i = 3 \/ i = 4 \/ i = 5 \/ i = 6) as His by lia.
    destruct Hjs as [-> | ->];
      destruct His as [-> | [-> | [-> | [-> | [-> | [-> | ->]]]]]];
      (eexists; split; [vm_compute; reflexivity | reflexivity]).
  - unfold sample_anim. rewrite length_replicate. lia.
Defined.

(** ** Allocations that are not tested *)

(** A refused request, or a byte count that has wrapped, gives an array with
    fewer elements than descriptors are counted. *)
Lemma malloc_short h n granted junk :
  0 < n -> granted = false \/ ~ fits_size_t n ->
  Z.of_nat (length (heap_caps_malloc h (wrap_uint32 (n * sizeof_lldesc_t)) granted
                      junk).1.2) < n.
Proof.
  intros Hn Hbad. unfold heap_caps_malloc. cbn [fst snd]. rewrite length_replicate.
  destruct granted; [| lia].
  destruct Hbad as [Hg | Hfit]; [discriminate |].
  unfold fits_size_t, sizeof_lldesc_t, wrap_uint32 in *.
  pose proof (Z.mod_pos_bound (n * 12) (2 ^ 32) ltac:(lia)) as Hmod.
  rewrite Z2Nat.id by (apply Z.div_pos; lia).
  apply Z.div_lt_upper_bound; lia.
Qed.

(** X23: setup does not test what the allocator returns.  When the
    request for the state record is refused, [st->desccount_a = ...] is a
    store through [NULL].  When the request for descriptor array A is
    refused, or its byte count [desccount_a * sizeof(lldesc_t)] does not fit
    [size_t] and wraps, the array handed out has fewer elements than
    [fill_dma_desc] goes on to write: a store through [NULL] or past the end
    of the array.  These are undefined behaviour in C; the embedding records
    them as [Fault]. *)
Theorem X23_setup_does_not_test_allocations m dev segs s post bufb al junk junk_b :
  Forall segment_ok segs -> needed segs <= INT_MAX -> memory s = 0 ->
  Exists (fun d => size d <> 0) segs ->
  grant_state al = false \/ grant_a al = false \/ ~ fits_size_t (needed segs) ->
  (grant_state al = true ->
   let '(a, arr, _) :=
     heap_caps_malloc (heap m) (wrap_uint32 (needed segs * sizeof_lldesc_t))
       (grant_a al) junk in
   Z.of_nat (length arr) < needed segs /\
   fill_dma_desc a arr (segs ++ s :: post) = Fault) /\
  i2s_parallel_setup m dev {| bufa := segs ++ s :: post; bufb := bufb |} al junk junk_b
  = Fault.
Proof.
  intros Hok Hmax Hs Hex Hbad.
  pose proof (needed_pos segs Hok Hex) as Hpos.
  assert (grant_state al = true ->
          Z.of_nat (length (heap_caps_malloc (heap m)
                              (wrap_uint32 (needed segs * sizeof_lldesc_t))
                              (grant_a al) junk).1.2) < needed segs) as Hshort.
  { intros Hgs. apply malloc_short; [exact Hpos |].
    destruct Hbad as [Hb | [Hb | Hb]]; [congruence | left; exact Hb | right; exact Hb]. }
  destruct (heap_caps_malloc (heap m) (wrap_uint32 (needed segs * sizeof_lldesc_t))
              (grant_a al) junk) as [[a arr] h1] eqn:Hmalloc.
  cbn [fst snd] in Hshort.
  split.
  - intros Hgs. split; [exact (Hshort Hgs) |].
    apply fill_dma_desc_short; [exact Hok | exact (Hshort Hgs)].
  - unfold i2s_parallel_setup. cbn [bufa].
    unfold calc_needed_dma_descs_for.
    rewrite calc_loop_spec by (try assumption; lia).
    change (Done ?x ≫= ?k) with (k x). cbv beta.
    destruct (grant_state al) eqn:Hgs; [| reflexivity]. cbn [negb].
    rewrite Z.add_0_l, Hmalloc.
    rewrite fill_dma_desc_short; [reflexivity | exact Hok | exact (Hshort eq_refl)].
Qed.

Lemma X23_setup_does_not_test_allocations_witness :
  let al := {| grant_state := true; grant_a := false; grant_b := true |} in
  (grant_state al = true ->
   let '(a, arr, _) :=
     heap_caps_malloc (heap sample_driver)
       (wrap_uint32 (needed [segment 4096 4096] * sizeof_lldesc_t)) (grant_a al)
       (sample_desc (DescPtr 0%nat 0)) in
   Z.of_nat (length arr) < needed [segment 4096 4096] /\
   fill_dma_desc a arr ([segment 4096 4096] ++ end_marker :: []) = Fault) /\
  i2s_parallel_setup sample_driver I2S0
    {| bufa := [segment 4096 4096] ++ end_marker :: []; bufb := None |} al
    (sample_desc (DescPtr 0%nat 0)) 0%nat
  = Fault.
Proof.
  intros al.
  apply (X23_setup_does_not_test_allocations sample_driver I2S0
           [segment 4096 4096] end_marker [] None al).
  - repeat constructor; simpl; unfold INT_MAX; lia.
  - vm_compute. discriminate.
  - reflexivity.
  - apply Exists_cons_hd. simpl. lia.
  - right. left. reflexivity.
Defined.

(** ** The encoder's reads *)

Lemma bind_pointwise_in {A} (g1 g2 : Z -> list A) (l : list Z) :
  (forall y, y ∈ l -> g1 y = g2 y) -> l ≫= g1 = l ≫= g2.
Proof.
  intros Hg. induction l as [| y l IH]; [reflexivity |].
  rewrite !bind_cons, (Hg y) by left. f_equal.
  apply IH. intros z Hz. apply Hg. right. exact Hz.
Qed.

Lemma getPixel_app (framebuf extra : list byte) x y :
  0 <= x < DISPLAY_WIDTH -> 0 <= y < DISPLAY_HEIGHT ->
  Z.of_nat (length framebuf) = framebuf_bytes ->
  getPixel (framebuf ++ extra) x y = getPixel framebuf x y.
Proof.
  unfold framebuf_bytes, DISPLAY_WIDTH, DISPLAY_HEIGHT. intros Hx Hy Hlen.
  assert (forall i, 0 <= i < Z.of_nat (length framebuf) ->
            byte_at (framebuf ++ extra) i = byte_at framebuf i) as Hin.
  { intros i Hi. unfold byte_at. f_equal. apply app_nth1. lia. }
  unfold getPixel, DISPLAY_WIDTH. rewrite !Hin by lia. reflexivity.
Qed.

(** X24: the encoder reads [framebuf] inside its
    [DISPLAY_WIDTH * DISPLAY_HEIGHT * 3] bytes only.  Whatever bytes follow
    the frame buffer in memory, the bit-plane memory a frame update leaves
    is the same: no read of [getPixel], for the rows [y] and [y + 16] the
    encoder asks for, reaches past the end of the array. *)
Theorem X24_encoder_reads_inside_the_frame_buffer (B : Z) (mem : gmap (Z * Z) (list Z))
    (slot : Z) (framebuf extra : list byte) (brightness : Z) :
  Z.of_nat (length framebuf) = framebuf_bytes ->
  write_planes B mem slot (framebuf ++ extra) brightness
  = write_planes B mem slot framebuf brightness.
Proof.
  intros Hlen. unfold write_planes.
  assert (forall pl, plane_words B (framebuf ++ extra) brightness pl
                     = plane_words B framebuf brightness pl) as Hplane.
  { intros pl. unfold plane_words.
    apply bind_pointwise_in. intros y Hy. apply bind_pointwise_in. intros x Hx.
    apply elem_of_seqZ in Hy. apply elem_of_seqZ in Hx.
    f_equal. unfold pixel_word.
    rewrite (wrap_uint32_small (y + 16)) by lia.
    rewrite !(getPixel_app framebuf extra) by (unfold DISPLAY_HEIGHT; lia || assumption).
    reflexivity. }
  revert mem. generalize (seqZ 0 B) as planes.
  induction planes as [| q planes IH]; intros mem; [reflexivity |].
  simpl. rewrite Hplane. apply IH.
Qed.

Lemma X24_encoder_reads_inside_the_frame_buffer_witness :
  write_planes 7 ∅ 0 (sample_frame ++ [Byte.xff; Byte.xff; Byte.xff]) 16
  = write_planes 7 ∅ 0 sample_frame 16.
Proof.
  apply (X24_encoder_reads_inside_the_frame_buffer 7 ∅ 0 sample_frame
           [Byte.xff; Byte.xff; Byte.xff] 16).
  reflexivity.
Defined.
